(** * bootstrapContrast: the resampling / confidence-interval / contrast engine

    A shallow embedding of [bootstrapContrast/bootstrapContrast.py]:
    [bootstrap], [bootstrap_contrast] and the statistical core of
    [pairedcontrast], together with the library calls they make
    ([seaborn.algorithms.bootstrap], [numpy.random.randint],
    [warnings.warn], numpy indexing and rounding).

    Numbers.  The program computes on IEEE-754 doubles.  Here a double is
    an exact rational or NaN ([npfloat]); the two infinities are not
    represented.  The statistics and their differences are computed
    exactly.  The percentile indices are rounded at a half, so for them
    the rounding of each operation to the nearest double decides the
    result, and it is computed ([fl]).  Python integers are [Z]. *)

From Stdlib Require Import ZArith QArith Qcanon Qround Qcabs Qabs Qpower Lia Lqa.
From stdpp Require Import base numbers list sorting gmap strings pretty.

#[local] Set Warnings "-clear-no-such-hyp".

Local Open Scope Z_scope.

(** ** Doubles as rationals with NaN *)

Inductive npfloat : Type :=
  | Num (q : Qc)
  | NaN.

Global Instance npfloat_eq_dec : EqDecision npfloat.
Proof. solve_decision. Defined.

Definition of_int (n : Z) : npfloat := Num (Qc_of_Z n).

Definition np_lift2 (f : Qc → Qc → Qc) (x y : npfloat) : npfloat :=
  match x, y with
  | Num a, Num b => Num (f a b)
  | _, _ => NaN
  end.

Definition np_add : npfloat → npfloat → npfloat := np_lift2 Qcplus.
Definition np_sub : npfloat → npfloat → npfloat := np_lift2 Qcminus.
Definition np_mul : npfloat → npfloat → npfloat := np_lift2 Qcmult.

Definition np_neg (x : npfloat) : npfloat :=
  match x with Num a => Num (Qcopp a) | NaN => NaN end.

(** [x / y].  The only divisions in the modelled code are [alpha/2] and
    the [sum/len] of [numpy.mean], where a zero divisor comes with a zero
    dividend, so division by zero is [0/0 = nan]. *)
Definition np_div (x y : npfloat) : npfloat :=
  match x, y with
  | Num a, Num b => if decide (b = Qc_of_Z 0) then NaN else Num (Qcdiv a b)
  | _, _ => NaN
  end.

(** Comparisons with NaN are false, as in IEEE-754. *)
Definition np_ltb (x y : npfloat) : bool :=
  match x, y with
  | Num a, Num b => bool_decide (Qclt a b)
  | _, _ => false
  end.

(** The order [ndarray.sort] sorts by: numeric order, NaN last. *)
Definition np_le (x y : npfloat) : Prop :=
  match x, y with
  | Num a, Num b => Qcle a b
  | _, NaN => True
  | NaN, Num _ => False
  end.

Global Instance np_le_dec : RelDecision np_le.
Proof. intros [a|] [b|]; simpl; apply _. Defined.

Definition np_sort (a : list npfloat) : list npfloat := merge_sort np_le a.

(** [numpy.round]: round half to even. *)
Definition rint (x : Qc) : Z :=
  let f := Qfloor x in
  match (x - Qc_of_Z f ?= Q2Qc (1 # 2))%Qc with
  | Lt => f
  | Gt => f + 1
  | Eq => if Z.even f then f else f + 1
  end.

Definition np_round (x : npfloat) : npfloat :=
  match x with Num a => of_int (rint a) | NaN => NaN end.

(** [numpy.nan_to_num]: NaN becomes zero. *)
Definition nan_to_num (x : npfloat) : npfloat :=
  match x with Num a => Num a | NaN => of_int 0 end.

(** [ndarray.astype('int')]: truncation toward zero; NaN is cast to the
    smallest 64-bit integer. *)
Definition astype_int (x : npfloat) : Z :=
  match x with
  | Num a => Z.quot (Qnum a) (Zpos (Qden a))
  | NaN => - 2 ^ 63
  end.

(** *** Rounding to binary64

    The result of an operation on doubles is the double nearest to the
    exact result, a tie going to the even significand.  For [x] in the
    binade [2^e <= |x| < 2^(e+1)] the doubles are the multiples of
    [2^k], [k = max(e - 52, -1074)].  Magnitudes of [2^1024] and more,
    which round to infinity, do not occur below: the operands are at most
    [max(1, reps - 1)]. *)
Definition pow2 (k : Z) : Qc := Q2Qc (2 ^ k)%Q.

(** [floor(log2 |x|)], for [x] other than zero. *)
Definition binade (x : Qc) : Z :=
  let e := Z.log2 (Z.abs (Qnum x)) - Z.log2 (Zpos (Qden x)) in
  if decide (pow2 e ≤ Qcabs x)%Qc then e else e - 1.

Definition ulp_exponent (x : Qc) : Z := Z.max (binade x - 52) (-1074).

Definition fl (x : Qc) : Qc :=
  if decide (x = 0%Qc) then 0%Qc
  else (Qc_of_Z (rint (x / pow2 (ulp_exponent x))) * pow2 (ulp_exponent x))%Qc.

Definition f64 (x : npfloat) : npfloat :=
  match x with Num q => Num (fl q) | NaN => NaN end.

(** [alphas = np.array([alpha/2, 1-alpha/2])] *)
Definition two_sided_alphas (alpha : npfloat) : npfloat * npfloat :=
  let half := f64 (np_div alpha (of_int 2)) in
  (half, f64 (np_sub (of_int 1) half)).

(** [(reps-1)*alphas]: the integer is converted to a double and the
    product is rounded.  The conversion is exact up to [2^53].  A larger
    [reps] is out of reach, since the program first builds an array of
    [reps] replicates; there the product is left as it is. *)
Definition int_times (n : Z) (q : Qc) : Qc :=
  if decide (Z.abs n ≤ 2 ^ 53) then fl (Qc_of_Z n * q) else (Qc_of_Z n * q)%Qc.

Definition times_int (n : Z) (a : npfloat) : npfloat :=
  match a with Num q => Num (int_times n q) | NaN => NaN end.

(** [pct_low_high = np.round((reps-1)*alphas)] followed by
    [np.nan_to_num(pct_low_high).astype('int')]. *)
Definition pct_index (reps : Z) (a : npfloat) : Z :=
  astype_int (nan_to_num (np_round (times_int (reps - 1) a))).

Definition pct_low_high (reps : Z) (alphas : npfloat * npfloat) : Z * Z :=
  (pct_index reps alphas.1, pct_index reps alphas.2).


(** [numpy.mean] of a one-dimensional array; [nan] on the empty array. *)
Definition np_sum (a : list npfloat) : npfloat := foldl np_add (of_int 0) a.

Definition np_mean_fn (a : list npfloat) : npfloat :=
  np_div (np_sum a) (of_int (Z.of_nat (length a))).


(** ** Exceptions, warnings and the random source *)

(** A raised Python exception: its class name and its message. *)
Record pyexc : Type := PyExc { exc_class : string; exc_msg : string }.

Global Instance pyexc_eq_dec : EqDecision pyexc.
Proof. solve_decision. Defined.

Inductive outcome (A : Type) : Type :=
  | Ok (a : A)
  | Raise (e : pyexc).
Arguments Ok {A} a.
Arguments Raise {A} e.

(** Warning categories, with [issubclass]. [InstabilityWarning] is the
    class the module declares; [warnings.warn] is called without a
    category, which means [UserWarning]. *)
Inductive wcategory : Type :=
  | Warning | UserWarning | InstabilityWarning | RuntimeWarning.

Global Instance wcategory_eq_dec : EqDecision wcategory.
Proof. solve_decision. Defined.

Definition issubclass (c d : wcategory) : bool :=
  match c, d with
  | _, Warning => true
  | UserWarning, UserWarning => true
  | InstabilityWarning, (UserWarning | InstabilityWarning) => true
  | RuntimeWarning, RuntimeWarning => true
  | _, _ => false
  end.

Definition category_name (c : wcategory) : string :=
  match c with
  | Warning => "Warning"
  | UserWarning => "UserWarning"
  | InstabilityWarning => "InstabilityWarning"
  | RuntimeWarning => "RuntimeWarning"
  end.

(** Filter actions.  [Once] stands for the three actions that show a
    warning the first time only (["default"], ["module"], ["once"]); they
    are keyed here by category and text. *)
Inductive waction : Type := Error | Ignore | Always | Once.

(** An entry of [warnings.filters], matching by category. *)
Record wfilter : Type := WFilter { f_action : waction; f_category : wcategory }.

(** What the program reads and writes besides its arguments: the random
    draws handed out by numpy's generator, and the state of the
    [warnings] module. *)
Record world : Type := World {
  draws : nat → nat;              (* the raw random draws, in order *)
  cursor : nat;                   (* how many have been consumed *)
  filters : list wfilter;         (* warnings.filters, first match wins *)
  onceregistry : list (wcategory * string);
  shown : list (wcategory * string)   (* warnings delivered so far *)
}.

(** Computations that read and write the [world] and may raise. *)
Definition M (A : Type) : Type := world → outcome A * world.

Definition ret {A} (a : A) : M A := λ w, (Ok a, w).

Definition bind {A B} (c : M A) (k : A → M B) : M B := λ w,
  match c w with
  | (Ok a, w') => k a w'
  | (Raise e, w') => (Raise e, w')
  end.

Definition lift {A} (o : outcome A) : M A := λ w, (o, w).

Notation "'let*' x ':=' c 'in' k" := (bind c (λ x, k))
  (at level 10, x name, c at level 100, k at level 200).
Notation "c ';;' k" := (bind c (λ _, k))
  (at level 100, k at level 200, right associativity).

(** [warnings.filterwarnings("ignore")], executed when the module is
    imported (line 15): an ignore-everything filter goes to the front. *)
Definition ignore_all : wfilter := WFilter Ignore Warning.

Definition filterwarnings_ignore : M unit := λ w,
  (Ok tt, World (draws w) (cursor w) (ignore_all :: filters w)
                (onceregistry w) (shown w)).

(** The action for a category: the first matching filter, else the
    default action. *)
Fixpoint find_action (c : wcategory) (fs : list wfilter) : waction :=
  match fs with
  | [] => Once
  | f :: fs => if issubclass c (f_category f) then f_action f
               else find_action c fs
  end.

(** [warnings.warn(msg, category)] *)
Definition warn_as (category : wcategory) (msg : string) : M unit := λ w,
  match find_action category (filters w) with
  | Ignore => (Ok tt, w)
  | Error => (Raise (PyExc (category_name category) msg), w)
  | Always =>
      (Ok tt, World (draws w) (cursor w) (filters w) (onceregistry w)
                    (shown w ++ [(category, msg)]))
  | Once =>
      if decide ((category, msg) ∈ onceregistry w) then (Ok tt, w)
      else (Ok tt, World (draws w) (cursor w) (filters w)
                         ((category, msg) :: onceregistry w)
                         (shown w ++ [(category, msg)]))
  end.

(** [warnings.warn(msg)]: the category is [UserWarning]. *)
Definition warn (msg : string) : M unit := warn_as UserWarning msg.

Fixpoint for_each {A} (f : A → M unit) (l : list A) : M unit :=
  match l with
  | [] => ret tt
  | x :: l => f x ;; for_each f l
  end.

(** ** Statistic functions *)

(** A statistic function: a Python callable on arrays, with the text
    [str(statfunction)] stored under the key ['statistic'].  On an array
    that holds values it is taken to be a total function without
    effects; on the empty array it may issue warnings before it returns
    ([sf_empty_warnings], in order). *)
Record statfun : Type := StatFun {
  sf_repr : string;
  sf_call :> list npfloat → npfloat;
  sf_empty_warnings : list (wcategory * string)
}.

(** [numpy.mean]: on the empty array [_mean] warns
    ["Mean of empty slice."] and the division [0.0 / 0] that follows
    warns again (the second message in the wording of numpy 1.24 and
    later). *)
Definition np_mean : statfun :=
  StatFun "<function mean>" np_mean_fn
    [(RuntimeWarning, "Mean of empty slice.");
     (RuntimeWarning, "invalid value encountered in scalar divide")].

(** [statfunction(a)] *)
Definition call (statfunction : statfun) (a : list npfloat) : M npfloat :=
  (match a with
   | [] => for_each (λ cw, warn_as cw.1 cw.2) (sf_empty_warnings statfunction)
   | _ :: _ => ret tt
   end) ;;
  ret (statfunction a).

(** [RandomState.randint(low, high, size)]: [size] integers in
    [[low, high)].  An empty interval is a [ValueError], unless no
    integer is asked for: [randint(0, 0, 0)] is the empty array. *)
Definition randint (low high : Z) (size : nat) : M (list Z) := λ w,
  if decide (size = 0%nat) then (Ok [], w)
  else if decide (high ≤ low) then (Raise (PyExc "ValueError" "low >= high"), w)
  else
    (Ok (map (λ k, low + Z.of_nat (draws w (cursor w + k)%nat) `mod` (high - low))
             (seq 0 size)),
     World (draws w) (cursor w + size)%nat (filters w) (onceregistry w) (shown w)).

(** ** Indexing *)

(** [a[i]] for a numpy array or a Python list: negative indices count
    from the end, anything else out of range raises [IndexError]. *)
Definition getitem {A} (a : list A) (i : Z) : outcome A :=
  let n := Z.of_nat (length a) in
  let j := if decide (i < 0) then n + i else i in
  if decide (0 ≤ j < n) then
    match a !! Z.to_nat j with
    | Some x => Ok x
    | None => Raise (PyExc "IndexError" "index out of range")
    end
  else Raise (PyExc "IndexError" "index out of range").

(** [a.take(resampler, axis=0)] *)
Fixpoint take_indices (a : list npfloat) (resampler : list Z)
  : outcome (list npfloat) :=
  match resampler with
  | [] => Ok []
  | i :: rest =>
      match getitem a i with
      | Raise e => Raise e
      | Ok x => match take_indices a rest with
                | Raise e => Raise e
                | Ok xs => Ok (x :: xs)
                end
      end
  end.

(** ** Library and sibling-module functions the engine calls

    [bca] is imported from the package's [bootstrap_tools]; the
    significance tests come from [scipy.stats]; the smoothed resampler is
    seaborn's [_smooth_bootstrap].  The engine is written against this
    interface.  [bca] and the tests are deterministic functions of their
    arguments that may raise; the smoothed resampler draws random
    numbers. *)
Class Externals : Type := {
  (** [bca(data, alphas, statarray, statfunction, ostat, reps)]: the pair
      of BCa indices. *)
  bca : list (list npfloat) → npfloat * npfloat → list npfloat →
        statfun → npfloat → Z → outcome (Z * Z);
  (** [_smooth_bootstrap(args, n_boot, func, func_kwargs)] *)
  smooth_bootstrap : list npfloat → statfun → Z → M (list npfloat);
  (** [ttest_ind(a, b)]: statistic and two-sided p-value. *)
  ttest_ind : list npfloat → list npfloat → outcome (npfloat * npfloat);
  (** [mannwhitneyu(x, y)] with the library's defaults: statistic and
      p-value.  Which p-value that is depends on the SciPy release: up to
      1.6 the default is [alternative=None], half of the two-sided
      p-value; from 1.7 on it is [alternative='two-sided']. *)
  mannwhitneyu : list npfloat → list npfloat → outcome (npfloat * npfloat);
  (** [ttest_1samp(a, popmean)]: statistic and two-sided p-value. *)
  ttest_1samp : list npfloat → npfloat → outcome (npfloat * npfloat)
}.

(** The default values of the parameters [alpha] and [reps]. *)
Definition default_alpha : npfloat := Num (Q2Qc (5 # 100)).
Definition default_reps : Z := 3000.

Section Engine.
Context `{Externals}.

(** *** [seaborn.algorithms.bootstrap(data, func, n_boot, smooth)]

    seaborn builds a new [RandomState] for every call and seeds it from
    the operating system; here all calls draw from the one sequence
    [draws] of the world, which stands for whatever the generators
    produce. *)

(** The resampling loop: [n_boot] times, draw [n] indices in [[0, n)],
    take them from the array and apply [func]. *)
Fixpoint boot_dist (n_boot : nat) (a : list npfloat) (func : statfun)
  : M (list npfloat) :=
  match n_boot with
  | O => ret []
  | S k =>
      let n := length a in
      let* resampler := randint 0 (Z.of_nat n) n in
      let* sample := lift (take_indices a resampler) in
      let* stat := call func sample in
      let* rest := boot_dist k a func in
      ret (stat :: rest)
  end.

Definition sb_bootstrap (a : list npfloat) (func : statfun) (n_boot : Z)
    (smooth : bool) : M (list npfloat) :=
  if smooth then smooth_bootstrap a func n_boot
  else boot_dist (Z.to_nat n_boot) a func.

(** *** Stability warnings (lines 69-74 and 148-153) *)

Definition extremal_msg : string :=
  "Some values used extremal samples results are probably unstable.".
Definition marginal_msg : string :=
  "Some values used top 10 low/high samples results may be unstable.".

Definition np_any (p : Z → bool) (ind : Z * Z) : bool := p ind.1 || p ind.2.

Definition extremal (reps : Z) (ind : Z * Z) : bool :=
  np_any (λ i, i =? 0) ind || np_any (λ i, i =? reps - 1) ind.

Definition marginal (reps : Z) (ind : Z * Z) : bool :=
  np_any (λ i, i <? 10) ind || np_any (λ i, i >=? reps - 10) ind.

Definition warn_index_pair (reps : Z) (ind : Z * Z) : M unit :=
  if extremal reps ind then warn extremal_msg
  else if marginal reps ind then warn marginal_msg
  else ret tt.

End Engine.

(** ** [bootstrap] (lines 36-87) *)

Module Boot.
Section Bootstrap.
Context `{Externals}.

Record bootstrap_result : Type := BootstrapResult {
  summary : npfloat;
  statistic : string;
  bootstrap_reps : Z;
  pct_ci_low : npfloat;
  pct_ci_high : npfloat;
  bca_ci_low : npfloat;
  bca_ci_high : npfloat;
  stat_array : list npfloat;
  pct_low_high_indices : Z * Z;
  bca_low_high_indices : Z * Z
}.

Definition bootstrap (data : list npfloat) (statfunction : option statfun)
    (smoothboot : bool) (alpha : npfloat) (reps : Z) : M bootstrap_result :=
  let statfunction := default np_mean statfunction in
  let alphas := two_sided_alphas alpha in
  let tdata := [data] in
  let* ostat := call statfunction data in
  let* statarray := sb_bootstrap data statfunction reps smoothboot in
  let statarray := np_sort statarray in
  let pct_low_high := pct_low_high reps alphas in
  let* bca_low_high :=
    lift (bca tdata alphas statarray statfunction ostat reps) in
  for_each (warn_index_pair reps) [pct_low_high; bca_low_high] ;;
  let* pct_lo := lift (getitem statarray pct_low_high.1) in
  let* pct_hi := lift (getitem statarray pct_low_high.2) in
  let* bca_lo := lift (getitem statarray bca_low_high.1) in
  let* bca_hi := lift (getitem statarray bca_low_high.2) in
  ret {| summary := ostat;
         statistic := sf_repr statfunction;
         bootstrap_reps := reps;
         pct_ci_low := pct_lo;
         pct_ci_high := pct_hi;
         bca_ci_low := bca_lo;
         bca_ci_high := bca_hi;
         stat_array := statarray;
         pct_low_high_indices := pct_low_high;
         bca_low_high_indices := bca_low_high |}.

End Bootstrap.
End Boot.

(** ** The data table *)

(** A value of the grouping column, and an element of [idx]: a string or
    an integer.  Python compares them with [==]; a string never equals an
    integer. *)
Inductive label : Type :=
  | LStr (s : string)
  | LInt (z : Z).

Global Instance label_eq_dec : EqDecision label.
Proof. solve_decision. Defined.

Global Instance label_countable : Countable label.
Proof.
  refine (inj_countable'
    (λ l, match l with LStr s => inl s | LInt z => inr z end)
    (λ x, match x with inl s => LStr s | inr z => LInt z end) _).
  by intros [].
Defined.

(** A data frame restricted to the two columns [x] (group) and [y]
    (value): one pair per row, in row order. *)
Definition frame : Type := list (label * npfloat).

(** [Series.unique()]: the distinct values in order of first appearance. *)
Fixpoint unique_from (seen col : list label) : list label :=
  match col with
  | [] => []
  | v :: col =>
      if decide (v ∈ seen) then unique_from seen col
      else v :: unique_from (v :: seen) col
  end.

Definition unique (col : list label) : list label := unique_from [] col.

(** [dict(zip(keys, values))]: later pairs overwrite earlier ones. *)
Definition dict_zip {V} (keys : list label) (values : list V) : gmap label V :=
  foldl (λ m kv, <[kv.1 := kv.2]> m) ∅ (zip keys values).

(** [range(0, n)] *)
Definition range (n : nat) : list Z := map Z.of_nat (seq 0 n).

(** [np.array(data.ix[data[x] == level][y])] *)
Definition rows_of (data : frame) (level : label) : list npfloat :=
  (filter (λ r, r.1 = level) data).*2.

(** [levels[i]] where [i] is a Python value. *)
Definition levels_at (levels : list label) (i : label) : outcome label :=
  match i with
  | LInt z => getitem levels z
  | LStr _ => Raise (PyExc "IndexError" "only integers are valid indices")
  end.

(** The loop of lines 118-123, which fills [arraylist]. *)
Fixpoint fill_arraylist (data : frame) (levels : list label)
    (levels_to_idx : gmap label Z) (idx_to_levels : gmap label label)
    (idx : list label) (arraylist : list (list npfloat))
  : outcome (list (list npfloat)) :=
  match idx with
  | [] => Ok arraylist
  | i :: idx =>
      match levels_to_idx !! i with
      | Some k =>
          match getitem levels k with
          | Raise e => Raise e
          | Ok level =>
              fill_arraylist data levels levels_to_idx idx_to_levels idx
                (arraylist ++ [rows_of data level])
          end
      | None =>
          match idx_to_levels !! i with
          | Some _ =>
              match levels_at levels i with
              | Raise e => Raise e
              | Ok level =>
                  fill_arraylist data levels levels_to_idx idx_to_levels idx
                    (arraylist ++ [rows_of data level])
              end
          | None =>
              fill_arraylist data levels levels_to_idx idx_to_levels idx
                arraylist
          end
      end
  end.

(** Lines 109-123: the levels, the two dictionaries and the loop. *)
Definition arraylist_of (data : frame) (idx : list label)
  : outcome (list (list npfloat)) :=
  let levels := unique data.*1 in
  let levels_to_idx := dict_zip levels (range (length levels)) in
  let idx_to_levels := dict_zip (LInt <$> range (length levels)) levels in
  fill_arraylist data levels levels_to_idx idx_to_levels idx [].

(** [a - b] on arrays, with numpy's broadcasting of a one-element
    array. *)
Definition array_sub (a b : list npfloat) : outcome (list npfloat) :=
  if decide (length a = length b) then Ok (zip_with np_sub a b)
  else match a, b with
       | [x], _ => Ok (map (np_sub x) b)
       | _, [y] => Ok (map (λ x, np_sub x y) a)
       | _, _ => Raise (PyExc "ValueError" "operands could not be broadcast together")
       end.

(** ** [bootstrap_contrast] (lines 89-178) *)

Module Contrast.
Section BootstrapContrast.
Context `{Externals}.

Record contrast_result : Type := ContrastResult {
  summary : npfloat;
  statistic : string;
  bootstrap_reps : Z;
  pct_ci_low : npfloat;
  pct_ci_high : npfloat;
  bca_ci_low : npfloat;
  bca_ci_high : npfloat;
  diffarray : list npfloat;
  pct_low_high_indices : Z * Z;
  bca_low_high_indices : Z * Z;
  statistic_ref : npfloat;
  statistic_exp : npfloat;
  ref_input : list npfloat;
  test_input : list npfloat;
  pvalue_ttest : npfloat;
  pvalue_mannWhitney : npfloat
}.

Definition bootstrap_contrast (data : frame) (idx : option (list label))
    (statfunction : option statfun) (smoothboot : bool)
    (alpha : npfloat) (reps : Z) : M contrast_result :=
  let statfunction := default np_mean statfunction in
  let idx := default [LInt 0; LInt 1] idx in
  let alphas := two_sided_alphas alpha in
  let* arraylist := lift (arraylist_of data idx) in
  let* ref_array := lift (getitem arraylist 0) in
  let* exp_array := lift (getitem arraylist 1) in
  let* ref_statarray := sb_bootstrap ref_array statfunction reps smoothboot in
  let* exp_statarray := sb_bootstrap exp_array statfunction reps smoothboot in
  let* diff_array := lift (array_sub exp_statarray ref_statarray) in
  (* diff_array.sort() sorts in place: the tuple diff_array_t, built one
     line earlier, holds the same array and so sees it sorted too. *)
  let diff_array := np_sort diff_array in
  let diff_array_t := [diff_array] in
  let* stat_exp := call statfunction exp_array in
  let* stat_ref := call statfunction ref_array in
  let ostat := np_sub stat_exp stat_ref in
  let pct_low_high := pct_low_high reps alphas in
  let* bca_low_high :=
    lift (bca diff_array_t alphas diff_array statfunction ostat reps) in
  for_each (warn_index_pair reps) [pct_low_high; bca_low_high] ;;
  let* ttestresult := lift (ttest_ind ref_array exp_array) in
  let* mannwhitneyresult := lift (mannwhitneyu ref_array exp_array) in
  let* pct_lo := lift (getitem diff_array pct_low_high.1) in
  let* pct_hi := lift (getitem diff_array pct_low_high.2) in
  let* bca_lo := lift (getitem diff_array bca_low_high.1) in
  let* bca_hi := lift (getitem diff_array bca_low_high.2) in
  let* statistic_ref := call statfunction ref_array in
  let* statistic_exp := call statfunction exp_array in
  ret {| summary := ostat;
         statistic := sf_repr statfunction;
         bootstrap_reps := reps;
         pct_ci_low := pct_lo;
         pct_ci_high := pct_hi;
         bca_ci_low := bca_lo;
         bca_ci_high := bca_hi;
         diffarray := diff_array;
         pct_low_high_indices := pct_low_high;
         bca_low_high_indices := bca_low_high;
         statistic_ref := statistic_ref;
         statistic_exp := statistic_exp;
         ref_input := ref_array;
         test_input := exp_array;
         pvalue_ttest := ttestresult.2;
         pvalue_mannWhitney := np_mul mannwhitneyresult.2 (of_int 2) |}.

End BootstrapContrast.
End Contrast.

(** ** The statistical core of [pairedcontrast] (lines 991-1522)

    [pairedcontrast] is a plotting routine.  Two parts of it bear on the
    numbers it returns: the normalisation of [idx] (lines 1040-1057) and,
    for every pair of levels, the contrast of the merged frame
    [plotPoints] (lines 1243-1256 and 1357-1361).  The drawing calls in
    between are left out; messages written by [print] are not recorded. *)

Module Paired.
Section PairedContrast.
Context `{Externals}.

(** An element of [idx]: a level name or a tuple of level names. *)
Inductive idx_elem : Type :=
  | IStr (s : string)
  | ITuple (t : list string).

Definition is_str (e : idx_elem) : bool :=
  match e with IStr _ => true | ITuple _ => false end.
Definition is_tuple (e : idx_elem) : bool :=
  match e with IStr _ => false | ITuple _ => true end.
Definition len_elem (e : idx_elem) : nat :=
  match e with IStr s => String.length s | ITuple t => length t end.
Definition as_name (e : idx_elem) : list string :=
  match e with IStr s => [s] | ITuple t => t end.

(** Lines 1040-1057.  [np_unique_x] is [np.unique(data[x])], the levels
    in sorted order.  [sys.exit(0)] raises [SystemExit]; line 1056 reads
    the name [element], which is bound only inside the generator
    expressions, hence [NameError]. *)
Definition normalise_idx (np_unique_x : list string)
    (idx : option (list idx_elem)) : outcome (list idx_elem) :=
  match idx with
  | None => Ok (IStr <$> firstn 2 np_unique_x)
  | Some idx =>
      if forallb is_str idx then
        if decide (length idx ≠ 2%nat) then Raise (PyExc "SystemExit" "0")
        else Ok [ITuple (idx ≫= as_name)]
      else if forallb is_tuple idx then
        if existsb (λ e, negb (len_elem e =? 2)%nat) idx
        then Raise (PyExc "NameError" "name 'element' is not defined")
        else Ok idx
      else Ok idx
  end.

(** [bootsDelta] with the key ['ttest_pval'] added at line 1360. *)
Record paired_result : Type := PairedResult {
  bootsDelta : Boot.bootstrap_result;
  ttest_pval : npfloat
}.

(** [plotPoints['delta_y'] = plotPoints[xlevs[1]] - plotPoints[xlevs[0]]]:
    a row of [plotPoints] holds one subject's value at the first level of
    the pair (before) and at the second (after). *)
Definition delta_y (plotPoints : list (npfloat * npfloat)) : list npfloat :=
  map (λ r, np_sub r.2 r.1) plotPoints.

(** Lines 1243-1256 and 1357-1361 for one pair of levels. *)
Definition paired_delta (plotPoints : list (npfloat * npfloat))
    (statfunction : option statfun) (smoothboot : bool) (reps : Z)
  : M paired_result :=
  let statfunction := default np_mean statfunction in
  let tempseries := delta_y plotPoints in
  let* first := lift (getitem tempseries 0) in
  let test := negb (bool_decide
     (length (filter (λ v, v = first) tempseries) = length tempseries)) in
  let* boots := Boot.bootstrap (delta_y plotPoints) (Some statfunction)
                               smoothboot default_alpha reps in
  let* ttestresult := lift (ttest_1samp (delta_y plotPoints) (of_int 0)) in
  ret {| bootsDelta := boots; ttest_pval := ttestresult.2 |}.

(** The loop over [idx] (line 1099), which appends to [contrastList]. *)
Fixpoint contrast_each (plotPoints : idx_elem → list (npfloat * npfloat))
    (statfunction : option statfun) (smoothboot : bool) (reps : Z)
    (idx : list idx_elem) : M (list paired_result) :=
  match idx with
  | [] => ret []
  | xlevs :: idx =>
      let* boots := paired_delta (plotPoints xlevs) statfunction smoothboot reps in
      let* rest := contrast_each plotPoints statfunction smoothboot reps idx in
      ret (boots :: rest)
  end.

(** [pairedcontrast], reduced to what it computes: [contrastList].
    [plotPoints xlevs] is the merged frame that the drawing code builds
    for the pair of levels [xlevs]. *)
Definition pairedcontrast (plotPoints : idx_elem → list (npfloat * npfloat))
    (np_unique_x : list string) (reps : Z) (statfunction : option statfun)
    (idx : option (list idx_elem)) (smoothboot : bool)
  : M (list paired_result) :=
  let* idx := lift (normalise_idx np_unique_x idx) in
  let statfunction := Some (default np_mean statfunction) in
  contrast_each plotPoints statfunction smoothboot reps idx.

End PairedContrast.
End Paired.

(** ** The state of the program after the module has been imported *)

Definition fresh_world (draws : nat → nat) : world :=
  World draws 0 [] [] [].

Definition run {A} (c : M A) (w : world) : outcome A * world := c w.

(** The world in which the module's functions run: line 15 has been
    executed. *)
Definition imported (draws : nat → nat) : world :=
  (run filterwarnings_ignore (fresh_world draws)).2.

(** ** Stand-ins for the external functions

    Used to run the engine on concrete inputs: the BCa indices of a
    distribution with neither bias nor acceleration, which are the
    percentile indices; resampling without jitter; and tests that report
    a fixed statistic and p-value. *)
Definition bca_plain (data : list (list npfloat)) (alphas : npfloat * npfloat)
    (statarray : list npfloat) (statfunction : statfun) (ostat : npfloat)
    (reps : Z) : outcome (Z * Z) :=
  Ok (pct_low_high reps alphas).

Definition fixed_test (a b : list npfloat) : outcome (npfloat * npfloat) :=
  Ok (of_int 0, Num (Q2Qc (1 # 4))).

Definition plain_externals : Externals := {|
  bca := bca_plain;
  smooth_bootstrap := λ a func n_boot, boot_dist (Z.to_nat n_boot) a func;
  ttest_ind := fixed_test;
  mannwhitneyu := fixed_test;
  ttest_1samp := λ a _, fixed_test a a
|}.


(** *** [mannwhitneyu] of SciPy 1.7 and later, small samples

    With the defaults [alternative='two-sided'] and [method='auto'], two
    samples of at most eight numbers without ties are tested against the
    exact null distribution of U: the statistic is U of the first sample
    and the p-value is [min(1, 2 P(U >= max(U1, U2)))].  Samples with ties
    or more values go through a normal approximation, which is not
    reproduced here. *)
Fixpoint combinations (k : nat) (l : list Z) : list (list Z) :=
  match k, l with
  | O, _ => [[]]
  | S _, [] => []
  | S k', x :: l' => map (cons x) (combinations k' l') ++ combinations k l'
  end.

Definition numbers (a : list npfloat) : list Qc :=
  omap (λ x, match x with Num q => Some q | NaN => None end) a.

(** U of the first sample: the pairs in which its value is the larger. *)
Definition u_statistic (x y : list Qc) : Z :=
  Z.of_nat (length (filter (λ p, bool_decide (p.2 < p.1)%Qc) (list_prod x y))).

(** [P(U >= u)] under the null hypothesis, by enumeration of the sets of
    ranks that the first sample can take. *)
Definition mwu_sf (n1 n2 : nat) (u : Z) : Qc :=
  let ranks := map Z.of_nat (seq 1 (n1 + n2)) in
  let us := map (λ s, foldr Z.add 0 s - Z.of_nat n1 * (Z.of_nat n1 + 1) / 2)
                (combinations n1 ranks) in
  Q2Qc (Z.of_nat (length (filter (λ v, u ≤ v) us)) # Pos.of_nat (length us)).

Definition mannwhitneyu_two_sided (a b : list npfloat)
  : outcome (npfloat * npfloat) :=
  let x := numbers a in
  let y := numbers b in
  let n1 := length x in
  let n2 := length y in
  let U1 := u_statistic x y in
  let U2 := Z.of_nat n1 * Z.of_nat n2 - U1 in
  let p := (Q2Qc 2 * mwu_sf n1 n2 (Z.max U1 U2))%Qc in
  Ok (of_int U1, Num (if bool_decide (1 < p)%Qc then 1%Qc else p)).

Definition two_sided_externals : Externals := {|
  bca := bca_plain;
  smooth_bootstrap := λ a func n_boot, boot_dist (Z.to_nat n_boot) a func;
  ttest_ind := fixed_test;
  mannwhitneyu := mannwhitneyu_two_sided;
  ttest_1samp := λ a _, fixed_test a a
|}.

(** ** More of numpy and Python, for the drawing code *)

(** [x <= y] and [x == y] on doubles; false when NaN is involved. *)
Definition np_leb (x y : npfloat) : bool :=
  match x, y with
  | Num a, Num b => bool_decide (Qcle a b)
  | _, _ => false
  end.

Definition np_eqb (x y : npfloat) : bool :=
  match x, y with
  | Num a, Num b => bool_decide (a = b)
  | _, _ => false
  end.

(** The smaller and the larger of two doubles; NaN wins. *)
Definition np_minimum (x y : npfloat) : npfloat :=
  match x, y with
  | Num a, Num b => if decide (Qcle a b) then x else y
  | _, _ => NaN
  end.

Definition np_maximum (x y : npfloat) : npfloat :=
  match x, y with
  | Num a, Num b => if decide (Qcle a b) then y else x
  | _, _ => NaN
  end.

(** [a.min()], [a.max()], [np.min(a)], [np.max(a)]: [ValueError] on an
    empty array. *)
Definition amin (a : list npfloat) : outcome npfloat :=
  match a with
  | [] => Raise (PyExc "ValueError" "zero-size array to reduction operation minimum which has no identity")
  | x :: a => Ok (foldl np_minimum x a)
  end.

Definition amax (a : list npfloat) : outcome npfloat :=
  match a with
  | [] => Raise (PyExc "ValueError" "zero-size array to reduction operation maximum which has no identity")
  | x :: a => Ok (foldl np_maximum x a)
  end.

(** Sequencing of steps that may raise but touch no state. *)
Definition and_then {A B} (o : outcome A) (k : A → outcome B) : outcome B :=
  match o with
  | Ok a => k a
  | Raise e => Raise e
  end.

Notation "'let?' x ':=' o 'in' k" := (and_then o (λ x, k))
  (at level 10, x name, o at level 100, k at level 200).

(** [np.where(cond)[0][0]]: the first position where [p] holds, counted
    from [k]. *)
Fixpoint where_first (p : npfloat → bool) (a : list npfloat) (k : Z)
  : outcome Z :=
  match a with
  | [] => Raise (PyExc "IndexError" "index 0 is out of bounds for axis 0 with size 0")
  | x :: a => if p x then Ok k else where_first p a (k + 1)
  end.

(** [str(v)] for a level. *)
Definition py_str (l : label) : string :=
  match l with
  | LStr s => s
  | LInt z => pretty z
  end.

(** [a + sep + b], which is a [TypeError] unless both are strings. *)
Definition str_join (a : label) (sep : string) (b : label) : outcome string :=
  match a, b with
  | LStr x, LStr y => Ok (x +:+ sep +:+ y)
  | _, _ => Raise (PyExc "TypeError" "unsupported operand type(s) for +")
  end.

Definition zero : npfloat := of_int 0.
Definition eleven_tenths : npfloat := Num (Q2Qc (11 # 10)).
Definition minus_quarter : npfloat := Num (Q2Qc (-1 # 4)).

(** ** Axis limits of the bootstrap panels *)

(** [plotbootstrap], lines 233-238: the limits passed to [ax.set_ylim],
    if it is called.  [array] is [list(bslist.items())[7][1]], the
    eighth entry of the result record: ['stat_array'] or
    ['diffarray']. *)
Definition plotbootstrap_ylim (array : list npfloat)
  : outcome (option (npfloat * npfloat)) :=
  let? lo := amin array in
  if np_ltb lo zero && np_ltb zero lo then
    let? hi := amax array in Ok (Some (lo, hi))
  else if np_leb zero lo then
    let? hi := amax array in Ok (Some (zero, np_mul hi eleven_tenths))
  else
    let? hi := amax array in
    if np_leb hi zero then Ok (Some (np_mul lo eleven_tenths, zero))
    else Ok None.

(** [plotbootstrap_hubspoke], lines 287-293; [arrays] holds the
    ['diffarray'] of every contrast of the panel, all of one length. *)
Definition hubspoke_ylim (arrays : list (list npfloat))
  : outcome (option (npfloat * npfloat)) :=
  let ylims := concat arrays in
  let? lo := amin ylims in
  let? hi := amax ylims in
  if np_ltb lo zero && np_ltb hi zero then
    Ok (Some (np_mul eleven_tenths lo, zero))
  else if np_ltb zero lo then
    Ok (Some (minus_quarter, np_mul eleven_tenths hi))
  else if np_ltb lo zero && np_ltb zero hi then
    Ok (Some (np_mul eleven_tenths lo, np_mul eleven_tenths hi))
  else Ok None.

(** [contrastplot], lines 647-655: the limits of the floating right
    axis.  [rightmin] and [rightmax] are assigned in two of three cases
    only; [bound] is what an earlier panel left in them. *)
Definition right_ylim (bound : option (npfloat * npfloat))
    (left_ylim : npfloat * npfloat) (summary : npfloat)
  : outcome (npfloat * npfloat) :=
  let bound :=
    if np_ltb zero summary then
      Some (np_sub left_ylim.1 summary, np_sub left_ylim.2 summary)
    else if np_ltb summary zero then
      Some (np_add left_ylim.1 summary, np_add left_ylim.2 summary)
    else bound in
  match bound with
  | Some lims => Ok lims
  | None => Raise (PyExc "UnboundLocalError"
                         "local variable 'rightmin' referenced before assignment")
  end.

(** The ticks of a floating contrast axis ([contrastplot] lines 878-910,
    [pairedcontrast] lines 1372-1414 and 1454-1470): [array] is the
    distribution, [meandiff] the point estimate, [newticks1] the ticks
    that matplotlib proposes. *)
Definition float_axis_ticks (array : list npfloat) (meandiff : npfloat)
    (newticks1 : list npfloat) : outcome (list npfloat) :=
  let? lower := amin array in
  let? upper := amax array in
  let lower := if np_ltb zero lower then zero else lower in
  let upper := if np_ltb upper zero then zero else upper in
  let newticks2 := filter (λ b, np_leb lower b && np_leb b upper) newticks1 in
  let? top := amax newticks2 in
  let? newticks2 :=
    if np_ltb top meandiff then
      let? ind := where_first (np_eqb top) newticks1 0 in
      let? tick := getitem newticks1 (ind + 1) in
      Ok (newticks2 ++ [tick])
    else
      let? bottom := amin newticks2 in
      if np_ltb meandiff bottom then
        let? ind := where_first (np_eqb bottom) newticks1 0 in
        let? tick := getitem newticks1 (ind - 1) in
        Ok (newticks2 ++ [tick])
      else Ok newticks2 in
  Ok (np_sort newticks2).

(** ** [swarmsummary] and [contrastplot], reduced to what they compute

    Both are plotting routines; the drawing calls are left out.  What is
    kept of [swarmsummary] (lines 295-357) is [bslist], and of
    [contrastplot] (lines 359-989) the removal of rows with missing
    values, the reading of [idx] and [contrastList] with its names. *)

Module Plots.
Section PlotsEngine.
Context `{Externals}.

(** [d[key] = value] on an [OrderedDict]: a known key keeps its place. *)
Fixpoint odict_set {V} (d : list (label * V)) (key : label) (value : V)
  : list (label * V) :=
  match d with
  | [] => [(key, value)]
  | (k, v) :: d =>
      if decide (k = key) then (k, value) :: d
      else (k, v) :: odict_set d key value
  end.

(** The loop of lines 318-320. *)
Fixpoint bslist_loop (data : frame) (statfunction : statfun)
    (smoothboot : bool) (levs : list label)
    (bslist : list (label * Boot.bootstrap_result))
  : M (list (label * Boot.bootstrap_result)) :=
  match levs with
  | [] => ret bslist
  | lev :: levs =>
      let* boots := Boot.bootstrap (rows_of data lev) (Some statfunction)
                      smoothboot default_alpha default_reps in
      bslist_loop data statfunction smoothboot levs (odict_set bslist lev boots)
  end.

Definition swarmsummary (data : frame) (idx : option (list label))
    (statfunction : option statfun) (smoothboot : bool)
  : M (list (label * Boot.bootstrap_result)) :=
  let statfunction := default np_mean statfunction in
  let levs := match idx with
              | None => unique data.*1
              | Some idx => idx
              end in
  bslist_loop data statfunction smoothboot levs [].

(** An element of the [idx] of [contrastplot]: a level name, or a tuple
    of levels. *)
Inductive selector : Type :=
  | SName (s : string)
  | SGroup (t : list label).

Definition is_name (e : selector) : bool :=
  match e with SName _ => true | SGroup _ => false end.
Definition is_group (e : selector) : bool :=
  match e with SName _ => false | SGroup _ => true end.
Definition group_of (e : selector) : list label :=
  match e with SName s => [LStr s] | SGroup t => t end.

(** [data.dropna()] on the two columns kept here. *)
Definition dropna (data : frame) : frame := filter (λ r, r.2 ≠ NaN) data.

(** What lines 453-477 settle. *)
Record layout : Type := Layout {
  levs_tuple : list (list label);
  widthratio : list Z;
  floatContrast : bool
}.

(** Lines 453-477.  When [idx] mixes names and tuples no branch assigns
    [levs_tuple], and line 479 reads it. *)
Definition read_idx (data : frame) (idx : option (list selector))
    (floatContrast : bool) : outcome layout :=
  match idx with
  | None =>
      let levels := unique data.*1 in
      Ok (Layout [levels] [1]
            (if decide (2 < length levels)%nat then false else floatContrast))
  | Some idx =>
      if forallb is_name idx then
        Ok (Layout [idx ≫= group_of] [1]
              (if decide (2 < length idx)%nat then false else floatContrast))
      else if forallb is_group idx then
        Ok (Layout (group_of <$> idx)
              ((λ e, Z.of_nat (length (group_of e))) <$> idx)
              (if existsb (λ e, bool_decide (2 < length (group_of e))%nat) idx
                  && floatContrast
               then false else floatContrast))
      else Raise (PyExc "UnboundLocalError"
                        "local variable 'levs_tuple' referenced before assignment")
  end.

(** The hub-and-spoke loop of lines 759-770. *)
Fixpoint spokes (data : frame) (statfunction : statfun) (smoothboot : bool)
    (reps : Z) (hub : label) (others : list label)
  : M (list (string * Contrast.contrast_result)) :=
  match others with
  | [] => ret []
  | lev :: others =>
      let* tempbs := Contrast.bootstrap_contrast data (Some [hub; lev])
                       (Some statfunction) smoothboot default_alpha reps in
      let* name := lift (str_join lev " vs. " hub) in
      let* rest := spokes data statfunction smoothboot reps hub others in
      ret ((name, tempbs) :: rest)
  end.

(** The contrasts of one group of levels (lines 545-556 and 752-770). *)
Definition group_contrasts (data : frame) (statfunction : statfun)
    (smoothboot : bool) (reps : Z) (levs : list label)
  : M (list (string * Contrast.contrast_result)) :=
  match levs with
  | [a; b] =>
      let* tempbs := Contrast.bootstrap_contrast data (Some levs)
                       (Some statfunction) smoothboot default_alpha reps in
      ret [(py_str b +:+ " v.s " +:+ py_str a, tempbs)]
  | hub :: (_ :: _ :: _) as others =>
      spokes data statfunction smoothboot reps hub others
  | _ => ret []
  end.

Fixpoint contrast_groups (data : frame) (statfunction : statfun)
    (smoothboot : bool) (reps : Z) (groups : list (list label))
  : M (list (string * Contrast.contrast_result)) :=
  match groups with
  | [] => ret []
  | levs :: groups =>
      let* here := group_contrasts data statfunction smoothboot reps levs in
      let* rest := contrast_groups data statfunction smoothboot reps groups in
      ret (here ++ rest)
  end.

(** [contrastList] with its column names. *)
Definition contrastplot (data : frame) (idx : option (list selector))
    (statfunction : option statfun) (reps : Z) (floatContrast : bool)
    (smoothboot : bool) : M (list (string * Contrast.contrast_result)) :=
  let data := dropna data in
  let statfunction := default np_mean statfunction in
  let* lay := lift (read_idx data idx floatContrast) in
  contrast_groups data statfunction smoothboot reps (levs_tuple lay).

End PlotsEngine.
End Plots.

(** ** Vocabulary of the theorems *)

(** The state of the [warnings] module. *)
Definition warnings_of (w : world) :
    list wfilter * list (wcategory * string) * list (wcategory * string) :=
  (filters w, onceregistry w, shown w).

(** Consuming [m] random draws. *)
Definition advance (w : world) (m : nat) : world :=
  World (draws w) (cursor w + m) (filters w) (onceregistry w) (shown w).

(** The message, if any, that lines 71-74 pass to [warnings.warn] for one
    pair of indices. *)
Definition stability_message (reps : Z) (ind : Z * Z) : option string :=
  if extremal reps ind then Some extremal_msg
  else if marginal reps ind then Some marginal_msg
  else None.

Definition issued (reps : Z) (inds : list (Z * Z)) : list (wcategory * string) :=
  (λ m, (UserWarning, m)) <$> omap (stability_message reps) inds.

(** What a selector stands for: itself when it is a level, else the
    level at that position when it is a position, else nothing. *)
Definition resolve (levels : list label) (i : label) : option label :=
  if decide (i ∈ levels) then Some i
  else match i with
       | LInt z => if decide (0 ≤ z < Z.of_nat (length levels))
                   then levels !! Z.to_nat z else None
       | LStr _ => None
       end.

(** [n] is [x] rounded to the nearest integer, a half to the even one. *)
Definition nearest_even (x : Qc) (n : Z) : Prop :=
  (Qcabs (x - Qc_of_Z n) ≤ Q2Qc (1 # 2))%Qc
  ∧ (Qcabs (x - Qc_of_Z n) = Q2Qc (1 # 2) → Z.even n = true).

(** [y] is the double nearest to [x], a tie going to the even
    significand: with [2^e <= |x| < 2^(e+1)] and [ulp = 2^max(e-52, -1074)],
    [y] is the multiple [m * ulp] with [m] nearest to [x / ulp]. *)
Definition binary64_of (x y : Qc) : Prop :=
  (x = 0%Qc ∧ y = 0%Qc)
  ∨ ∃ e m, (Q2Qc (2 ^ e) ≤ Qcabs x)%Qc ∧ (Qcabs x < Q2Qc (2 ^ (e + 1)))%Qc
           ∧ let ulp := Q2Qc (2 ^ Z.max (e - 52) (-1074)) in
             nearest_even (x / ulp) m ∧ y = (Qc_of_Z m * ulp)%Qc.

(** The order in which [ndarray.sort] leaves an array: the numbers
    non-decreasing, every NaN after every number. *)
Definition ascending (l : list npfloat) : Prop :=
  ∀ i j x y, (i ≤ j)%nat → l !! i = Some x → l !! j = Some y →
    match x, y with
    | Num a, Num b => (a ≤ b)%Qc
    | NaN, Num _ => False
    | _, NaN => True
    end.

(** [s] is the resample of [a] that uses the draws from position
    [start] on: it has the length of [a], and its entry [i] is the entry
    of [a] at the index drawn for it. *)
Definition is_resample (a : list npfloat) (draws : nat → nat) (start : nat)
    (s : list npfloat) : Prop :=
  length s = length a
  ∧ ∀ i, (i < length a)%nat →
      s !! i = a !! (draws (start + i)%nat mod length a)%nat.

(** [l] holds the statistics of successive resamples of [a], the first
    of which uses the draws from position [start] on. *)
Definition are_replicates (func : statfun) (a : list npfloat)
    (draws : nat → nat) (start : nat) (l : list npfloat) : Prop :=
  ∀ j, (j < length l)%nat →
    ∃ s, is_resample a draws (start + j * length a)%nat s
         ∧ l !! j = Some (func s).

(** A tick [t] lies within the drawn range of a distribution [qs]: between
    the smallest and the largest of its values and zero. *)
Definition in_drawn_range (qs : list Qc) (t : Qc) : Prop :=
  (∃ x, x ∈ 0%Qc :: qs ∧ (x ≤ t)%Qc) ∧ (∃ y, y ∈ 0%Qc :: qs ∧ (t ≤ y)%Qc).

(** What holds of every column of the [bslist] of [swarmsummary]: the
    statistic of the level's rows, [3000] replicates, sorted. *)
Definition column_of (data : frame) (func : statfun)
    (kv : label * Boot.bootstrap_result) : Prop :=
  Boot.summary kv.2 = func (rows_of data kv.1)
  ∧ Boot.bootstrap_reps kv.2 = default_reps
  ∧ length (Boot.stat_array kv.2) = Z.to_nat default_reps
  ∧ Sorted np_le (Boot.stat_array kv.2).

(** What holds of a contrast of the level [exp] against the level [ref]:
    the two groups are the rows of the two levels, the point estimate is
    the difference of their statistics, and the distribution has [reps]
    sorted values. *)
Definition contrast_of (data : frame) (func : statfun) (reps : Z)
    (ref exp : label) (r : Contrast.contrast_result) : Prop :=
  Contrast.ref_input r = rows_of data ref
  ∧ Contrast.test_input r = rows_of data exp
  ∧ Contrast.summary r =
      np_sub (func (rows_of data exp)) (func (rows_of data ref))
  ∧ Contrast.bootstrap_reps r = reps
  ∧ length (Contrast.diffarray r) = Z.to_nat reps
  ∧ Sorted np_le (Contrast.diffarray r).

Section Assumptions.
Context `{Externals}.

(** What the theorems ask of the functions outside the file: the
    smoothed resampler returns [n_boot] values for a non-empty array and
    leaves the [warnings] module alone; [bca] returns two indices into
    the distribution. *)
Definition resampler_quiet : Prop :=
  ∀ a func n_boot w, a ≠ [] →
    ∃ l w', smooth_bootstrap a func n_boot w = (Ok l, w')
            ∧ length l = Z.to_nat n_boot ∧ warnings_of w' = warnings_of w.

Definition bca_in_range : Prop :=
  ∀ data (alpha : Qc) statarray func ostat reps,
    (0 < alpha)%Qc → (alpha < 1)%Qc →
    1 ≤ reps → length statarray = Z.to_nat reps →
    ∃ b, bca data (two_sided_alphas (Num alpha)) statarray func ostat reps = Ok b
         ∧ 0 ≤ b.1 < reps ∧ 0 ≤ b.2 < reps.

(** The two tests return for the groups of two levels. *)
Definition tests_return (data : frame) (ref exp : label) : Prop :=
  ∃ t m, ttest_ind (rows_of data ref) (rows_of data exp) = Ok t
         ∧ mannwhitneyu (rows_of data ref) (rows_of data exp) = Ok m.

End Assumptions.

(** ** Inputs for the examples *)

Definition one_twentieth : Qc := Q2Qc (5 # 100).

(** The draws 0, 1, 2, ... *)
Definition counting (k : nat) : nat := k.

(** The draws 0, 0, 0, 1, 1, 1, 2, 2, 2, ... *)
Definition thirds (k : nat) : nat := (k / 3)%nat.

(** The first four draws are 0, the later ones 1. *)
Definition early_zero (k : nat) : nat := if (k <? 4)%nat then 0%nat else 1%nat.

Definition three_values : list npfloat := [of_int 1; of_int 2; of_int 3].

Definition before_after : list (npfloat * npfloat) :=
  [(of_int 1, of_int 3); (of_int 5, of_int 9)].

Definition two_groups : frame :=
  [(LStr "a", of_int 1); (LStr "b", of_int 5);
   (LStr "a", of_int 3); (LStr "b", of_int 9)].

(** Two groups whose values interleave: [a = [1, 4]], [b = [2, 3]]. *)
Definition interleaved : frame :=
  [(LStr "a", of_int 1); (LStr "b", of_int 2);
   (LStr "b", of_int 3); (LStr "a", of_int 4)].

Definition three_groups : frame := two_groups ++ [(LStr "c", of_int 7)].

Definition spread_and_flat : frame :=
  [(LStr "a", of_int 0); (LStr "a", of_int 1);
   (LStr "b", of_int 0); (LStr "b", of_int 0)].

Definition integer_levels : frame := [(LInt 1, of_int 10); (LInt 0, of_int 20)].

(** Three levels that are integers. *)
Definition three_integer_levels : frame :=
  integer_levels ++ [(LInt 2, of_int 30)].

(** A state in which warnings are turned into errors. *)
Definition warnings_as_errors : world :=
  World counting 0 [WFilter Error Warning] [] [].

(** Values of a distribution, and ticks proposed for its axis. *)
Definition up_to_four : list Qc := [Qc_of_Z 4].
Definition even_ticks : list Qc := [Qc_of_Z 0; Qc_of_Z 2; Qc_of_Z 4; Qc_of_Z 6].

Definition quarter : npfloat * npfloat := (of_int 0, Num (Q2Qc (1 # 4))).

(** [two_groups] with its rows in another order. *)
Definition two_groups_reordered : frame :=
  [(LStr "b", of_int 5); (LStr "a", of_int 1);
   (LStr "b", of_int 9); (LStr "a", of_int 3)].

(** The groups [A = [1,1,1,1]] and [B = [2,2,2,2]]. *)
Definition ones : list npfloat := replicate 4 (of_int 1).
Definition twos : list npfloat := replicate 4 (of_int 2).
Definition ones_and_twos : frame :=
  ((λ y, (LStr "A", y)) <$> ones) ++ ((λ y, (LStr "B", y)) <$> twos).

(** * Properties *)

(** ** Order and rounding *)

Global Instance np_le_total : Total np_le.
Proof. intros [a|] [b|]; simpl; auto. apply Qc_le_total. Qed.

Global Instance np_le_trans : Transitive np_le.
Proof.
  intros [a|] [b|] [c|]; simpl; auto; try tauto. apply Qcle_trans.
Qed.

Lemma np_sort_Sorted a : Sorted np_le (np_sort a).
Proof. apply Sorted_merge_sort; apply _. Qed.

Lemma np_sort_Permutation a : np_sort a ≡ₚ a.
Proof. apply merge_sort_Permutation. Qed.

Lemma np_sort_length a : length (np_sort a) = length a.
Proof. by rewrite np_sort_Permutation. Qed.

Lemma astype_int_of_int n : astype_int (of_int n) = n.
Proof. unfold astype_int, of_int. simpl. apply Z.quot_1_r. Qed.

Lemma rint_floor (x : Qc) : Qfloor x ≤ rint x ≤ Qfloor x + 1.
Proof.
  unfold rint. destruct (_ ?= _)%Qc; [destruct (Z.even _)| |]; lia.
Qed.

Lemma rint_of_Z n : rint (Qc_of_Z n) = n.
Proof.
  unfold rint. change (this (Qc_of_Z n)) with (inject_Z n). rewrite Qfloor_Z.
  replace (Qc_of_Z n - Qc_of_Z n)%Qc with (Q2Qc 0) by (symmetry; apply Qcplus_opp_r).
  reflexivity.
Qed.

Lemma rint_mono (x y : Qc) : (x ≤ y)%Qc → rint x ≤ rint y.
Proof.
  intros Hxy.
  assert (Hf : Qfloor x ≤ Qfloor y) by (apply Qfloor_resp_le, Hxy).
  destruct (decide (Qfloor x = Qfloor y)) as [Heq|Hne].
  - unfold rint. rewrite <- Heq. set (f := Qfloor x).
    assert (Hd : (x - Qc_of_Z f ≤ y - Qc_of_Z f)%Qc)
      by (by apply Qcplus_le_mono_r).
    destruct (x - Qc_of_Z f ?= Q2Qc (1 # 2))%Qc eqn:Cx;
      destruct (y - Qc_of_Z f ?= Q2Qc (1 # 2))%Qc eqn:Cy;
      try (destruct (Z.even f); lia); try lia; exfalso.
    + apply Qceq_alt in Cx. apply Qclt_alt in Cy. rewrite <- Cx in Cy.
      by apply Qcle_not_lt in Hd.
    + apply Qcgt_alt in Cx. apply Qceq_alt in Cy. rewrite Cy in Hd.
      by apply Qcle_not_lt in Hd.
    + apply Qcgt_alt in Cx. apply Qclt_alt in Cy.
      apply (Qcle_not_lt _ _ Hd). by eapply Qclt_trans.
  - pose proof (rint_floor x). pose proof (rint_floor y). lia.
Qed.

Lemma Qc_of_Z_0 : Qc_of_Z 0 = 0%Qc.
Proof. by apply Qc_is_canon. Qed.

Lemma Qc_of_Z_1 : Qc_of_Z 1 = 1%Qc.
Proof. by apply Qc_is_canon. Qed.

Lemma Qc_of_Z_nonneg n : 0 ≤ n → (Qc_of_Z 0 ≤ Qc_of_Z n)%Qc.
Proof. intros Hn. unfold Qcle. simpl. by rewrite <- Zle_Qle. Qed.

(** ** Arithmetic on [Qc] through [Q] *)

Lemma Qc_eq_Qeq (x y : Qc) : x = y → (this x == this y)%Q.
Proof. by intros ->. Qed.

Ltac qc_unfold :=
  repeat match goal with
  | H : (_ ≤ _)%Qc |- _ => unfold Qcle in H
  | H : (_ < _)%Qc |- _ => unfold Qclt in H
  | H : @eq Qc _ _ |- _ => apply Qc_eq_Qeq in H
  | H : ¬ @eq Qc _ _ |- _ =>
      apply (λ H' E, H' (Qc_is_canon _ _ E)) in H
  end;
  try apply Qc_is_canon;
  unfold Qcle, Qclt, Qcdiv, Qcinv, Qcminus, Qcplus, Qcmult, Qcopp, Qcabs, pow2, Q2Qc in *;
  simpl this in *;
  rewrite ?Qred_correct in *;
  change (inject_Z 0) with 0%Q in *;
  change (inject_Z 1) with 1%Q in *;
  change (inject_Z 2) with 2%Q in *.

Ltac qc_lra := qc_unfold; lra.

(** ** Powers of two *)

Lemma pow2_pos k : (0 < pow2 k)%Qc.
Proof. qc_unfold. by apply Qpower_0_lt. Qed.

Lemma pow2_add a b : pow2 (a + b) = (pow2 a * pow2 b)%Qc.
Proof. qc_unfold. by apply Qpower_plus. Qed.

Lemma pow2_le a b : a ≤ b → (pow2 a ≤ pow2 b)%Qc.
Proof. intros. qc_unfold. by apply Qpower_le_compat_l. Qed.

Lemma pow2_lt a b : a < b → (pow2 a < pow2 b)%Qc.
Proof. intros. qc_unfold. by apply Qpower_lt_compat_l. Qed.

Lemma pow2_Z k : 0 ≤ k → pow2 k = Qc_of_Z (2 ^ k).
Proof. intros. qc_unfold. by rewrite (Zpower_Qpower 2 k). Qed.

Lemma pow2_le_inv a b : (pow2 a < pow2 b)%Qc → a < b.
Proof.
  intros Hlt. destruct (Z_lt_le_dec a b) as [|Hle]; [done|].
  apply pow2_le in Hle. exfalso. by apply (Qcle_not_lt _ _ Hle).
Qed.

(** ** The binade of a number *)

Lemma Qabs_Qmake n d : Qabs (n # d) = (Z.abs n # d).
Proof. reflexivity. Qed.

Lemma binade_bounds (n : Z) (d : positive) :
  n ≠ 0 →
  let e := Z.log2 (Z.abs n) - Z.log2 (Zpos d) in
  (2 ^ (e - 1) <= Z.abs n # d)%Q ∧ (Z.abs n # d < 2 ^ (e + 1))%Q.
Proof.
  intros Hn e.
  pose proof (Z.log2_spec (Z.abs n) ltac:(lia)) as [Ha1 Ha2].
  pose proof (Z.log2_spec (Zpos d) ltac:(lia)) as [Hb1 Hb2].
  pose proof (Z.log2_nonneg (Z.abs n)) as Ha0.
  pose proof (Z.log2_nonneg (Zpos d)) as Hb0.
  set (a := Z.log2 (Z.abs n)) in *. set (b := Z.log2 (Zpos d)) in *.
  assert (H2 : ¬ (2 == 0)%Q) by done.
  split.
  - replace (e - 1) with (a - Z.succ b) by (unfold e; lia).
    rewrite (Qpower_minus 2 a (Z.succ b) H2).
    rewrite <- (Zpower_Qpower 2 a), <- (Zpower_Qpower 2 (Z.succ b)) by lia.
    apply Qle_shift_div_r.
    + change 0%Q with (inject_Z 0). rewrite <- Zlt_Qlt. lia.
    + unfold Qle, Qmult, inject_Z. simpl. nia.
  - replace (e + 1) with (Z.succ a - b) by (unfold e; lia).
    rewrite (Qpower_minus 2 (Z.succ a) b H2).
    rewrite <- (Zpower_Qpower 2 (Z.succ a)), <- (Zpower_Qpower 2 b) by lia.
    apply Qlt_shift_div_l.
    + change 0%Q with (inject_Z 0). rewrite <- Zlt_Qlt. lia.
    + unfold Qlt, Qmult, inject_Z. simpl. nia.
Qed.

Lemma Qcabs_this (x : Qc) : (this (Qcabs x) == Z.abs (Qnum x) # Qden x)%Q.
Proof.
  by destruct x as [[n d] ?].
Qed.

Lemma Qnum_nonzero (x : Qc) : x ≠ 0%Qc → Qnum x ≠ 0.
Proof.
  intros Hx Hn. apply Hx, Qc_is_canon. destruct x as [[n d] ?]. simpl in *.
  subst n. reflexivity.
Qed.

Lemma binade_spec (x : Qc) :
  x ≠ 0%Qc →
  (pow2 (binade x) ≤ Qcabs x)%Qc ∧ (Qcabs x < pow2 (binade x + 1))%Qc.
Proof.
  intros Hx. pose proof (binade_bounds (Qnum x) (Qden x) (Qnum_nonzero x Hx)) as [Hlo Hhi].
  cbv zeta in Hlo, Hhi. unfold binade.
  set (e := Z.log2 (Z.abs (Qnum x)) - Z.log2 (Z.pos (Qden x))) in *.
  rewrite <- Qcabs_this in Hlo, Hhi.
  destruct (decide _) as [Hle|Hnle].
  - split; [done|]. unfold Qclt, pow2, Q2Qc. simpl this. by rewrite Qred_correct.
  - split.
    + unfold Qcle, pow2, Q2Qc. simpl this. by rewrite Qred_correct.
    + replace (e - 1 + 1) with e by lia. by apply Qcnot_le_lt.
Qed.

Lemma binade_unique (x : Qc) e :
  (pow2 e ≤ Qcabs x)%Qc → (Qcabs x < pow2 (e + 1))%Qc → binade x = e.
Proof.
  intros Hlo Hhi.
  assert (Hx : x ≠ 0%Qc).
  { intros ->. pose proof (pow2_pos e) as Hp.
    apply (Qcle_not_lt _ _ Hlo). done. }
  destruct (binade_spec x Hx) as [Hlo' Hhi'].
  assert (binade x < e + 1)
    by (apply pow2_le_inv; eapply Qcle_lt_trans; done).
  assert (e < binade x + 1)
    by (apply pow2_le_inv; eapply Qcle_lt_trans; done).
  lia.
Qed.

Lemma binade_mono (x y : Qc) :
  x ≠ 0%Qc → (Qcabs x ≤ Qcabs y)%Qc → binade x ≤ binade y.
Proof.
  intros Hx Hxy.
  assert (Hy : y ≠ 0%Qc).
  { intros ->. apply Hx. apply Qcabs_null. apply Qcle_antisym; [done|apply Qcabs_nonneg]. }
  destruct (binade_spec x Hx) as [Hlo _]. destruct (binade_spec y Hy) as [_ Hhi].
  assert (binade x < binade y + 1); [|lia].
  apply pow2_le_inv. eapply Qcle_lt_trans; [|done]. by eapply Qcle_trans.
Qed.

(** ** Rounding to the nearest double *)

Lemma Qcdiv_le_mono (c x y : Qc) : (0 < c)%Qc → (x ≤ y)%Qc → (x / c ≤ y / c)%Qc.
Proof.
  intros Hc Hxy. qc_unfold. apply Qmult_le_compat_r; [done|].
  apply Qinv_le_0_compat. lra.
Qed.

Lemma Qcmult_le_mono_pos (c x y : Qc) : (0 < c)%Qc → (x ≤ y)%Qc → (x * c ≤ y * c)%Qc.
Proof. intros Hc Hxy. qc_unfold. apply Qmult_le_compat_r; lra. Qed.

Lemma Qcdiv_mult_cancel (c m : Qc) : (0 < c)%Qc → (m * c / c)%Qc = m.
Proof. intros Hc. field. intros ->. by apply (Qclt_not_le _ _ Hc). Qed.

Lemma Qcmult_div_cancel (c x : Qc) : (0 < c)%Qc → (x / c * c)%Qc = x.
Proof. intros Hc. field. intros ->. by apply (Qclt_not_le _ _ Hc). Qed.

Lemma Qc_of_Z_le m n : m ≤ n → (Qc_of_Z m ≤ Qc_of_Z n)%Qc.
Proof. intros. unfold Qcle. simpl. by rewrite <- Zle_Qle. Qed.

Lemma fl_nonzero (x : Qc) :
  x ≠ 0%Qc →
  fl x = (Qc_of_Z (rint (x / pow2 (ulp_exponent x))) * pow2 (ulp_exponent x))%Qc.
Proof. intros Hx. unfold fl. by destruct (decide _). Qed.

Lemma fl_ge_multiple (x : Qc) m :
  x ≠ 0%Qc → (Qc_of_Z m * pow2 (ulp_exponent x) ≤ x)%Qc →
  (Qc_of_Z m * pow2 (ulp_exponent x) ≤ fl x)%Qc.
Proof.
  intros Hx Hm. rewrite (fl_nonzero x Hx). set (c := pow2 (ulp_exponent x)) in *.
  assert (Hc : (0 < c)%Qc) by apply pow2_pos.
  apply Qcmult_le_mono_pos; [done|]. apply Qc_of_Z_le.
  rewrite <- (rint_of_Z m). apply rint_mono.
  rewrite <- (Qcdiv_mult_cancel c (Qc_of_Z m) Hc). by apply Qcdiv_le_mono.
Qed.

Lemma fl_le_multiple (x : Qc) m :
  x ≠ 0%Qc → (x ≤ Qc_of_Z m * pow2 (ulp_exponent x))%Qc →
  (fl x ≤ Qc_of_Z m * pow2 (ulp_exponent x))%Qc.
Proof.
  intros Hx Hm. rewrite (fl_nonzero x Hx). set (c := pow2 (ulp_exponent x)) in *.
  assert (Hc : (0 < c)%Qc) by apply pow2_pos.
  apply Qcmult_le_mono_pos; [done|]. apply Qc_of_Z_le.
  rewrite <- (rint_of_Z m). apply rint_mono.
  rewrite <- (Qcdiv_mult_cancel c (Qc_of_Z m) Hc). by apply Qcdiv_le_mono.
Qed.

Lemma fl_exact (x : Qc) m :
  x = (Qc_of_Z m * pow2 (ulp_exponent x))%Qc → fl x = x.
Proof.
  intros Hm. destruct (decide (x = 0%Qc)) as [->|Hx]; [done|].
  apply Qcle_antisym.
  - rewrite Hm at 2. apply fl_le_multiple; [done|]. rewrite <- Hm. apply Qcle_refl.
  - rewrite Hm at 1. apply fl_ge_multiple; [done|]. rewrite <- Hm. apply Qcle_refl.
Qed.

Lemma pow2_multiple j k : k ≤ j → pow2 j = (Qc_of_Z (2 ^ (j - k)) * pow2 k)%Qc.
Proof.
  intros Hkj. rewrite <- pow2_Z by lia. rewrite <- pow2_add. f_equal. lia.
Qed.

Lemma fl_nonneg (x : Qc) : (0 ≤ x)%Qc → (0 ≤ fl x)%Qc.
Proof.
  intros H0. destruct (decide (x = 0%Qc)) as [->|Hx]; [done|].
  assert (E : (Qc_of_Z 0 * pow2 (ulp_exponent x))%Qc = 0%Qc)
    by (rewrite Qc_of_Z_0; ring).
  rewrite <- E. apply fl_ge_multiple; [done|]. by rewrite E.
Qed.

Lemma Qcabs_nonneg' (x : Qc) : (0 ≤ x)%Qc → Qcabs x = x.
Proof. apply Qcabs_pos. Qed.

Lemma fl_mono (x y : Qc) : (0 ≤ x)%Qc → (x ≤ y)%Qc → (fl x ≤ fl y)%Qc.
Proof.
  intros H0 Hxy.
  assert (H0y : (0 ≤ y)%Qc) by (by eapply Qcle_trans).
  destruct (decide (x = 0%Qc)) as [->|Hx]; [by apply fl_nonneg|].
  assert (Hy : y ≠ 0%Qc).
  { intros ->. apply Hx. by apply Qcle_antisym. }
  assert (He : binade x ≤ binade y).
  { apply binade_mono; [done|]. by rewrite !Qcabs_nonneg'. }
  destruct (binade_spec x Hx) as [Hxlo Hxhi].
  destruct (binade_spec y Hy) as [Hylo Hyhi].
  rewrite Qcabs_nonneg' in Hxlo, Hxhi, Hylo, Hyhi by done.
  destruct (decide (ulp_exponent x = ulp_exponent y)) as [Hk|Hk].
  - rewrite (fl_nonzero x Hx), (fl_nonzero y Hy), Hk.
    apply Qcmult_le_mono_pos; [apply pow2_pos|]. apply Qc_of_Z_le, rint_mono.
    apply Qcdiv_le_mono; [apply pow2_pos|done].
  - unfold ulp_exponent in Hk.
    set (j := Z.max (binade x + 1) (ulp_exponent x)).
    apply Qcle_trans with (pow2 j).
    + rewrite (pow2_multiple j (ulp_exponent x)) by (unfold j; lia).
      apply fl_le_multiple; [done|].
      rewrite <- pow2_multiple by (unfold j; lia).
      apply Qclt_le_weak. eapply Qclt_le_trans; [done|]. apply pow2_le. unfold j. lia.
    + apply Qcle_trans with (pow2 (binade y)).
      * apply pow2_le. unfold j, ulp_exponent. lia.
      * rewrite (pow2_multiple (binade y) (ulp_exponent y)) by (unfold ulp_exponent; lia).
        apply fl_ge_multiple; [done|].
        rewrite <- pow2_multiple by (unfold ulp_exponent; lia). done.
Qed.

Lemma Qc_of_Z_lt m n : m < n → (Qc_of_Z m < Qc_of_Z n)%Qc.
Proof. intros. unfold Qclt. simpl. by rewrite <- Zlt_Qlt. Qed.

Lemma Qc_of_Z_mult m n : Qc_of_Z (m * n) = (Qc_of_Z m * Qc_of_Z n)%Qc.
Proof. qc_unfold. by rewrite inject_Z_mult. Qed.

Lemma binade_integer n : 0 < n → binade (Qc_of_Z n) = Z.log2 n.
Proof.
  intros Hn. pose proof (Z.log2_spec n Hn) as [Hlo Hhi].
  pose proof (Z.log2_nonneg n).
  assert (Habs : Qcabs (Qc_of_Z n) = Qc_of_Z n).
  { apply Qcabs_pos, (Qc_of_Z_le 0). lia. }
  apply binade_unique; rewrite Habs, pow2_Z by lia.
  - by apply Qc_of_Z_le.
  - apply Qc_of_Z_lt. by rewrite <- Z.add_1_r in Hhi.
Qed.

(** Integers up to [2^53] are doubles. *)
Lemma fl_integer n : 0 ≤ n ≤ 2 ^ 53 → fl (Qc_of_Z n) = Qc_of_Z n.
Proof.
  intros [H0 Hn]. destruct (decide (n = 0)) as [->|Hne]; [by apply Qc_is_canon|].
  pose proof (Z.log2_spec n ltac:(lia)) as [Hlo Hhi].
  pose proof (Z.log2_nonneg n) as He0.
  assert (He : Z.log2 n ≤ 53)
    by (rewrite <- (Z.log2_pow2 53) by lia; by apply Z.log2_le_mono).
  assert (Hk : ulp_exponent (Qc_of_Z n) = Z.log2 n - 52).
  { unfold ulp_exponent. rewrite binade_integer by lia. lia. }
  destruct (decide (Z.log2 n = 53)) as [E53|].
  - assert (n = 2 ^ 53) by (rewrite E53 in Hlo; lia). subst n.
    apply (fl_exact _ (2 ^ 52)). rewrite Hk, E53. by apply Qc_is_canon.
  - apply (fl_exact _ (n * 2 ^ (52 - Z.log2 n))). rewrite Hk.
    rewrite Qc_of_Z_mult, <- pow2_Z by lia.
    rewrite <- Qcmult_assoc, <- pow2_add.
    replace (52 - Z.log2 n + (Z.log2 n - 52)) with 0 by lia.
    change (pow2 0) with 1%Qc. ring.
Qed.

Lemma fl_half : fl (Q2Qc (1 # 2)) = Q2Qc (1 # 2).
Proof. by apply Qc_is_canon. Qed.

Lemma fl_one : fl 1 = 1%Qc.
Proof. by apply Qc_is_canon. Qed.

(** [rint] rounds to the nearest integer, a half to the even one. *)
Lemma rint_nearest_even (x : Qc) : nearest_even x (rint x).
Proof.
  unfold nearest_even, rint.
  pose proof (Qfloor_le x) as Hlo. pose proof (Qlt_floor x) as Hhi.
  rewrite inject_Z_plus in Hhi. change (inject_Z 1) with 1%Q in Hhi.
  set (f := Qfloor x) in *.
  destruct (x - Qc_of_Z f ?= Q2Qc (1 # 2))%Qc eqn:C.
  - apply Qceq_alt in C.
    assert (Ef : Qcabs (x - Qc_of_Z f) = Q2Qc (1 # 2)).
    { rewrite C. by apply Qc_is_canon. }
    assert (Ef1 : Qcabs (x - Qc_of_Z (f + 1)) = Q2Qc (1 # 2)).
    { replace (x - Qc_of_Z (f + 1))%Qc with (- Q2Qc (1 # 2))%Qc; [by apply Qc_is_canon|].
      qc_unfold. rewrite inject_Z_plus. change (inject_Z 1) with 1%Q. lra. }
    destruct (Z.even f) eqn:Ev.
    + rewrite Ef. split; [apply Qcle_refl|done].
    + rewrite Ef1. split; [apply Qcle_refl|]. intros _.
      rewrite Z.even_add, Ev. done.
  - apply Qclt_alt in C. split.
    + apply Qcabs_Qcle_condition. split; qc_unfold; lra.
    + intros E. exfalso. rewrite Qcabs_pos in E by (qc_unfold; lra).
      rewrite E in C. by apply (Qclt_not_le _ _ C).
  - apply Qcgt_alt in C. split.
    + apply Qcabs_Qcle_condition. split; qc_unfold; rewrite inject_Z_plus; change (inject_Z 1) with 1%Q; lra.
    + intros E. exfalso. rewrite Qcabs_neg in E by (qc_unfold; rewrite inject_Z_plus; change (inject_Z 1) with 1%Q; lra).
      assert (E' : (x - Qc_of_Z f)%Qc = Q2Qc (1 # 2)).
      { clear C. qc_unfold. rewrite inject_Z_plus in E. change (inject_Z 1) with 1%Q in E. lra. }
      rewrite E' in C. by apply (Qclt_not_le _ _ C).
Qed.

(** [fl] rounds to the nearest double, ties to the even significand. *)
Lemma fl_binary64 (x : Qc) : binary64_of x (fl x).
Proof.
  destruct (decide (x = 0%Qc)) as [->|Hx]; [by left|]. right.
  destruct (binade_spec x Hx) as [Hlo Hhi].
  exists (binade x), (rint (x / pow2 (ulp_exponent x))).
  split; [done|]. split; [done|]. cbv zeta. split.
  - apply rint_nearest_even.
  - apply (fl_nonzero x Hx).
Qed.

(** ** The percentile indices *)

(** The half of a probability and its complement, exactly. *)
Lemma half_alpha_exact (alpha : Qc) :
  (0 < alpha)%Qc → (alpha < 1)%Qc →
  let h := (alpha / Qc_of_Z 2)%Qc in
  (0 ≤ h)%Qc ∧ (h ≤ Q2Qc (1 # 2))%Qc.
Proof.
  intros Hpos Hlt1 h.
  assert (Hh : (h + h = alpha)%Qc).
  { unfold h. apply Qc_is_canon. unfold Qcdiv, Qcinv, Qcmult, Qcplus, Q2Qc.
    simpl this. rewrite !Qred_correct. field. }
  clearbody h. split; qc_lra.
Qed.

(** The same as doubles. *)
Lemma half_alpha_bounds (alpha : Qc) :
  (0 < alpha)%Qc → (alpha < 1)%Qc →
  let h := fl (alpha / Qc_of_Z 2) in
  let u := fl (Qc_of_Z 1 - h) in
  (0 ≤ h)%Qc ∧ (h ≤ u)%Qc ∧ (u ≤ 1)%Qc.
Proof.
  intros Hpos Hlt1 h u.
  destruct (half_alpha_exact alpha Hpos Hlt1) as [H0 Hhalf].
  assert (Hh0 : (0 ≤ h)%Qc) by (by apply fl_nonneg).
  assert (Hh1 : (h ≤ Q2Qc (1 # 2))%Qc).
  { rewrite <- fl_half. by apply fl_mono. }
  assert (Hu0 : (Q2Qc (1 # 2) ≤ u)%Qc).
  { rewrite <- fl_half. apply fl_mono; [done|]. clearbody h. clear u. qc_lra. }
  assert (Hu1 : (u ≤ 1)%Qc).
  { rewrite <- fl_one. apply fl_mono; clearbody h; clear u Hu0; qc_lra. }
  split; [done|]. split; [by eapply Qcle_trans|done].
Qed.

Lemma two_sided_alphas_Num (alpha : Qc) :
  two_sided_alphas (Num alpha) =
    (Num (fl (alpha / Qc_of_Z 2)),
     Num (fl (Qc_of_Z 1 - fl (alpha / Qc_of_Z 2)))).
Proof.
  unfold two_sided_alphas, np_div, np_sub, np_lift2, of_int.
  destruct (decide (Qc_of_Z 2 = Qc_of_Z 0)) as [E|_]; [|done].
  by apply (f_equal this) in E.
Qed.

Lemma pct_index_Num reps (a : Qc) :
  pct_index reps (Num a) = rint (int_times (reps - 1) a).
Proof. unfold pct_index. simpl. apply astype_int_of_int. Qed.

Lemma int_times_mono (n : Z) (a b : Qc) :
  0 ≤ n → (0 ≤ a)%Qc → (a ≤ b)%Qc → (int_times n a ≤ int_times n b)%Qc.
Proof.
  intros Hn Ha Hab.
  assert (Hn' : (0 ≤ Qc_of_Z n)%Qc) by (by apply (Qc_of_Z_le 0)).
  assert (Hle : (Qc_of_Z n * a ≤ Qc_of_Z n * b)%Qc)
    by (by apply Qcmult_le_mono_nonneg_l).
  unfold int_times. destruct (decide _); [|done].
  apply fl_mono; [|done]. by apply Qcmult_nonneg_nonneg.
Qed.

Lemma int_times_0 (n : Z) : int_times n 0 = 0%Qc.
Proof.
  unfold int_times. replace (Qc_of_Z n * 0)%Qc with 0%Qc by ring.
  by destruct (decide _).
Qed.

Lemma int_times_1 (n : Z) : 0 ≤ n → int_times n 1 = Qc_of_Z n.
Proof.
  intros Hn. unfold int_times. rewrite Qcmult_1_r.
  destruct (decide _); [|done]. apply fl_integer. lia.
Qed.

(** In-range indexing returns the element at that position. *)
Lemma getitem_in_range {A} (a : list A) (i : Z) :
  0 ≤ i < Z.of_nat (length a) →
  ∃ x, getitem a i = Ok x ∧ a !! Z.to_nat i = Some x.
Proof.
  intros Hi. unfold getitem.
  destruct (decide (i < 0)); [lia|].
  destruct (decide (0 ≤ i < Z.of_nat (length a))); [|lia].
  destruct (a !! Z.to_nat i) as [x|] eqn:E; [eauto|].
  apply lookup_ge_None in E. lia.
Qed.

(** The two percentile indices, for a probability [alpha]. *)
Lemma pct_low_high_bounds (alpha : Qc) (reps : Z) :
  (0 < alpha)%Qc → (alpha < 1)%Qc → 1 ≤ reps →
  let ind := pct_low_high reps (two_sided_alphas (Num alpha)) in
  let h := fl (alpha / Qc_of_Z 2) in
  ind = (rint (int_times (reps - 1) h),
         rint (int_times (reps - 1) (fl (Qc_of_Z 1 - h))))
  ∧ 0 ≤ ind.1 ∧ ind.1 ≤ ind.2 ∧ ind.2 ≤ reps - 1.
Proof.
  intros Hpos Hlt1 Hreps ind h.
  destruct (half_alpha_bounds alpha Hpos Hlt1) as (H0 & Hmid & H1).
  fold h in H0, Hmid, H1.
  assert (Eind : ind = (rint (int_times (reps - 1) h),
         rint (int_times (reps - 1) (fl (Qc_of_Z 1 - h))))).
  { unfold ind, pct_low_high. rewrite two_sided_alphas_Num. simpl.
    by rewrite !pct_index_Num. }
  split; [done|]. rewrite Eind. simpl.
  set (u := fl (Qc_of_Z 1 - h)) in *.
  assert (Hu0 : (0 ≤ u)%Qc) by (by eapply Qcle_trans).
  pose proof (int_times_mono (reps - 1) 0 h ltac:(lia) ltac:(done) H0) as Ha.
  pose proof (int_times_mono (reps - 1) h u ltac:(lia) H0 Hmid) as Hb.
  pose proof (int_times_mono (reps - 1) u 1 ltac:(lia) Hu0 H1) as Hc.
  rewrite int_times_0 in Ha. rewrite int_times_1 in Hc by lia.
  apply rint_mono in Ha, Hb, Hc.
  rewrite rint_of_Z in Hc. rewrite <- Qc_of_Z_0, rint_of_Z in Ha. lia.
Qed.

(** C2: for [alpha] strictly between 0 and 1 and [reps >= 1], the
    percentile indices are [round((reps-1)*(alpha/2))] and
    [round((reps-1)*(1-alpha/2))] as the program computes them on
    doubles: [alpha/2], [1 - alpha/2] and the two products are each the
    nearest double of the exact result, and [round] takes the nearest
    integer, a half to the even one; a NaN product gives the index 0; and
    the indices satisfy [0 <= low <= high <= reps-1], so that indexing a
    distribution of [reps] values with them succeeds. *)
Theorem pct_low_high_in_range (alpha : Qc) (reps : Z) :
  (0 < alpha)%Qc → (alpha < 1)%Qc → 1 ≤ reps →
  let ind := pct_low_high reps (two_sided_alphas (Num alpha)) in
  (reps - 1 ≤ 2 ^ 53 →
   ∃ half rest low high : Qc,
     binary64_of (alpha / Qc_of_Z 2) half
     ∧ binary64_of (1 - half) rest
     ∧ binary64_of (Qc_of_Z (reps - 1) * half) low
     ∧ binary64_of (Qc_of_Z (reps - 1) * rest) high
     ∧ nearest_even low ind.1
     ∧ nearest_even high ind.2)
  ∧ pct_index reps NaN = 0
  ∧ 0 ≤ ind.1 ∧ ind.1 ≤ ind.2 ∧ ind.2 ≤ reps - 1
  ∧ ∀ statarray : list npfloat, length statarray = Z.to_nat reps →
      ∃ lo hi, getitem statarray ind.1 = Ok lo ∧ getitem statarray ind.2 = Ok hi.
Proof.
  intros Hpos Hlt1 Hreps ind.
  destruct (pct_low_high_bounds alpha reps Hpos Hlt1 Hreps)
    as (Eind & Ha & Hb & Hc).
  fold ind in Eind, Ha, Hb, Hc. cbv zeta in Eind.
  split; [|repeat split; try done].
  - intros Hbig. rewrite Eind. simpl.
    unfold int_times. destruct (decide _) as [_|]; [|lia].
    eexists _, _, _, _.
    split; [apply fl_binary64|]. split; [apply fl_binary64|].
    split; [apply fl_binary64|]. split; [apply fl_binary64|].
    split; apply rint_nearest_even.
  - intros statarray Hlen.
    destruct (getitem_in_range statarray ind.1) as (lo & Hlo & _); [lia|].
    destruct (getitem_in_range statarray ind.2) as (hi & Hhi & _); [lia|].
    eauto.
Qed.

(** ** Running computations *)

Lemma bind_Ok {A B} (c : M A) (k : A → M B) w a w' :
  c w = (Ok a, w') → bind c k w = k a w'.
Proof. unfold bind. by intros ->. Qed.

Lemma bind_Raise {A B} (c : M A) (k : A → M B) w e w' :
  c w = (Raise e, w') → bind c k w = (Raise e, w').
Proof. unfold bind. by intros ->. Qed.

Lemma bind_lift_Ok {A B} (o : outcome A) (k : A → M B) w a :
  o = Ok a → bind (lift o) k w = k a w.
Proof. by intros ->. Qed.

Lemma bind_lift_Raise {A B} (o : outcome A) (k : A → M B) w e :
  o = Raise e → bind (lift o) k w = (Raise e, w).
Proof. by intros ->. Qed.

Lemma advance_advance w m k : advance (advance w m) k = advance w (m + k).
Proof. unfold advance. simpl. f_equal. lia. Qed.

Lemma advance_0 w : advance w 0 = w.
Proof. destruct w. unfold advance. simpl. f_equal. lia. Qed.

(** ** Resampling *)

Lemma randint_returns (n : nat) w :
  (0 < n)%nat →
  ∃ l, randint 0 (Z.of_nat n) n w = (Ok l, advance w n)
       ∧ length l = n ∧ Forall (λ i, 0 ≤ i < Z.of_nat n) l.
Proof.
  intros Hn. unfold randint. destruct (decide _) as [|_]; [lia|].
  destruct (decide _) as [|_]; [lia|].
  eexists. split; [reflexivity|]. split.
  - by rewrite length_map, length_seq.
  - apply Forall_map, Forall_forall. intros k _. simpl.
    rewrite Z.sub_0_r. pose proof (Z.mod_pos_bound (Z.of_nat (draws w (cursor w + k))) (Z.of_nat n)).
    lia.
Qed.

Lemma take_indices_returns (a : list npfloat) (l : list Z) :
  Forall (λ i, 0 ≤ i < Z.of_nat (length a)) l →
  ∃ s, take_indices a l = Ok s ∧ length s = length l ∧ Forall (λ x, x ∈ a) s.
Proof.
  induction 1 as [|i l Hi _ (s & Hs & Hlen & Hin)]; simpl.
  - by exists [].
  - destruct (getitem_in_range a i Hi) as (x & -> & Hx). rewrite Hs.
    exists (x :: s). simpl. repeat split; [congruence|].
    constructor; [|done]. by eapply list_elem_of_lookup_2.
Qed.

(** A statistic function is silent on an array that holds values. *)
Lemma call_nonempty (func : statfun) (a : list npfloat) w :
  a ≠ [] → call func a w = (Ok (func a), w).
Proof. by destruct a. Qed.

(** On a non-empty array the resampling loop returns [n_boot] values and
    consumes [n_boot * len(a)] draws; nothing else changes. *)
Lemma boot_dist_returns (k : nat) (a : list npfloat) (func : statfun) w :
  a ≠ [] →
  ∃ l, boot_dist k a func w = (Ok l, advance w (k * length a))
       ∧ length l = k.
Proof.
  intros Ha. assert (Hn : (0 < length a)%nat) by (destruct a; simpl; [done|lia]).
  revert w. induction k as [|k IH]; intros w.
  - exists []. simpl. by rewrite advance_0.
  - simpl boot_dist.
    destruct (randint_returns (length a) w Hn) as (r & Hr & Hrl & Hrange).
    destruct (take_indices_returns a r Hrange) as (s & Hs & Hsl & _).
    destruct (IH (advance w (length a))) as (l & Hl & Hlen).
    exists (func s :: l). split; [|simpl; congruence].
    rewrite (bind_Ok _ _ _ _ _ Hr), (bind_lift_Ok _ _ _ _ Hs).
    rewrite (bind_Ok _ _ _ _ _ (call_nonempty func s _ ltac:(by destruct s; simpl in *; [lia|]))).
    rewrite (bind_Ok _ _ _ _ _ Hl). unfold ret.
    by rewrite advance_advance.
Qed.

(** Which entries a resample holds. *)
Lemma randint_lookup (n : nat) w :
  (0 < n)%nat →
  ∃ l, randint 0 (Z.of_nat n) n w = (Ok l, advance w n)
       ∧ length l = n
       ∧ Forall (λ i, 0 ≤ i < Z.of_nat n) l
       ∧ ∀ i, (i < n)%nat →
           l !! i = Some (Z.of_nat (draws w (cursor w + i) mod n)).
Proof.
  intros Hn. destruct (randint_returns n w Hn) as (l & Hl & Hlen & Hr).
  exists l. repeat (split; [done|]). intros i Hi.
  unfold randint in Hl. destruct (decide _) as [|_]; [lia|].
  destruct (decide _) as [|_]; [lia|]. injection Hl as <-.
  change (map ?f ?l) with (f <$> l). rewrite list_lookup_fmap.
  rewrite lookup_seq_lt by done. simpl. f_equal.
  rewrite Z.sub_0_r, Nat2Z.inj_mod. lia.
Qed.

Lemma take_indices_lookup (a : list npfloat) (l : list Z) s :
  take_indices a l = Ok s →
  Forall (λ i, 0 ≤ i < Z.of_nat (length a)) l →
  ∀ i z, l !! i = Some z → s !! i = a !! Z.to_nat z.
Proof.
  intros Hs Hr. revert s Hs.
  induction Hr as [|z0 l Hz0 _ IH]; intros s Hs i z Hi; [done|].
  simpl in Hs. destruct (getitem_in_range a z0 Hz0) as (x & Hx & Hax).
  rewrite Hx in Hs. destruct (take_indices a l) as [xs|] eqn:Exs; [|done].
  injection Hs as <-. destruct i as [|i]; simpl in *.
  - injection Hi as <-. by rewrite Hax.
  - by apply IH.
Qed.

(** The resampling loop on a non-empty array: replicate [j] is the
    statistic of the resample that uses draws
    [cursor + j*n, ..., cursor + j*n + n - 1]. *)
Lemma boot_dist_describes (k : nat) (a : list npfloat) (func : statfun) w :
  a ≠ [] →
  ∃ l, boot_dist k a func w = (Ok l, advance w (k * length a))
       ∧ length l = k
       ∧ are_replicates func a (draws w) (cursor w) l.
Proof.
  intros Ha. assert (Hn : (0 < length a)%nat) by (destruct a; simpl; [done|lia]).
  revert w. induction k as [|k IH]; intros w.
  - exists []. simpl. rewrite advance_0. split; [done|]. split; [done|].
    intros j Hj. simpl in Hj. lia.
  - simpl boot_dist.
    destruct (randint_lookup (length a) w Hn) as (r & Hr & Hrl & Hrange & Hri).
    destruct (take_indices_returns a r Hrange) as (s & Hs & Hsl & _).
    destruct (IH (advance w (length a))) as (l & Hl & Hlen & Hrep).
    exists (func s :: l). split; [|split; [simpl; congruence|]].
    + rewrite (bind_Ok _ _ _ _ _ Hr), (bind_lift_Ok _ _ _ _ Hs).
      rewrite (bind_Ok _ _ _ _ _ (call_nonempty func s _ ltac:(by destruct s; simpl in *; [lia|]))).
      rewrite (bind_Ok _ _ _ _ _ Hl). unfold ret.
      by rewrite advance_advance.
    + intros [|j] Hj.
      * exists s. split; [|done]. split; [congruence|]. intros i Hi.
        rewrite (take_indices_lookup a r s Hs Hrange i _ (Hri i Hi)).
        rewrite Nat2Z.id. do 3 f_equal. lia.
      * destruct (Hrep j) as (s' & (Hs'l & Hs'i) & Hlj); [simpl in Hj; lia|].
        exists s'. split; [|done]. split; [done|]. intros i Hi.
        rewrite (Hs'i i Hi). simpl. do 3 f_equal. lia.
Qed.

Section Properties.
Context `{Externals}.

Lemma sb_bootstrap_returns_when a func n_boot smooth w :
  (smooth = true → resampler_quiet) → a ≠ [] →
  ∃ l w', sb_bootstrap a func n_boot smooth w = (Ok l, w')
          ∧ length l = Z.to_nat n_boot ∧ warnings_of w' = warnings_of w.
Proof.
  intros Hq Ha. unfold sb_bootstrap. destruct smooth; [by apply Hq|].
  destruct (boot_dist_returns (Z.to_nat n_boot) a func w Ha) as (l & Hl & Hlen).
  by exists l, (advance w (Z.to_nat n_boot * length a)).
Qed.

Lemma sb_bootstrap_returns a func n_boot smooth w :
  resampler_quiet → a ≠ [] →
  ∃ l w', sb_bootstrap a func n_boot smooth w = (Ok l, w')
          ∧ length l = Z.to_nat n_boot ∧ warnings_of w' = warnings_of w.
Proof. intros Hq. by apply sb_bootstrap_returns_when. Qed.

(** ** Warnings *)

Lemma warn_returns msg w :
  find_action UserWarning (filters w) ≠ Error →
  ∃ w', warn msg w = (Ok tt, w') ∧ filters w' = filters w.
Proof.
  intros Hne. unfold warn, warn_as.
  destruct (find_action UserWarning (filters w)); try done; eauto.
  destruct (decide _); eauto.
Qed.

Lemma warn_ignored msg w :
  find_action UserWarning (filters w) = Ignore → warn msg w = (Ok tt, w).
Proof. unfold warn, warn_as. by intros ->. Qed.

Lemma warn_always msg w :
  find_action UserWarning (filters w) = Always →
  warn msg w = (Ok tt, World (draws w) (cursor w) (filters w) (onceregistry w)
                             (shown w ++ [(UserWarning, msg)])).
Proof. unfold warn, warn_as. by intros ->. Qed.

Lemma warn_error msg w :
  find_action UserWarning (filters w) = Error →
  warn msg w = (Raise (PyExc "UserWarning" msg), w).
Proof. unfold warn, warn_as. by intros ->. Qed.

Lemma warn_index_pair_message reps ind :
  warn_index_pair reps ind =
    match stability_message reps ind with Some m => warn m | None => ret tt end.
Proof.
  unfold warn_index_pair, stability_message.
  by destruct (extremal reps ind), (marginal reps ind).
Qed.

Lemma for_each_warn_returns reps inds w :
  find_action UserWarning (filters w) ≠ Error →
  ∃ w', for_each (warn_index_pair reps) inds w = (Ok tt, w')
        ∧ filters w' = filters w.
Proof.
  revert w. induction inds as [|ind inds IH]; intros w Hne; simpl.
  - by exists w.
  - rewrite warn_index_pair_message.
    destruct (stability_message reps ind) as [m|].
    + destruct (warn_returns m w Hne) as (w1 & Hw1 & Hf1).
      destruct (IH w1) as (w2 & Hw2 & Hf2); [by rewrite Hf1|].
      exists w2. rewrite (bind_Ok _ _ _ _ _ Hw1). split; [done|congruence].
    + destruct (IH w Hne) as (w2 & Hw2 & Hf2). by exists w2.
Qed.

(** With the filter of line 15 in front, every warning is dropped. *)
Lemma for_each_warn_ignored reps inds w :
  find_action UserWarning (filters w) = Ignore →
  for_each (warn_index_pair reps) inds w = (Ok tt, w).
Proof.
  intros Hig. induction inds as [|ind inds IH]; simpl; [done|].
  rewrite warn_index_pair_message.
  destruct (stability_message reps ind) as [m|]; [|done].
  by rewrite (bind_Ok _ _ _ _ _ (warn_ignored m w Hig)).
Qed.

(** With an ["always"] filter in front, every warning is delivered. *)
Lemma for_each_warn_always reps inds w :
  find_action UserWarning (filters w) = Always →
  for_each (warn_index_pair reps) inds w =
    (Ok tt, World (draws w) (cursor w) (filters w) (onceregistry w)
                  (shown w ++ issued reps inds)).
Proof.
  revert w. induction inds as [|ind inds IH]; intros w Hal; simpl.
  - unfold issued. simpl. rewrite app_nil_r. by destruct w.
  - rewrite warn_index_pair_message. unfold issued. simpl.
    destruct (stability_message reps ind) as [m|]; simpl.
    + rewrite (bind_Ok _ _ _ _ _ (warn_always m w Hal)).
      rewrite IH by done. simpl. unfold issued. by rewrite <- app_assoc.
    + rewrite (bind_Ok (ret tt) _ w tt w eq_refl). by rewrite IH.
Qed.

(** ** [bootstrap] and [bootstrap_contrast] return *)

Lemma array_sub_same_length (a b : list npfloat) :
  length a = length b → array_sub a b = Ok (zip_with np_sub a b).
Proof. intros Hl. unfold array_sub. by destruct (decide _). Qed.

Lemma getitem_valid {A} (a : list A) (i n : Z) :
  Z.of_nat (length a) = n → 0 ≤ i < n → ∃ x, getitem a i = Ok x.
Proof.
  intros <- Hi. destruct (getitem_in_range a i Hi) as (x & Hx & _). eauto.
Qed.

(** [bootstrap] on a non-empty sample: every step succeeds, and the
    record is built from the sorted resample statistics. *)
Lemma bootstrap_returns_when data statfunction smoothboot (alpha : Qc) reps w :
  let func := default np_mean statfunction in
  let alphas := two_sided_alphas (Num alpha) in
  let pct := pct_low_high reps alphas in
  data ≠ [] → (0 < alpha)%Qc → (alpha < 1)%Qc → 1 ≤ reps →
  (smoothboot = true → resampler_quiet) → bca_in_range →
  find_action UserWarning (filters w) ≠ Error →
  ∃ boots w1 w2 b plo phi blo bhi,
    sb_bootstrap data func reps smoothboot w = (Ok boots, w1)
    ∧ length boots = Z.to_nat reps
    ∧ warnings_of w1 = warnings_of w
    ∧ bca [data] alphas (np_sort boots) func (func data) reps = Ok b
    ∧ 0 ≤ b.1 < reps ∧ 0 ≤ b.2 < reps
    ∧ for_each (warn_index_pair reps) [pct; b] w1 = (Ok tt, w2)
    ∧ getitem (np_sort boots) pct.1 = Ok plo
    ∧ getitem (np_sort boots) pct.2 = Ok phi
    ∧ getitem (np_sort boots) b.1 = Ok blo
    ∧ getitem (np_sort boots) b.2 = Ok bhi
    ∧ Boot.bootstrap data statfunction smoothboot (Num alpha) reps w =
        (Ok {| Boot.summary := func data;
               Boot.statistic := sf_repr func;
               Boot.bootstrap_reps := reps;
               Boot.pct_ci_low := plo;
               Boot.pct_ci_high := phi;
               Boot.bca_ci_low := blo;
               Boot.bca_ci_high := bhi;
               Boot.stat_array := np_sort boots;
               Boot.pct_low_high_indices := pct;
               Boot.bca_low_high_indices := b |}, w2).
Proof.
  intros func alphas pct Hdata Hpos Hlt1 Hreps Hq Hbca Hw.
  destruct (sb_bootstrap_returns_when data func reps smoothboot w Hq Hdata)
    as (boots & w1 & Hsb & Hlen & Hw1).
  assert (Hslen : length (np_sort boots) = Z.to_nat reps)
    by (by rewrite np_sort_length).
  destruct (Hbca [data] alpha (np_sort boots) func (func data) reps
              Hpos Hlt1 Hreps Hslen) as (b & Hb & Hb1 & Hb2).
  fold alphas in Hb.
  assert (Hw1' : find_action UserWarning (filters w1) ≠ Error).
  { unfold warnings_of in Hw1. by replace (filters w1) with (filters w) by congruence. }
  destruct (for_each_warn_returns reps [pct; b] w1 Hw1') as (w2 & Hfe & _).
  destruct (pct_low_high_bounds alpha reps Hpos Hlt1 Hreps)
    as (_ & Hp0 & Hp1 & Hp2).
  fold alphas in Hp0, Hp1, Hp2. fold pct in Hp0, Hp1, Hp2.
  assert (Hn : Z.of_nat (length (np_sort boots)) = reps) by lia.
  destruct (getitem_valid (np_sort boots) pct.1 reps Hn) as (plo & Hplo); [lia|].
  destruct (getitem_valid (np_sort boots) pct.2 reps Hn) as (phi & Hphi); [lia|].
  destruct (getitem_valid (np_sort boots) b.1 reps Hn) as (blo & Hblo); [lia|].
  destruct (getitem_valid (np_sort boots) b.2 reps Hn) as (bhi & Hbhi); [lia|].
  exists boots, w1, w2, b, plo, phi, blo, bhi.
  repeat (split; [done|]).
  unfold Boot.bootstrap. fold func alphas pct.
  rewrite (bind_Ok _ _ _ _ _ (call_nonempty func data w Hdata)).
  rewrite (bind_Ok _ _ _ _ _ Hsb), (bind_lift_Ok _ _ _ _ Hb).
  rewrite (bind_Ok _ _ _ _ _ Hfe).
  by rewrite (bind_lift_Ok _ _ _ _ Hplo), (bind_lift_Ok _ _ _ _ Hphi),
     (bind_lift_Ok _ _ _ _ Hblo), (bind_lift_Ok _ _ _ _ Hbhi).
Qed.

Lemma bootstrap_returns data statfunction smoothboot (alpha : Qc) reps w :
  let func := default np_mean statfunction in
  let alphas := two_sided_alphas (Num alpha) in
  let pct := pct_low_high reps alphas in
  data ≠ [] → (0 < alpha)%Qc → (alpha < 1)%Qc → 1 ≤ reps →
  resampler_quiet → bca_in_range →
  find_action UserWarning (filters w) ≠ Error →
  ∃ boots w1 w2 b plo phi blo bhi,
    sb_bootstrap data func reps smoothboot w = (Ok boots, w1)
    ∧ length boots = Z.to_nat reps
    ∧ warnings_of w1 = warnings_of w
    ∧ bca [data] alphas (np_sort boots) func (func data) reps = Ok b
    ∧ 0 ≤ b.1 < reps ∧ 0 ≤ b.2 < reps
    ∧ for_each (warn_index_pair reps) [pct; b] w1 = (Ok tt, w2)
    ∧ getitem (np_sort boots) pct.1 = Ok plo
    ∧ getitem (np_sort boots) pct.2 = Ok phi
    ∧ getitem (np_sort boots) b.1 = Ok blo
    ∧ getitem (np_sort boots) b.2 = Ok bhi
    ∧ Boot.bootstrap data statfunction smoothboot (Num alpha) reps w =
        (Ok {| Boot.summary := func data;
               Boot.statistic := sf_repr func;
               Boot.bootstrap_reps := reps;
               Boot.pct_ci_low := plo;
               Boot.pct_ci_high := phi;
               Boot.bca_ci_low := blo;
               Boot.bca_ci_high := bhi;
               Boot.stat_array := np_sort boots;
               Boot.pct_low_high_indices := pct;
               Boot.bca_low_high_indices := b |}, w2).
Proof.
  intros func alphas pct Hdata Hpos Hlt1 Hreps Hq.
  by apply bootstrap_returns_when.
Qed.

End Properties.

(** ** Selecting the groups (lines 109-128) *)

Lemma unique_from_elem_of seen col x :
  x ∈ unique_from seen col ↔ x ∈ col ∧ x ∉ seen.
Proof.
  revert seen. induction col as [|v col IH]; intros seen; simpl.
  - set_solver.
  - destruct (decide (v ∈ seen)).
    + rewrite IH. set_solver.
    + rewrite elem_of_cons, IH. destruct (decide (x = v)); set_solver.
Qed.

Lemma unique_from_NoDup seen col : NoDup (unique_from seen col).
Proof.
  revert seen. induction col as [|v col IH]; intros seen; simpl.
  - constructor.
  - destruct (decide (v ∈ seen)); [done|]. constructor; [|done].
    rewrite unique_from_elem_of. set_solver.
Qed.

Lemma unique_elem_of col x : x ∈ unique col ↔ x ∈ col.
Proof. unfold unique. rewrite unique_from_elem_of. set_solver. Qed.

Lemma unique_NoDup col : NoDup (unique col).
Proof. apply unique_from_NoDup. Qed.

Lemma dict_zip_foldl_notin {V} (keys : list label) (values : list V)
    (m : gmap label V) k :
  k ∉ keys →
  foldl (λ m kv, <[kv.1 := kv.2]> m) m (zip keys values) !! k = m !! k.
Proof.
  revert values m. induction keys as [|k0 keys IH]; intros [|v0 values] m Hk;
    simpl; try done.
  rewrite IH by set_solver. apply lookup_insert_ne. set_solver.
Qed.

Lemma dict_zip_foldl_in {V} (keys : list label) (values : list V)
    (m : gmap label V) i k v :
  NoDup keys → keys !! i = Some k → values !! i = Some v →
  foldl (λ m kv, <[kv.1 := kv.2]> m) m (zip keys values) !! k = Some v.
Proof.
  revert values m i. induction keys as [|k0 keys IH];
    intros [|v0 values] m i Hnd Hk Hv; try done.
  apply NoDup_cons in Hnd as [Hk0 Hnd]. destruct i as [|i]; simpl in *.
  - simplify_eq. rewrite dict_zip_foldl_notin by done. apply lookup_insert_eq.
  - by eapply IH.
Qed.

Lemma dict_zip_lookup {V} (keys : list label) (values : list V) i k v :
  NoDup keys → keys !! i = Some k → values !! i = Some v →
  dict_zip keys values !! k = Some v.
Proof. apply dict_zip_foldl_in. Qed.

Lemma dict_zip_lookup_None {V} (keys : list label) (values : list V) k :
  k ∉ keys → dict_zip keys values !! k = None.
Proof.
  intros Hk. unfold dict_zip. by rewrite dict_zip_foldl_notin.
Qed.

Lemma range_lookup n (i : nat) :
  (i < n)%nat → range n !! i = Some (Z.of_nat i).
Proof.
  intros Hi. unfold range. rewrite list_lookup_fmap, lookup_seq_lt by done.
  done.
Qed.

Lemma range_NoDup n : NoDup (LInt <$> range n).
Proof.
  unfold range. rewrite <- list_fmap_compose.
  apply NoDup_fmap_2; [|apply NoDup_seq].
  intros a b E. simpl in E. injection E. lia.
Qed.

Lemma range_elem_of n z :
  LInt z ∈ LInt <$> range n ↔ 0 ≤ z < Z.of_nat n.
Proof.
  unfold range. rewrite <- list_fmap_compose, list_elem_of_fmap. split.
  - intros (k & E & Hk). apply elem_of_seq in Hk. simpl in E.
    injection E as ->. lia.
  - intros Hz. exists (Z.to_nat z). simpl. split; [f_equal; lia|].
    apply elem_of_seq. lia.
Qed.

Lemma levels_to_idx_lookup levels i :
  NoDup levels → i ∈ levels →
  ∃ k, dict_zip levels (range (length levels)) !! i = Some k
       ∧ getitem levels k = Ok i.
Proof.
  intros Hnd Hi. apply list_elem_of_lookup in Hi as [p Hp].
  pose proof (lookup_lt_Some _ _ _ Hp) as Hlt.
  exists (Z.of_nat p). split.
  - eapply dict_zip_lookup; [done..|]. by apply range_lookup.
  - destruct (getitem_in_range levels (Z.of_nat p)) as (x & Hx & Hx'); [lia|].
    rewrite Nat2Z.id in Hx'. congruence.
Qed.

Lemma idx_to_levels_lookup levels i :
  i ∉ levels →
  match dict_zip (LInt <$> range (length levels)) levels !! i with
  | Some _ => ∃ level, resolve levels i = Some level
                       ∧ levels_at levels i = Ok level
  | None => resolve levels i = None
  end.
Proof.
  intros Hi. unfold resolve. destruct (decide (i ∈ levels)); [done|].
  destruct i as [s|z].
  - rewrite dict_zip_lookup_None; [done|].
    rewrite list_elem_of_fmap. by intros (? & ? & _).
  - destruct (decide (0 ≤ z < Z.of_nat (length levels))) as [Hz|Hz].
    + destruct (getitem_in_range levels z Hz) as (x & Hx & Hx').
      erewrite (dict_zip_lookup _ _ (Z.to_nat z) (LInt z) x);
        [eauto|apply range_NoDup| |done].
      rewrite list_lookup_fmap, range_lookup by lia. simpl. f_equal. f_equal. lia.
    + rewrite dict_zip_lookup_None; [done|]. by rewrite range_elem_of.
Qed.

Lemma fill_arraylist_resolve data levels idx arraylist :
  NoDup levels →
  fill_arraylist data levels (dict_zip levels (range (length levels)))
    (dict_zip (LInt <$> range (length levels)) levels) idx arraylist =
  Ok (arraylist ++ (rows_of data <$> omap (resolve levels) idx)).
Proof.
  intros Hnd. revert arraylist.
  induction idx as [|i idx IH]; intros arraylist; simpl.
  - by rewrite app_nil_r.
  - destruct (decide (i ∈ levels)) as [Hi|Hi].
    + destruct (levels_to_idx_lookup levels i Hnd Hi) as (k & -> & ->).
      rewrite IH. unfold resolve at 2. rewrite decide_True by done. simpl.
      by rewrite <- app_assoc.
    + rewrite dict_zip_lookup_None by done.
      pose proof (idx_to_levels_lookup levels i Hi) as Hl.
      destruct (dict_zip (LInt <$> range (length levels)) levels !! i).
      * destruct Hl as (level & -> & ->). rewrite IH. simpl.
        by rewrite <- app_assoc.
      * rewrite Hl. apply IH.
Qed.

(** The loop never raises: it collects the rows of every selector that
    stands for a level and skips the others. *)
Lemma arraylist_of_resolve data idx :
  arraylist_of data idx =
    Ok (rows_of data <$> omap (resolve (unique data.*1)) idx).
Proof.
  unfold arraylist_of. rewrite fill_arraylist_resolve by apply unique_NoDup.
  done.
Qed.

Lemma resolve_elem_of levels i level :
  resolve levels i = Some level → level ∈ levels.
Proof.
  unfold resolve. destruct (decide (i ∈ levels)); [by intros [= <-]|].
  destruct i as [s|z]; [done|]. destruct (decide _); [|done].
  apply list_elem_of_lookup_2.
Qed.

Lemma rows_of_nonempty (data : frame) level :
  level ∈ data.*1 → rows_of data level ≠ [].
Proof.
  intros Hl. apply list_elem_of_fmap in Hl as (r & -> & Hin).
  unfold rows_of. intros E. apply fmap_nil_inv in E.
  assert (Hin' : r ∈ filter (λ r' : label * npfloat, r'.1 = r.1) data)
    by (by apply list_elem_of_filter).
  rewrite E in Hin'. by apply not_elem_of_nil in Hin'.
Qed.

(** Every array the loop collects holds at least one row. *)
Lemma arraylist_of_nonempty data idx al a :
  arraylist_of data idx = Ok al → a ∈ al → a ≠ [].
Proof.
  rewrite arraylist_of_resolve. intros [= <-] Ha.
  apply list_elem_of_fmap in Ha as (level & -> & Hl).
  apply list_elem_of_omap in Hl as (i & _ & Hi).
  apply rows_of_nonempty, unique_elem_of. by eapply resolve_elem_of.
Qed.

Lemma getitem_elem_of {A} (a : list A) (i : Z) x : getitem a i = Ok x → x ∈ a.
Proof.
  unfold getitem. destruct (decide (0 ≤ _ < _)); [|done].
  destruct (a !! _) eqn:E; [|done]. intros [= <-].
  by eapply list_elem_of_lookup_2.
Qed.

Global Instance np_le_refl : Reflexive np_le.
Proof. intros [a|]; simpl; [apply Qcle_refl|done]. Qed.

(** In a sorted array, an earlier position holds a smaller value. *)
Lemma sorted_lookup_le (l : list npfloat) (i j : nat) x y :
  Sorted np_le l → l !! i = Some x → l !! j = Some y → (i ≤ j)%nat → np_le x y.
Proof.
  intros Hs%Sorted_StronglySorted; [|apply _].
  revert i j. induction Hs as [|z l Hs IH Hall]; intros i j Hi Hj Hij; [done|].
  destruct i as [|i], j as [|j]; simpl in *; simplify_eq; try lia.
  - reflexivity.
  - rewrite Forall_forall in Hall. apply Hall. by eapply list_elem_of_lookup_2.
  - eapply IH; [done..|lia].
Qed.


Lemma sorted_ascending (l : list npfloat) : Sorted np_le l → ascending l.
Proof.
  intros Hs i j x y Hij Hi Hj.
  pose proof (sorted_lookup_le l i j x y Hs Hi Hj Hij) as Hle.
  by destruct x, y.
Qed.

Lemma np_sort_ascending a : ascending (np_sort a).
Proof. apply sorted_ascending, np_sort_Sorted. Qed.

(** Entry by entry, [a - b] on arrays of one length. *)
Lemma zip_with_sub_lookup (es rs : list npfloat) i e f :
  es !! i = Some e → rs !! i = Some f →
  ∃ d, zip_with np_sub es rs !! i = Some d
       ∧ match e, f with
         | Num a, Num b => d = Num (a - b)%Qc
         | _, _ => d = NaN
         end.
Proof.
  intros He Hf. exists (np_sub e f). split.
  - rewrite lookup_zip_with, He. simpl. by rewrite Hf.
  - by destruct e, f.
Qed.

Section ContrastProperties.
Context `{Externals}.

(** [bootstrap_contrast] when two groups are selected and the tests
    return: every step succeeds, and the record is built from the sorted
    differences of the two groups' resample statistics. *)
Lemma bootstrap_contrast_returns data idx statfunction smoothboot
    (alpha : Qc) reps w al ref_array exp_array t m :
  let func := default np_mean statfunction in
  let alphas := two_sided_alphas (Num alpha) in
  let pct := pct_low_high reps alphas in
  let ostat := np_sub (func exp_array) (func ref_array) in
  arraylist_of data (default [LInt 0; LInt 1] idx) = Ok al →
  getitem al 0 = Ok ref_array → getitem al 1 = Ok exp_array →
  (0 < alpha)%Qc → (alpha < 1)%Qc → 1 ≤ reps →
  resampler_quiet → bca_in_range →
  ttest_ind ref_array exp_array = Ok t →
  mannwhitneyu ref_array exp_array = Ok m →
  find_action UserWarning (filters w) ≠ Error →
  ∃ ref_statarray exp_statarray w1 w2 w3 b plo phi blo bhi,
    sb_bootstrap ref_array func reps smoothboot w = (Ok ref_statarray, w1)
    ∧ sb_bootstrap exp_array func reps smoothboot w1 = (Ok exp_statarray, w2)
    ∧ length ref_statarray = Z.to_nat reps
    ∧ length exp_statarray = Z.to_nat reps
    ∧ warnings_of w2 = warnings_of w
    ∧ let diff_array := np_sort (zip_with np_sub exp_statarray ref_statarray) in
      bca [diff_array] alphas diff_array func ostat reps = Ok b
      ∧ 0 ≤ b.1 < reps ∧ 0 ≤ b.2 < reps
      ∧ for_each (warn_index_pair reps) [pct; b] w2 = (Ok tt, w3)
      ∧ getitem diff_array pct.1 = Ok plo
      ∧ getitem diff_array pct.2 = Ok phi
      ∧ getitem diff_array b.1 = Ok blo
      ∧ getitem diff_array b.2 = Ok bhi
      ∧ Contrast.bootstrap_contrast data idx statfunction smoothboot
          (Num alpha) reps w =
        (Ok {| Contrast.summary := ostat;
               Contrast.statistic := sf_repr func;
               Contrast.bootstrap_reps := reps;
               Contrast.pct_ci_low := plo;
               Contrast.pct_ci_high := phi;
               Contrast.bca_ci_low := blo;
               Contrast.bca_ci_high := bhi;
               Contrast.diffarray := diff_array;
               Contrast.pct_low_high_indices := pct;
               Contrast.bca_low_high_indices := b;
               Contrast.statistic_ref := func ref_array;
               Contrast.statistic_exp := func exp_array;
               Contrast.ref_input := ref_array;
               Contrast.test_input := exp_array;
               Contrast.pvalue_ttest := t.2;
               Contrast.pvalue_mannWhitney := np_mul m.2 (of_int 2) |}, w3).
Proof.
  intros func alphas pct ostat Hal Href Hexp Hpos Hlt1 Hreps Hq Hbca Ht Hm Hw.
  assert (Hr : ref_array ≠ [])
    by (eapply arraylist_of_nonempty, getitem_elem_of; done).
  assert (He : exp_array ≠ [])
    by (eapply arraylist_of_nonempty, getitem_elem_of; done).
  destruct (sb_bootstrap_returns ref_array func reps smoothboot w Hq Hr)
    as (rs & w1 & Hrs & Hrlen & Hw1).
  destruct (sb_bootstrap_returns exp_array func reps smoothboot w1 Hq He)
    as (es & w2 & Hes & Helen & Hw2).
  set (d := np_sort (zip_with np_sub es rs)).
  assert (Hdlen : length d = Z.to_nat reps).
  { unfold d. rewrite np_sort_length, length_zip_with. lia. }
  destruct (Hbca [d] alpha d func ostat reps Hpos Hlt1 Hreps Hdlen)
    as (b & Hb & Hb1 & Hb2).
  fold alphas in Hb.
  assert (Hw2' : find_action UserWarning (filters w2) ≠ Error).
  { unfold warnings_of in *. by replace (filters w2) with (filters w) by congruence. }
  destruct (for_each_warn_returns reps [pct; b] w2 Hw2') as (w3 & Hfe & _).
  destruct (pct_low_high_bounds alpha reps Hpos Hlt1 Hreps)
    as (_ & Hp0 & Hp1 & Hp2).
  fold alphas in Hp0, Hp1, Hp2. fold pct in Hp0, Hp1, Hp2.
  assert (Hn : Z.of_nat (length d) = reps) by lia.
  destruct (getitem_valid d pct.1 reps Hn) as (plo & Hplo); [lia|].
  destruct (getitem_valid d pct.2 reps Hn) as (phi & Hphi); [lia|].
  destruct (getitem_valid d b.1 reps Hn) as (blo & Hblo); [lia|].
  destruct (getitem_valid d b.2 reps Hn) as (bhi & Hbhi); [lia|].
  exists rs, es, w1, w2, w3, b, plo, phi, blo, bhi.
  repeat (split; [done || congruence|]).
  cbv zeta. fold d. repeat (split; [done|]).
  unfold Contrast.bootstrap_contrast. fold func alphas pct.
  rewrite (bind_lift_Ok _ _ _ _ Hal), (bind_lift_Ok _ _ _ _ Href),
    (bind_lift_Ok _ _ _ _ Hexp).
  rewrite (bind_Ok _ _ _ _ _ Hrs), (bind_Ok _ _ _ _ _ Hes).
  rewrite (bind_lift_Ok _ _ _ _ (array_sub_same_length es rs ltac:(lia))).
  rewrite (bind_Ok _ _ _ _ _ (call_nonempty func exp_array w2 He)).
  rewrite (bind_Ok _ _ _ _ _ (call_nonempty func ref_array w2 Hr)).
  fold d ostat. rewrite (bind_lift_Ok _ _ _ _ Hb), (bind_Ok _ _ _ _ _ Hfe).
  rewrite (bind_lift_Ok _ _ _ _ Ht), (bind_lift_Ok _ _ _ _ Hm).
  rewrite (bind_lift_Ok _ _ _ _ Hplo), (bind_lift_Ok _ _ _ _ Hphi),
     (bind_lift_Ok _ _ _ _ Hblo), (bind_lift_Ok _ _ _ _ Hbhi).
  rewrite (bind_Ok _ _ _ _ _ (call_nonempty func ref_array w3 Hr)).
  by rewrite (bind_Ok _ _ _ _ _ (call_nonempty func exp_array w3 He)).
Qed.

(** C1: in an unpaired two-group contrast each group gets its own
    resample distribution of [reps] statistics (without smoothing, replicate
    [j] is the statistic of the resample drawn for it, the reference group
    drawing first); the difference distribution holds, entry by entry,
    the experimental replicate minus the reference replicate; ['diffarray']
    is that distribution rearranged in ascending order; and ['summary'] is
    [statistic(B) - statistic(A)] on the raw groups, whatever the random
    draws were. *)
Theorem contrast_difference_distribution data idx statfunction smoothboot
    (alpha : Qc) reps w al ref_array exp_array t m :
  let func := default np_mean statfunction in
  arraylist_of data (default [LInt 0; LInt 1] idx) = Ok al →
  getitem al 0 = Ok ref_array → getitem al 1 = Ok exp_array →
  (0 < alpha)%Qc → (alpha < 1)%Qc → 1 ≤ reps →
  resampler_quiet → bca_in_range →
  ttest_ind ref_array exp_array = Ok t →
  mannwhitneyu ref_array exp_array = Ok m →
  find_action UserWarning (filters w) ≠ Error →
  ∃ r w' ref_statarray exp_statarray differences w1 w2,
    Contrast.bootstrap_contrast data idx statfunction smoothboot
      (Num alpha) reps w = (Ok r, w')
    ∧ sb_bootstrap ref_array func reps smoothboot w = (Ok ref_statarray, w1)
    ∧ sb_bootstrap exp_array func reps smoothboot w1 = (Ok exp_statarray, w2)
    ∧ length ref_statarray = Z.to_nat reps
    ∧ length exp_statarray = Z.to_nat reps
    ∧ (smoothboot = false →
         are_replicates func ref_array (draws w) (cursor w) ref_statarray
         ∧ are_replicates func exp_array (draws w)
             (cursor w + Z.to_nat reps * length ref_array) exp_statarray)
    ∧ length differences = Z.to_nat reps
    ∧ (∀ i e f, exp_statarray !! i = Some e → ref_statarray !! i = Some f →
         ∃ d, differences !! i = Some d
              ∧ match e, f with
                | Num a, Num b => d = Num (a - b)%Qc
                | _, _ => d = NaN
                end)
    ∧ Contrast.diffarray r ≡ₚ differences
    ∧ ascending (Contrast.diffarray r)
    ∧ match func exp_array, func ref_array with
      | Num b, Num a => Contrast.summary r = Num (b - a)%Qc
      | _, _ => Contrast.summary r = NaN
      end.
Proof.
  intros func Hal Href Hexp Hpos Hlt1 Hreps Hq Hbca Ht Hm Hw.
  destruct (bootstrap_contrast_returns data idx statfunction smoothboot alpha
              reps w al ref_array exp_array t m Hal Href Hexp Hpos Hlt1 Hreps
              Hq Hbca Ht Hm Hw)
    as (rs & es & w1 & w2 & w3 & b & plo & phi & blo & bhi &
        Hrs & Hes & Hrl & Hel & _ & _ & _ & _ & _ & _ & _ & _ & _ & Hrun).
  assert (Hr : ref_array ≠ [])
    by (eapply arraylist_of_nonempty, getitem_elem_of; done).
  assert (He : exp_array ≠ [])
    by (eapply arraylist_of_nonempty, getitem_elem_of; done).
  eexists _, w3, rs, es, (zip_with np_sub es rs), w1, w2.
  split; [exact Hrun|]. simpl. fold func.
  repeat (split; [done|]). split; [|split; [|split; [|split; [|split]]]].
  - intros ->. unfold sb_bootstrap in Hrs, Hes.
    destruct (boot_dist_describes (Z.to_nat reps) ref_array func w Hr)
      as (l1 & Hl1 & _ & Hrep1).
    pose proof (eq_trans (eq_sym Hl1) Hrs) as E1. injection E1 as <- <-.
    destruct (boot_dist_describes (Z.to_nat reps) exp_array func
                (advance w (Z.to_nat reps * length ref_array)) He)
      as (l2 & Hl2 & _ & Hrep2).
    pose proof (eq_trans (eq_sym Hl2) Hes) as E2. injection E2 as <- _. done.
  - rewrite length_zip_with. lia.
  - intros i e f. apply zip_with_sub_lookup.
  - apply np_sort_Permutation.
  - apply np_sort_ascending.
  - by destruct (func exp_array), (func ref_array).
Qed.


End ContrastProperties.

Section BootstrapProperties.
Context `{Externals}.

(** ** The empty sample *)





Lemma np_sort_replicate n x : np_sort (replicate n x) = replicate n x.
Proof.
  symmetry. apply replicate_Permutation. symmetry. apply np_sort_Permutation.
Qed.

Lemma getitem_replicate {A} n (x y : A) i :
  getitem (replicate n x) i = Ok y → y = x.
Proof. intros Hy%getitem_elem_of. by apply elem_of_replicate in Hy as [-> _]. Qed.



(** Which index pairs make lines 71-74 call [warnings.warn]. *)
Lemma stability_message_extremal reps ind :
  stability_message reps ind = Some extremal_msg ↔
  ind.1 = 0 ∨ ind.2 = 0 ∨ ind.1 = reps - 1 ∨ ind.2 = reps - 1.
Proof.
  unfold stability_message, extremal, marginal, np_any.
  destruct (ind.1 =? 0) eqn:E1, (ind.2 =? 0) eqn:E2,
    (ind.1 =? reps - 1) eqn:E3, (ind.2 =? reps - 1) eqn:E4; simpl;
    try (split; [intros _; lia | done]).
  destruct (_ || _); split; (done || lia).
Qed.

Lemma stability_message_issued reps ind :
  is_Some (stability_message reps ind) ↔
  ind.1 = 0 ∨ ind.2 = 0 ∨ ind.1 = reps - 1 ∨ ind.2 = reps - 1
  ∨ ind.1 < 10 ∨ ind.2 < 10 ∨ reps - 10 ≤ ind.1 ∨ reps - 10 ≤ ind.2.
Proof.
  unfold stability_message, extremal, marginal, np_any.
  destruct (ind.1 =? 0) eqn:E1, (ind.2 =? 0) eqn:E2,
    (ind.1 =? reps - 1) eqn:E3, (ind.2 =? reps - 1) eqn:E4; simpl;
    try (split; [intros _; lia | eauto]).
  destruct (ind.1 <? 10) eqn:E5, (ind.2 <? 10) eqn:E6,
    (ind.1 >=? reps - 10) eqn:E7, (ind.2 >=? reps - 10) eqn:E8; simpl;
    try (split; [intros _; lia | eauto]).
  split; [by intros [? ?]|]. lia.
Qed.

(** C3 (as the code has it): for each of the two index pairs that holds
    an index equal to 0 or [reps-1], or else an index below 10 or at
    least [reps-10], [bootstrap] calls [warnings.warn] once.  Under the
    ignore-everything filter that the module installs when imported, the
    warning is dropped: nothing reaches the caller.  It is delivered when
    an ["always"] filter decides instead.  Unless a filter turns warnings
    into errors, the result record is returned. *)
Theorem stability_warnings_filtered data statfunction smoothboot
    (alpha : Qc) reps w :
  data ≠ [] → (0 < alpha)%Qc → (alpha < 1)%Qc → 1 ≤ reps →
  resampler_quiet → bca_in_range →
  find_action UserWarning (filters w) ≠ Error →
  ∃ r w',
    Boot.bootstrap data statfunction smoothboot (Num alpha) reps w = (Ok r, w')
    ∧ (find_action UserWarning (filters w) = Ignore → shown w' = shown w)
    ∧ (find_action UserWarning (filters w) = Always →
       shown w' = shown w ++
         issued reps [Boot.pct_low_high_indices r; Boot.bca_low_high_indices r])
    ∧ (∀ ind, is_Some (stability_message reps ind) ↔
         ind.1 = 0 ∨ ind.2 = 0 ∨ ind.1 = reps - 1 ∨ ind.2 = reps - 1
         ∨ ind.1 < 10 ∨ ind.2 < 10
         ∨ reps - 10 ≤ ind.1 ∨ reps - 10 ≤ ind.2)
    ∧ (∀ w0, find_action UserWarning
               (filters (run filterwarnings_ignore w0).2) = Ignore).
Proof.
  intros Hdata Hpos Hlt1 Hreps Hq Hbca Hw.
  destruct (bootstrap_returns data statfunction smoothboot alpha reps w
              Hdata Hpos Hlt1 Hreps Hq Hbca Hw)
    as (boots & w1 & w2 & b & plo & phi & blo & bhi &
        _ & _ & Hw1 & _ & _ & _ & Hfe & _ & _ & _ & _ & Hrun).
  eexists _, w2. split; [exact Hrun|]. simpl.
  unfold warnings_of in Hw1. injection Hw1 as Hf Ho Hs.
  split; [|split; [|split]].
  - intros Hig. rewrite for_each_warn_ignored in Hfe by congruence.
    by injection Hfe as <-.
  - intros Hal. rewrite for_each_warn_always in Hfe by congruence.
    injection Hfe as <-. simpl. by rewrite Hs.
  - intros ind. apply stability_message_issued.
  - done.
Qed.



End BootstrapProperties.

(** ** Group order *)

Lemma np_neg_sub x y : np_neg (np_sub x y) = np_sub y x.
Proof.
  destruct x as [a|], y as [b|]; simpl; try done. f_equal. ring.
Qed.

Lemma arraylist_of_swap data a b A B :
  arraylist_of data [a; b] = Ok [A; B] → arraylist_of data [b; a] = Ok [B; A].
Proof.
  rewrite !arraylist_of_resolve. simpl.
  destruct (resolve _ a), (resolve _ b); simpl; intros; by simplify_eq.
Qed.

(** The second level is the group of the first row that is not in the
    first level. *)
Lemma unique_from_second l0 col l1 rest :
  unique_from [l0] col = l1 :: rest →
  ∃ pre post, col = pre ++ l1 :: post ∧ Forall (λ v, v = l0) pre ∧ l1 ≠ l0.
Proof.
  induction col as [|v col IH]; simpl; [done|].
  destruct (decide (v ∈ [l0])) as [Hv|Hv].
  - intros (pre & post & -> & Hpre & Hne)%IH.
    exists (v :: pre), post. split; [done|]. split; [|done].
    constructor; [|done]. by apply list_elem_of_singleton in Hv.
  - intros [= -> _]. exists [], col. split; [done|]. split; [constructor|].
    intros ->. apply Hv. by apply list_elem_of_singleton.
Qed.

Lemma unique_first_two col l0 l1 rest :
  unique col = l0 :: l1 :: rest →
  ∃ pre post, col = l0 :: pre ++ l1 :: post
              ∧ Forall (λ v, v = l0) pre ∧ l1 ≠ l0.
Proof.
  destruct col as [|v col]; [done|]. unfold unique.
  change (unique_from [] (v :: col)) with
    (if decide (v ∈ @nil label) then unique_from [] col
     else v :: unique_from [v] col).
  rewrite decide_False by apply not_elem_of_nil.
  intros [= -> (pre & post & -> & Hpre & Hne)%unique_from_second]. eauto.
Qed.

Section OrderProperties.
Context `{Externals}.

(** C8 (as the code has it): exchanging the two groups negates the point
    estimate.  The interval bounds come from resamples drawn afresh in
    each call and are not related by this exchange. *)
Theorem contrast_point_estimate_flips data a b statfunction smoothboot
    (alpha : Qc) reps w w' A B t m t' m' :
  arraylist_of data [a; b] = Ok [A; B] →
  (0 < alpha)%Qc → (alpha < 1)%Qc → 1 ≤ reps →
  resampler_quiet → bca_in_range →
  ttest_ind A B = Ok t → mannwhitneyu A B = Ok m →
  ttest_ind B A = Ok t' → mannwhitneyu B A = Ok m' →
  find_action UserWarning (filters w) ≠ Error →
  find_action UserWarning (filters w') ≠ Error →
  ∃ r1 r2 w1 w2,
    Contrast.bootstrap_contrast data (Some [a; b]) statfunction smoothboot
      (Num alpha) reps w = (Ok r1, w1)
    ∧ Contrast.bootstrap_contrast data (Some [b; a]) statfunction smoothboot
        (Num alpha) reps w' = (Ok r2, w2)
    ∧ Contrast.summary r1 = np_neg (Contrast.summary r2).
Proof.
  intros Hal Hpos Hlt1 Hreps Hq Hbca Ht Hm Ht' Hm' Hw Hw'.
  pose proof (arraylist_of_swap _ _ _ _ _ Hal) as Hal'.
  destruct (bootstrap_contrast_returns data (Some [a; b]) statfunction
              smoothboot alpha reps w [A; B] A B t m Hal eq_refl eq_refl
              Hpos Hlt1 Hreps Hq Hbca Ht Hm Hw)
    as (rs & es & w1 & w2 & w3 & b1 & plo & phi & blo & bhi &
        _ & _ & _ & _ & _ & _ & _ & _ & _ & _ & _ & _ & _ & Hrun).
  destruct (bootstrap_contrast_returns data (Some [b; a]) statfunction
              smoothboot alpha reps w' [B; A] B A t' m' Hal' eq_refl eq_refl
              Hpos Hlt1 Hreps Hq Hbca Ht' Hm' Hw')
    as (rs' & es' & w1' & w2' & w3' & b1' & plo' & phi' & blo' & bhi' &
        _ & _ & _ & _ & _ & _ & _ & _ & _ & _ & _ & _ & _ & Hrun').
  eexists _, _, w3, w3'. split; [exact Hrun|]. split; [exact Hrun'|].
  simpl. by rewrite np_neg_sub.
Qed.

(** C9 (as the code has it): the selectors are not validated.  A selector
    that is neither a level nor a position is skipped; when fewer than
    two selectors are left, [bootstrap_contrast] raises [IndexError] at
    line 127 or 128, before anything is resampled, and returns nothing.
    [pairedcontrast], given a list of names that does not have length 2,
    leaves through [sys.exit(0)]. *)
Theorem unresolved_selectors_raise data idx statfunction smoothboot alpha
    reps w plotPoints np_unique_x names :
  (length (omap (resolve (unique data.*1))
                (default [LInt 0; LInt 1] idx)) < 2)%nat →
  length names ≠ 2%nat →
  Contrast.bootstrap_contrast data idx statfunction smoothboot alpha reps w =
    (Raise (PyExc "IndexError" "index out of range"), w)
  ∧ Paired.pairedcontrast plotPoints np_unique_x reps statfunction
      (Some (Paired.IStr <$> names)) smoothboot w =
      (Raise (PyExc "SystemExit" "0"), w).
Proof.
  intros Hlen Hnames. split.
  - unfold Contrast.bootstrap_contrast.
    rewrite (bind_lift_Ok _ _ _ _ (arraylist_of_resolve _ _)).
    destruct (omap _ _) as [|l0 [|l1 ls]]; simpl in Hlen; [done|done|lia].
  - unfold Paired.pairedcontrast. apply bind_lift_Raise.
    unfold Paired.normalise_idx.
    replace (forallb Paired.is_str (Paired.IStr <$> names)) with true.
    + rewrite length_fmap. by rewrite decide_True.
    + symmetry. apply forallb_forall. intros x Hx.
      apply in_map_iff in Hx as (s & <- & _). done.
Qed.

(** C10 (as the code has it): without [idx] the selectors are [0] and
    [1].  When the grouping column has at least two levels and neither
    0 nor 1 is itself a level, they select the first two levels in order
    of first appearance: the reference group is the group of the first
    row, the experimental group is the group of the first row that
    belongs to another group, and ['summary'] is the statistic of the
    second minus that of the first. *)
Theorem default_idx_first_two_levels data statfunction smoothboot
    (alpha : Qc) reps w l0 l1 rest t m :
  let func := default np_mean statfunction in
  unique data.*1 = l0 :: l1 :: rest →
  LInt 0 ∉ unique data.*1 → LInt 1 ∉ unique data.*1 →
  (0 < alpha)%Qc → (alpha < 1)%Qc → 1 ≤ reps →
  resampler_quiet → bca_in_range →
  ttest_ind (rows_of data l0) (rows_of data l1) = Ok t →
  mannwhitneyu (rows_of data l0) (rows_of data l1) = Ok m →
  find_action UserWarning (filters w) ≠ Error →
  ∃ r w',
    Contrast.bootstrap_contrast data None statfunction smoothboot
      (Num alpha) reps w = (Ok r, w')
    ∧ (∃ pre post, data.*1 = l0 :: pre ++ l1 :: post
                   ∧ Forall (λ v, v = l0) pre ∧ l1 ≠ l0)
    ∧ Contrast.ref_input r = rows_of data l0
    ∧ Contrast.test_input r = rows_of data l1
    ∧ Contrast.summary r =
        np_sub (func (rows_of data l1)) (func (rows_of data l0)).
Proof.
  intros func Hu H0 H1 Hpos Hlt1 Hreps Hq Hbca Ht Hm Hw.
  assert (Hal : arraylist_of data (default [LInt 0; LInt 1] None) =
                Ok [rows_of data l0; rows_of data l1]).
  { rewrite arraylist_of_resolve. rewrite Hu in *.
    unfold resolve. cbn [default omap list_omap].
    rewrite (decide_False (P := LInt 0 ∈ _)), (decide_False (P := LInt 1 ∈ _))
      by done.
    rewrite !decide_True by (cbn [length]; lia). done. }
  destruct (bootstrap_contrast_returns data None statfunction
              smoothboot alpha reps w _ _ _ t m Hal eq_refl eq_refl
              Hpos Hlt1 Hreps Hq Hbca Ht Hm Hw)
    as (rs & es & w1 & w2 & w3 & b1 & plo & phi & blo & bhi &
        _ & _ & _ & _ & _ & _ & _ & _ & _ & _ & _ & _ & _ & Hrun).
  eexists _, w3. split; [exact Hrun|]. split; [|done].
  by apply unique_first_two in Hu.
Qed.

End OrderProperties.

(** ** Groups without variance *)

Lemma take_indices_constant (a s : list npfloat) c (l : list Z) :
  Forall (eq c) a → take_indices a l = Ok s → length l = length a →
  s = a.
Proof.
  intros Hc Hs Hlen.
  assert (Hin : Forall (λ x, x ∈ a) s ∧ length s = length l).
  { clear Hlen. revert s Hs. induction l as [|i l IH]; intros s; simpl.
    - by intros [= <-].
    - destruct (getitem a i) as [x|] eqn:Hx; [|done].
      destruct (take_indices a l) as [xs|]; [|done]. intros [= <-].
      destruct (IH xs eq_refl) as [IH1 IH2]. split; [|simpl; congruence].
      constructor; [by eapply getitem_elem_of|done]. }
  destruct Hin as [Hin Hl].
  assert (Hs' : Forall (eq c) s).
  { eapply Forall_impl; [exact Hin|]. intros x Hx. simpl in Hx.
    by eapply Forall_forall in Hc. }
  rewrite <- (replicate_as_Forall_2 c _ a eq_refl Hc).
  rewrite <- (replicate_as_Forall_2 c _ s eq_refl Hs'). congruence.
Qed.

(** Every resample of a constant array is that array. *)
Lemma boot_dist_constant (k : nat) (a : list npfloat) c (func : statfun) w :
  a ≠ [] → Forall (eq c) a →
  boot_dist k a func w =
    (Ok (replicate k (func a)), advance w (k * length a)).
Proof.
  intros Ha Hc. assert (Hn : (0 < length a)%nat) by (destruct a; simpl; [done|lia]).
  revert w. induction k as [|k IH]; intros w.
  - simpl. by rewrite advance_0.
  - simpl boot_dist.
    destruct (randint_returns (length a) w Hn) as (r & Hr & Hrl & Hrange).
    destruct (take_indices_returns a r Hrange) as (s & Hs & _).
    rewrite (bind_Ok _ _ _ _ _ Hr), (bind_lift_Ok _ _ _ _ Hs).
    rewrite (take_indices_constant a s c r Hc Hs Hrl).
    rewrite (bind_Ok _ _ _ _ _ (call_nonempty func a _ Ha)).
    rewrite (bind_Ok _ _ _ _ _ (IH _)). unfold ret.
    by rewrite advance_advance.
Qed.

Section Degenerate.
Context `{Externals}.

(** When both groups are constant, every resample statistic of a group
    is the statistic of the group, the difference distribution is
    constant, and all four interval bounds equal the point estimate. *)
Lemma constant_groups_collapse data idx statfunction (alpha : Qc) reps w al
    ref_array exp_array cr ce t m :
  let func := default np_mean statfunction in
  arraylist_of data (default [LInt 0; LInt 1] idx) = Ok al →
  getitem al 0 = Ok ref_array → getitem al 1 = Ok exp_array →
  Forall (eq cr) ref_array → Forall (eq ce) exp_array →
  (0 < alpha)%Qc → (alpha < 1)%Qc → 1 ≤ reps →
  resampler_quiet → bca_in_range →
  ttest_ind ref_array exp_array = Ok t →
  mannwhitneyu ref_array exp_array = Ok m →
  find_action UserWarning (filters w) ≠ Error →
  ∃ r w',
    Contrast.bootstrap_contrast data idx statfunction false (Num alpha) reps w
      = (Ok r, w')
    ∧ Contrast.summary r = np_sub (func exp_array) (func ref_array)
    ∧ Contrast.diffarray r = replicate (Z.to_nat reps) (Contrast.summary r)
    ∧ Contrast.pct_ci_low r = Contrast.summary r
    ∧ Contrast.pct_ci_high r = Contrast.summary r
    ∧ Contrast.bca_ci_low r = Contrast.summary r
    ∧ Contrast.bca_ci_high r = Contrast.summary r
    ∧ Contrast.pvalue_ttest r = t.2
    ∧ Contrast.pvalue_mannWhitney r = np_mul m.2 (of_int 2).
Proof.
  intros func Hal Href Hexp Hcr Hce Hpos Hlt1 Hreps Hq Hbca Ht Hm Hw.
  assert (Hr : ref_array ≠ [])
    by (eapply arraylist_of_nonempty, getitem_elem_of; done).
  assert (He : exp_array ≠ [])
    by (eapply arraylist_of_nonempty, getitem_elem_of; done).
  destruct (bootstrap_contrast_returns data idx statfunction false alpha
              reps w al ref_array exp_array t m Hal Href Hexp Hpos Hlt1 Hreps
              Hq Hbca Ht Hm Hw)
    as (rs & es & w1 & w2 & w3 & b & plo & phi & blo & bhi &
        Hrs & Hes & _ & _ & _ & _ & _ & _ & _ & Hplo & Hphi & Hblo & Hbhi & Hrun).
  unfold sb_bootstrap in Hrs, Hes. fold func in Hrs, Hes.
  rewrite (boot_dist_constant _ _ cr func w Hr Hcr) in Hrs.
  rewrite (boot_dist_constant _ _ ce func w1 He Hce) in Hes.
  injection Hrs as <- _. injection Hes as <- _.
  rewrite zip_with_replicate, np_sort_replicate in *.
  apply getitem_replicate in Hplo, Hphi, Hblo, Hbhi. subst.
  eexists _, w3. split; [exact Hrun|]. done.
Qed.

End Degenerate.

(** ** The stand-ins meet the assumptions *)

Lemma plain_resampler_quiet : resampler_quiet (H := plain_externals).
Proof.
  intros a func n_boot w Ha. simpl.
  destruct (boot_dist_returns (Z.to_nat n_boot) a func w Ha) as (l & Hl & Hlen).
  by exists l, (advance w (Z.to_nat n_boot * length a)).
Qed.

Lemma plain_bca_in_range : bca_in_range (H := plain_externals).
Proof.
  intros data alpha statarray func ostat reps Hpos Hlt1 Hreps _. simpl.
  unfold bca_plain. eexists. split; [done|].
  destruct (pct_low_high_bounds alpha reps Hpos Hlt1 Hreps)
    as (_ & H0 & H1 & H2). lia.
Qed.

(** ** Examples *)

Ltac by_computation :=
  match goal with
  | |- ?P => apply (bool_decide_unpack P); vm_compute; exact I
  end.

Ltac each_element H :=
  repeat (apply elem_of_cons in H as [->|H]); [..|by apply elem_of_nil in H].

Lemma contrast_difference_distribution_witness :
  ∃ r w' ref_statarray exp_statarray,
    Contrast.bootstrap_contrast (H := plain_externals) two_groups None
      None false (Num one_twentieth) 4 (imported thirds) = (Ok r, w')
    ∧ are_replicates np_mean [of_int 1; of_int 3] thirds 0 ref_statarray
    ∧ are_replicates np_mean [of_int 5; of_int 9] thirds 8 exp_statarray
    ∧ ref_statarray = of_int <$> [1; 2; 3; 1]
    ∧ exp_statarray = of_int <$> [7; 9; 5; 7]
    ∧ Contrast.diffarray r = of_int <$> [2; 6; 6; 7]
    ∧ Contrast.summary r = of_int 5.
Proof.
  destruct (contrast_difference_distribution (H := plain_externals)
    two_groups None None false one_twentieth 4 (imported thirds)
    [[of_int 1; of_int 3]; [of_int 5; of_int 9]]
    [of_int 1; of_int 3] [of_int 5; of_int 9]
    (of_int 0, Num (Q2Qc (1 # 4))) (of_int 0, Num (Q2Qc (1 # 4))))
    as (r & w' & rs & es & ds & w1 & w2 & Hrun & Hrs & Hes & _ & _ & Hrep & _);
    [reflexivity | reflexivity | reflexivity | reflexivity | reflexivity | lia
    | apply plain_resampler_quiet | apply plain_bca_in_range
    | reflexivity | reflexivity | discriminate | ].
  destruct (Hrep eq_refl) as [Hr He].
  exists r, w', rs, es. split; [exact Hrun|].
  split; [exact Hr|]. split; [exact He|]. clear Hr He Hrep.
  vm_compute in Hrs. injection Hrs as <- <-.
  vm_compute in Hes. injection Hes as <- _.
  vm_compute in Hrun. injection Hrun as <- _.
  repeat split; by_computation.
Defined.

Lemma pct_low_high_in_range_witness :
  pct_low_high 46 (two_sided_alphas (Num (Q2Qc (6 # 10)))) = (14, 31)
  ∧ rint (Qc_of_Z 45 * (1 - Q2Qc (6 # 10) / Qc_of_Z 2)) = 32
  ∧ pct_low_high 3000 (two_sided_alphas (Num one_twentieth)) = (75, 2924)
  ∧ let ind := pct_low_high 46 (two_sided_alphas (Num (Q2Qc (6 # 10)))) in
    0 ≤ ind.1 ∧ ind.1 ≤ ind.2 ∧ ind.2 ≤ 46 - 1.
Proof.
  split; [by vm_compute|]. split; [by vm_compute|]. split; [by vm_compute|].
  destruct (pct_low_high_in_range (Q2Qc (6 # 10)) 46)
    as (_ & _ & H0 & H1 & H2 & _); [reflexivity | reflexivity | lia | ].
  auto.
Defined.


(** *** Counterexamples *)

(** C3: with [reps = 10] the percentile indices are 0 and 9, both
    extremal, yet after the import no warning reaches the caller. *)
Lemma stability_warning_not_surfaced :
  ∃ r w', Boot.bootstrap (H := plain_externals) three_values None false
            (Num one_twentieth) 10 (imported counting) = (Ok r, w')
          ∧ Boot.pct_low_high_indices r = (0, 9)
          ∧ shown w' = [].
Proof. eexists _, _. split; [vm_compute; reflexivity|]. by vm_compute. Qed.


(** C5: SciPy 1.7 and later: for [a = [1, 4]] and [b = [2, 3]] the
    library's default p-value is the two-sided one, 1, and the record
    holds 2; the one-sided p-value is 2/3 in either direction. *)
Lemma mannwhitney_pvalue_not_one_sided :
  ∃ r w', Contrast.bootstrap_contrast (H := two_sided_externals) interleaved
            None None false default_alpha default_reps (imported counting) =
          (Ok r, w')
          ∧ Contrast.ref_input r = [of_int 1; of_int 4]
          ∧ Contrast.test_input r = [of_int 2; of_int 3]
          ∧ (∃ m, mannwhitneyu (Externals := two_sided_externals)
                    [of_int 1; of_int 4] [of_int 2; of_int 3] = Ok m
                  ∧ m.1 = of_int 2 ∧ m.2 = of_int 1)
          ∧ Contrast.pvalue_mannWhitney r = of_int 2
          ∧ mwu_sf 2 2 2 = Q2Qc (2 # 3)
          ∧ mwu_sf 2 2 (2 * 2 - 2) = Q2Qc (2 # 3).
Proof.
  eexists _, _. split; [vm_compute; reflexivity|].
  split; [by_computation|]. split; [by_computation|].
  split; [eexists; split; [reflexivity|split; by_computation]|].
  split; [by_computation|]. split; by_computation.
Qed.

Ltac np_differ :=
  let E := fresh in
  intros E;
  apply (f_equal (λ x, match x with Num q => Some (this q) | NaN => None end)) in E;
  vm_compute in E; discriminate E.

(** C8: two calls on the same data, from the same state of the random
    source, with the groups exchanged: the interval of the second is not
    the negated, swapped interval of the first. *)
Lemma ci_bounds_do_not_flip :
  ∃ r1 r2 w1 w2,
    Contrast.bootstrap_contrast (H := plain_externals) spread_and_flat
      (Some [LStr "a"; LStr "b"]) None false (Num one_twentieth) 2
      (imported early_zero) = (Ok r1, w1)
    ∧ Contrast.bootstrap_contrast (H := plain_externals) spread_and_flat
        (Some [LStr "b"; LStr "a"]) None false (Num one_twentieth) 2
        (imported early_zero) = (Ok r2, w2)
    ∧ Contrast.pct_ci_low r2 ≠ np_neg (Contrast.pct_ci_high r1)
    ∧ Contrast.pct_ci_high r2 ≠ np_neg (Contrast.pct_ci_low r1)
    ∧ Contrast.bca_ci_low r2 ≠ np_neg (Contrast.bca_ci_high r1)
    ∧ Contrast.bca_ci_high r2 ≠ np_neg (Contrast.bca_ci_low r1).
Proof.
  eexists _, _, _, _.
  split; [vm_compute; reflexivity|]. split; [vm_compute; reflexivity|].
  repeat split; np_differ.
Qed.

(** C9: three selectors, all of them levels: a result is returned, built
    from the first two.  One selector that is no level: [IndexError]. *)
Lemma selectors_not_validated :
  (∃ r w', Contrast.bootstrap_contrast (H := plain_externals) three_groups
             (Some [LStr "a"; LStr "b"; LStr "c"]) None false
             (Num one_twentieth) 4 (imported counting) = (Ok r, w')
           ∧ Contrast.ref_input r = rows_of three_groups (LStr "a")
           ∧ Contrast.test_input r = rows_of three_groups (LStr "b"))
  ∧ (∃ e w', Contrast.bootstrap_contrast (H := plain_externals) three_groups
               (Some [LStr "a"; LStr "zzz"]) None false
               (Num one_twentieth) 4 (imported counting) = (Raise e, w')
             ∧ exc_class e = "IndexError"
             ∧ exc_class e ≠ "InvalidInputError").
Proof.
  split.
  - eexists _, _. split; [vm_compute; reflexivity|]. by vm_compute.
  - eexists _, _. split; [vm_compute; reflexivity|]. by vm_compute.
Qed.

(** C10: the grouping column holds the integers 1 and 0, in this order
    of appearance.  The default selector 0 is read as the level 0, so the
    reference group is the second level to appear, not the first. *)
Lemma default_idx_integer_levels :
  ∃ r w', Contrast.bootstrap_contrast (H := plain_externals) integer_levels
            None None false (Num one_twentieth) 4 (imported counting)
          = (Ok r, w')
          ∧ unique integer_levels.*1 = [LInt 1; LInt 0]
          ∧ Contrast.ref_input r = rows_of integer_levels (LInt 0)
          ∧ Contrast.test_input r = rows_of integer_levels (LInt 1)
          ∧ Contrast.ref_input r ≠ rows_of integer_levels (LInt 1).
Proof.
  eexists _, _. split; [vm_compute; reflexivity|].
  repeat split; by vm_compute.
Qed.

(** *** Instances of the theorems *)

Lemma stability_warnings_filtered_witness :
  ∃ r w', Boot.bootstrap (H := plain_externals) three_values None false
            (Num one_twentieth) 10 (imported counting) = (Ok r, w')
          ∧ shown w' = shown (imported counting).
Proof.
  destruct (stability_warnings_filtered (H := plain_externals) three_values
              None false one_twentieth 10 (imported counting))
    as (r & w' & Hrun & Hig & _);
    [discriminate | reflexivity | reflexivity | lia
    | apply plain_resampler_quiet | apply plain_bca_in_range | discriminate | ].
  exists r, w'. split; [exact Hrun|]. apply Hig. reflexivity.
Defined.



Lemma contrast_point_estimate_flips_witness :
  ∃ r1 r2 w1 w2,
    Contrast.bootstrap_contrast (H := plain_externals) two_groups
      (Some [LStr "a"; LStr "b"]) None false (Num one_twentieth) 4
      (imported counting) = (Ok r1, w1)
    ∧ Contrast.bootstrap_contrast (H := plain_externals) two_groups
        (Some [LStr "b"; LStr "a"]) None false (Num one_twentieth) 4
        (imported early_zero) = (Ok r2, w2)
    ∧ Contrast.summary r1 = np_neg (Contrast.summary r2).
Proof.
  apply (contrast_point_estimate_flips (H := plain_externals) two_groups
           (LStr "a") (LStr "b") None false one_twentieth 4
           (imported counting) (imported early_zero)
           [of_int 1; of_int 3] [of_int 5; of_int 9]
           quarter quarter quarter quarter);
    [reflexivity | reflexivity | reflexivity | lia
    | apply plain_resampler_quiet | apply plain_bca_in_range
    | reflexivity | reflexivity | reflexivity | reflexivity
    | discriminate | discriminate].
Defined.

Lemma unresolved_selectors_raise_witness :
  Contrast.bootstrap_contrast (H := plain_externals) two_groups
    (Some [LStr "a"; LStr "zzz"]) None false (Num one_twentieth) 4
    (imported counting) =
    (Raise (PyExc "IndexError" "index out of range"), imported counting)
  ∧ Paired.pairedcontrast (H := plain_externals) (λ _, before_after)
      ["after"; "before"] 4 None (Some (Paired.IStr <$> ["before"])) false
      (imported counting) =
      (Raise (PyExc "SystemExit" "0"), imported counting).
Proof.
  apply (unresolved_selectors_raise (H := plain_externals) two_groups
           (Some [LStr "a"; LStr "zzz"]) None false (Num one_twentieth) 4
           (imported counting) (λ _, before_after) ["after"; "before"]
           ["before"]).
  - vm_compute. lia.
  - simpl. lia.
Defined.

Lemma default_idx_first_two_levels_witness :
  ∃ r w', Contrast.bootstrap_contrast (H := plain_externals) two_groups None
            None false (Num one_twentieth) 4 (imported counting) = (Ok r, w')
          ∧ Contrast.ref_input r = rows_of two_groups (LStr "a")
          ∧ Contrast.test_input r = rows_of two_groups (LStr "b").
Proof.
  destruct (default_idx_first_two_levels (H := plain_externals) two_groups
              None false one_twentieth 4 (imported counting)
              (LStr "a") (LStr "b") [] quarter quarter)
    as (r & w' & Hrun & _ & Href & Hexp & _);
    [reflexivity
    | intros Hin; vm_compute in Hin; repeat (inversion Hin as [|? ? ? Hin']; clear Hin; rename Hin' into Hin)
    | intros Hin; vm_compute in Hin; repeat (inversion Hin as [|? ? ? Hin']; clear Hin; rename Hin' into Hin)
    | reflexivity | reflexivity | lia
    | apply plain_resampler_quiet | apply plain_bca_in_range
    | reflexivity | reflexivity | discriminate | ].
  exists r, w'. auto.
Defined.

(** *** Further examples *)

(** The same rows in another order: the other group appears first, is
    taken as the reference, and the sign of ['summary'] changes. *)
Lemma summary_sign_follows_row_order :
  ∃ r1 r2 w1 w2,
    Contrast.bootstrap_contrast (H := plain_externals) two_groups None None
      false (Num one_twentieth) 4 (imported counting) = (Ok r1, w1)
    ∧ Contrast.bootstrap_contrast (H := plain_externals) two_groups_reordered
        None None false (Num one_twentieth) 4 (imported counting) = (Ok r2, w2)
    ∧ two_groups_reordered ≡ₚ two_groups
    ∧ np_ltb (of_int 0) (Contrast.summary r1) = true
    ∧ np_ltb (Contrast.summary r2) (of_int 0) = true.
Proof.
  eexists _, _, _, _.
  split; [vm_compute; reflexivity|]. split; [vm_compute; reflexivity|].
  split; [|by vm_compute].
  unfold two_groups_reordered, two_groups.
  eapply perm_trans; [apply perm_swap|]. do 2 apply perm_skip. apply perm_swap.
Qed.

Section ZeroVariance.
Context `{Externals}.

(** The groups [[1,1,1,1]] and [[2,2,2,2]], with the mean: the point
    estimate is 1 and the four interval bounds are 1; the p-values are
    those of the two library tests (the second one doubled). *)
Lemma zero_variance_scenario (alpha : Qc) reps w t m :
  (0 < alpha)%Qc → (alpha < 1)%Qc → 1 ≤ reps →
  resampler_quiet → bca_in_range →
  ttest_ind ones twos = Ok t → mannwhitneyu ones twos = Ok m →
  find_action UserWarning (filters w) ≠ Error →
  ∃ r w',
    Contrast.bootstrap_contrast ones_and_twos None None false (Num alpha)
      reps w = (Ok r, w')
    ∧ Contrast.summary r = of_int 1
    ∧ Contrast.pct_ci_low r = of_int 1 ∧ Contrast.pct_ci_high r = of_int 1
    ∧ Contrast.bca_ci_low r = of_int 1 ∧ Contrast.bca_ci_high r = of_int 1
    ∧ Contrast.pvalue_ttest r = t.2
    ∧ Contrast.pvalue_mannWhitney r = np_mul m.2 (of_int 2).
Proof.
  intros Hpos Hlt1 Hreps Hq Hbca Ht Hm Hw.
  destruct (constant_groups_collapse ones_and_twos None None alpha reps w
              [ones; twos] ones twos (of_int 1) (of_int 2) t m)
    as (r & w' & Hrun & Hsum & _ & H1 & H2 & H3 & H4 & Hpt & Hpm);
    try done.
  { by repeat constructor. }
  { by repeat constructor. }
  assert (Hone : np_sub (np_mean twos) (np_mean ones) = of_int 1).
  { unfold of_int. vm_compute. f_equal. by apply Qc_is_canon. }
  change (Contrast.summary r = np_sub (np_mean twos) (np_mean ones)) in Hsum.
  rewrite Hone in Hsum. rewrite Hsum in *.
  exists r, w'. done.
Qed.

End ZeroVariance.

(** * Further properties of the engine *)

Section EngineIntervals.
Context `{Externals}.



End EngineIntervals.

(** ** Few replicates *)

Lemma stability_message_few_reps reps ind :
  reps ≤ 20 →
  ∃ msg, stability_message reps ind = Some msg
         ∧ (msg = extremal_msg ∨ msg = marginal_msg).
Proof.
  intros Hreps. unfold stability_message.
  destruct (extremal reps ind); [eauto|].
  replace (marginal reps ind) with true; [eauto|].
  unfold marginal, np_any. symmetry.
  destruct (ind.1 <? 10) eqn:E1; [done|]. simpl.
  destruct (ind.2 <? 10) eqn:E2; [done|]. simpl.
  replace (ind.1 >=? reps - 10) with true; [done|]. symmetry.
  apply Z.ltb_ge in E1. apply Z.geb_le. lia.
Qed.

Section FewReplicates.
Context `{Externals}.

(** X3: With 20 replicates or fewer every index lies in one of the two
    tails, so [bootstrap] always calls [warnings.warn]: when a filter
    turns warnings into errors the call raises [UserWarning] and returns
    nothing; when an ["always"] filter decides, a warning is delivered. *)
Theorem bootstrap_few_reps_warns data statfunction smoothboot
    (alpha : Qc) reps w :
  data ≠ [] → (0 < alpha)%Qc → (alpha < 1)%Qc → 1 ≤ reps → reps ≤ 20 →
  resampler_quiet → bca_in_range →
  (find_action UserWarning (filters w) = Error →
   ∃ msg w',
     Boot.bootstrap data statfunction smoothboot (Num alpha) reps w =
       (Raise (PyExc "UserWarning" msg), w')
     ∧ (msg = extremal_msg ∨ msg = marginal_msg))
  ∧ (find_action UserWarning (filters w) = Always →
     ∃ r w' msg rest,
       Boot.bootstrap data statfunction smoothboot (Num alpha) reps w =
         (Ok r, w')
       ∧ shown w' = shown w ++ (UserWarning, msg) :: rest
       ∧ (msg = extremal_msg ∨ msg = marginal_msg)).
Proof.
  intros Hdata Hpos Hlt1 Hreps H20 Hq Hbca.
  set (func := default np_mean statfunction).
  set (alphas := two_sided_alphas (Num alpha)).
  set (pct := pct_low_high reps alphas).
  destruct (stability_message_few_reps reps pct H20) as (msg & Hmsg & Hcase).
  split.
  - intros Herr.
    destruct (sb_bootstrap_returns data func reps smoothboot w Hq Hdata)
      as (boots & w1 & Hsb & Hlen & Hw1).
    assert (Hslen : length (np_sort boots) = Z.to_nat reps)
      by (by rewrite np_sort_length).
    destruct (Hbca [data] alpha (np_sort boots) func (func data) reps
                Hpos Hlt1 Hreps Hslen) as (b & Hb & _).
    exists msg, w1. split; [|done].
    unfold Boot.bootstrap. fold func alphas pct.
    rewrite (bind_Ok _ _ _ _ _ (call_nonempty func data w Hdata)).
    rewrite (bind_Ok _ _ _ _ _ Hsb), (bind_lift_Ok _ _ _ _ Hb).
    apply bind_Raise. simpl for_each. apply bind_Raise.
    rewrite warn_index_pair_message, Hmsg. apply warn_error.
    unfold warnings_of in Hw1. by replace (filters w1) with (filters w) by congruence.
  - intros Hal.
    destruct (bootstrap_returns data statfunction smoothboot alpha reps w
                Hdata Hpos Hlt1 Hreps Hq Hbca)
      as (boots & w1 & w2 & b & plo & phi & blo & bhi &
          _ & _ & Hw1 & _ & _ & _ & Hfe & _ & _ & _ & _ & Hrun);
      [by rewrite Hal|].
    unfold warnings_of in Hw1. injection Hw1 as Hf Ho Hs.
    rewrite for_each_warn_always in Hfe by congruence. injection Hfe as <-.
    eexists _, _, msg, _. split; [exact Hrun|]. simpl. split; [|done].
    rewrite Hs. f_equal. unfold issued. simpl. fold alphas pct.
    rewrite Hmsg. reflexivity.
Qed.

End FewReplicates.

(** ** Which selectors count *)

Lemma resolve_level levels l : l ∈ levels → resolve levels l = Some l.
Proof. intros Hl. unfold resolve. by rewrite decide_True. Qed.

Lemma resolve_position levels (i : nat) l :
  levels !! i = Some l → LInt (Z.of_nat i) ∉ levels →
  resolve levels (LInt (Z.of_nat i)) = Some l.
Proof.
  intros Hi Hn. unfold resolve. rewrite decide_False by done.
  pose proof (lookup_lt_Some _ _ _ Hi).
  rewrite decide_True by lia. by rewrite Nat2Z.id.
Qed.

Section Selectors.
Context `{Externals}.

(** The call depends on [idx] only through the first two arrays that the
    loop collects. *)
Lemma contrast_same_first_two data idx idx' statfunction smoothboot alpha
    reps w al al' A B :
  arraylist_of data idx = Ok al → arraylist_of data idx' = Ok al' →
  getitem al 0 = Ok A → getitem al' 0 = Ok A →
  getitem al 1 = Ok B → getitem al' 1 = Ok B →
  Contrast.bootstrap_contrast data (Some idx) statfunction smoothboot alpha
    reps w =
  Contrast.bootstrap_contrast data (Some idx') statfunction smoothboot alpha
    reps w.
Proof.
  intros Hal Hal' H0 H0' H1 H1'. unfold Contrast.bootstrap_contrast.
  cbn [default].
  rewrite (bind_lift_Ok _ _ _ _ Hal), (bind_lift_Ok _ _ _ _ Hal').
  rewrite (bind_lift_Ok _ _ _ _ H0), (bind_lift_Ok _ _ _ _ H0').
  by rewrite (bind_lift_Ok _ _ _ _ H1), (bind_lift_Ok _ _ _ _ H1').
Qed.

Lemma getitem_0 {A} (x : A) l : getitem (x :: l) 0 = Ok x.
Proof.
  destruct (getitem_in_range (x :: l) 0) as (y & -> & Hy); [simpl; lia|].
  by injection Hy as ->.
Qed.

Lemma getitem_1 {A} (x y : A) l : getitem (x :: y :: l) 1 = Ok y.
Proof.
  destruct (getitem_in_range (x :: y :: l) 1) as (z & -> & Hz); [simpl; lia|].
  by injection Hz as ->.
Qed.

(** X4: Only the first two selectors that stand for a level count: selectors
    that are neither a level nor a position, and every selector after
    the second one that counts, do not change the outcome. *)
Theorem contrast_first_two_selectors data idx statfunction smoothboot alpha
    reps w l0 l1 rest :
  omap (resolve (unique data.*1)) idx = l0 :: l1 :: rest →
  l0 ∈ unique data.*1 ∧ l1 ∈ unique data.*1
  ∧ Contrast.bootstrap_contrast data (Some idx) statfunction smoothboot
      alpha reps w =
    Contrast.bootstrap_contrast data (Some [l0; l1]) statfunction smoothboot
      alpha reps w.
Proof.
  intros Hidx.
  assert (Hl0 : l0 ∈ unique data.*1).
  { assert (Hin : l0 ∈ omap (resolve (unique data.*1)) idx)
      by (rewrite Hidx; set_solver).
    apply list_elem_of_omap in Hin as (i & _ & Hi). by eapply resolve_elem_of. }
  assert (Hl1 : l1 ∈ unique data.*1).
  { assert (Hin : l1 ∈ omap (resolve (unique data.*1)) idx)
      by (rewrite Hidx; set_solver).
    apply list_elem_of_omap in Hin as (i & _ & Hi). by eapply resolve_elem_of. }
  split; [done|]. split; [done|].
  eapply contrast_same_first_two; try apply arraylist_of_resolve.
  - rewrite Hidx. apply getitem_0.
  - simpl. rewrite (resolve_level _ _ Hl0). apply getitem_0.
  - rewrite Hidx. apply getitem_1.
  - simpl. rewrite (resolve_level _ _ Hl0), (resolve_level _ _ Hl1).
    apply getitem_1.
Qed.

(** X5: A selector may be the position of a level instead of the level,
    provided that integer is not itself a level. *)
Theorem contrast_positions_as_levels data statfunction smoothboot alpha
    reps w (i j : nat) li lj :
  unique data.*1 !! i = Some li → unique data.*1 !! j = Some lj →
  LInt (Z.of_nat i) ∉ unique data.*1 → LInt (Z.of_nat j) ∉ unique data.*1 →
  Contrast.bootstrap_contrast data
    (Some [LInt (Z.of_nat i); LInt (Z.of_nat j)]) statfunction smoothboot
    alpha reps w =
  Contrast.bootstrap_contrast data (Some [li; lj]) statfunction smoothboot
    alpha reps w.
Proof.
  intros Hi Hj Hni Hnj.
  pose proof (list_elem_of_lookup_2 _ _ _ Hi) as Hli.
  pose proof (list_elem_of_lookup_2 _ _ _ Hj) as Hlj.
  eapply contrast_same_first_two; try apply arraylist_of_resolve; simpl.
  - rewrite (resolve_position _ _ _ Hi Hni). apply getitem_0.
  - rewrite (resolve_level _ _ Hli). apply getitem_0.
  - rewrite (resolve_position _ _ _ Hi Hni), (resolve_position _ _ _ Hj Hnj).
    apply getitem_1.
  - rewrite (resolve_level _ _ Hli), (resolve_level _ _ Hlj). apply getitem_1.
Qed.

End Selectors.

(** ** [alpha] is not checked *)

Section UncheckedAlpha.
Context `{Externals}.

(** [bootstrap] for any [alpha] whose percentile indices, and the
    indices of [bca], point into the distribution. *)
Lemma bootstrap_returns_indices data statfunction smoothboot alpha reps w :
  let func := default np_mean statfunction in
  let alphas := two_sided_alphas alpha in
  let pct := pct_low_high reps alphas in
  data ≠ [] → 1 ≤ reps → resampler_quiet →
  0 ≤ pct.1 < reps → 0 ≤ pct.2 < reps →
  (∀ statarray, length statarray = Z.to_nat reps →
     ∃ b, bca [data] alphas statarray func (func data) reps = Ok b
          ∧ 0 ≤ b.1 < reps ∧ 0 ≤ b.2 < reps) →
  find_action UserWarning (filters w) ≠ Error →
  ∃ boots w1 w2 b plo phi blo bhi,
    sb_bootstrap data func reps smoothboot w = (Ok boots, w1)
    ∧ length boots = Z.to_nat reps
    ∧ getitem (np_sort boots) pct.1 = Ok plo
    ∧ getitem (np_sort boots) pct.2 = Ok phi
    ∧ Boot.bootstrap data statfunction smoothboot alpha reps w =
        (Ok {| Boot.summary := func data;
               Boot.statistic := sf_repr func;
               Boot.bootstrap_reps := reps;
               Boot.pct_ci_low := plo;
               Boot.pct_ci_high := phi;
               Boot.bca_ci_low := blo;
               Boot.bca_ci_high := bhi;
               Boot.stat_array := np_sort boots;
               Boot.pct_low_high_indices := pct;
               Boot.bca_low_high_indices := b |}, w2).
Proof.
  intros func alphas pct Hdata Hreps Hq Hp1 Hp2 Hbca Hw.
  destruct (sb_bootstrap_returns data func reps smoothboot w Hq Hdata)
    as (boots & w1 & Hsb & Hlen & Hw1).
  assert (Hslen : length (np_sort boots) = Z.to_nat reps)
    by (by rewrite np_sort_length).
  destruct (Hbca (np_sort boots) Hslen) as (b & Hb & Hb1 & Hb2).
  assert (Hw1' : find_action UserWarning (filters w1) ≠ Error).
  { unfold warnings_of in Hw1. by replace (filters w1) with (filters w) by congruence. }
  destruct (for_each_warn_returns reps [pct; b] w1 Hw1') as (w2 & Hfe & _).
  assert (Hn : Z.of_nat (length (np_sort boots)) = reps) by lia.
  destruct (getitem_valid (np_sort boots) pct.1 reps Hn) as (plo & Hplo); [lia|].
  destruct (getitem_valid (np_sort boots) pct.2 reps Hn) as (phi & Hphi); [lia|].
  destruct (getitem_valid (np_sort boots) b.1 reps Hn) as (blo & Hblo); [lia|].
  destruct (getitem_valid (np_sort boots) b.2 reps Hn) as (bhi & Hbhi); [lia|].
  exists boots, w1, w2, b, plo, phi, blo, bhi.
  repeat (split; [done|]).
  unfold Boot.bootstrap. fold func alphas pct.
  rewrite (bind_Ok _ _ _ _ _ (call_nonempty func data w Hdata)).
  rewrite (bind_Ok _ _ _ _ _ Hsb), (bind_lift_Ok _ _ _ _ Hb).
  rewrite (bind_Ok _ _ _ _ _ Hfe).
  by rewrite (bind_lift_Ok _ _ _ _ Hplo), (bind_lift_Ok _ _ _ _ Hphi),
     (bind_lift_Ok _ _ _ _ Hblo), (bind_lift_Ok _ _ _ _ Hbhi).
Qed.

Lemma pct_low_high_NaN reps : pct_low_high reps (two_sided_alphas NaN) = (0, 0).
Proof. reflexivity. Qed.

(** X6: A NaN [alpha] is not rejected: the guard of line 64 turns both
    percentile indices into 0, and both percentile bounds are the
    smallest replicate. *)
Theorem bootstrap_nan_alpha data statfunction smoothboot reps w :
  let func := default np_mean statfunction in
  data ≠ [] → 1 ≤ reps → resampler_quiet →
  (∀ statarray, length statarray = Z.to_nat reps →
     ∃ b, bca [data] (two_sided_alphas NaN) statarray func (func data) reps
            = Ok b
          ∧ 0 ≤ b.1 < reps ∧ 0 ≤ b.2 < reps) →
  find_action UserWarning (filters w) ≠ Error →
  ∃ r w',
    Boot.bootstrap data statfunction smoothboot NaN reps w = (Ok r, w')
    ∧ Boot.pct_low_high_indices r = (0, 0)
    ∧ Boot.pct_ci_low r = Boot.pct_ci_high r
    ∧ (∀ v, v ∈ Boot.stat_array r → np_le (Boot.pct_ci_low r) v).
Proof.
  intros func Hdata Hreps Hq Hbca Hw.
  destruct (bootstrap_returns_indices data statfunction smoothboot NaN reps w
              Hdata Hreps Hq) as (boots & w1 & w2 & b & plo & phi & blo & bhi &
                                  _ & Hlen & Hplo & Hphi & Hrun);
    [rewrite pct_low_high_NaN; simpl; lia|rewrite pct_low_high_NaN; simpl; lia
    |exact Hbca|exact Hw|].
  eexists _, w2. split; [exact Hrun|]. simpl.
  rewrite pct_low_high_NaN in *.
  simpl in Hplo, Hphi. split; [done|]. split; [congruence|].
  intros v Hv. apply list_elem_of_lookup in Hv as [k Hk].
  destruct (getitem_in_range (np_sort boots) 0) as (x & Hx & Hx0).
  { rewrite np_sort_length. lia. }
  replace plo with x by congruence.
  eapply (sorted_lookup_le (np_sort boots) 0 k);
    [apply np_sort_Sorted|exact Hx0|exact Hk|lia].
Qed.

End UncheckedAlpha.

Lemma plain_bca_any_alpha data statarray func ostat reps :
  1 ≤ reps →
  ∃ b, bca (Externals := plain_externals) data (two_sided_alphas NaN)
         statarray func ostat reps = Ok b
       ∧ 0 ≤ b.1 < reps ∧ 0 ≤ b.2 < reps.
Proof. intros Hreps. exists (0, 0). simpl. split; [done|lia]. Qed.

(** * Properties of the drawing code *)

(** ** Smallest and largest value *)

Lemma np_ltb_Num a b : np_ltb (Num a) (Num b) = true ↔ (a < b)%Qc.
Proof. simpl. apply bool_decide_eq_true. Qed.

Lemma np_leb_Num a b : np_leb (Num a) (Num b) = true ↔ (a ≤ b)%Qc.
Proof. simpl. apply bool_decide_eq_true. Qed.

Lemma np_ltb_Num_false a b : np_ltb (Num a) (Num b) = false ↔ (b ≤ a)%Qc.
Proof.
  simpl. rewrite bool_decide_eq_false. split.
  - apply Qcnot_lt_le.
  - intros Hle Hlt. by apply Qcle_not_lt in Hle.
Qed.

Lemma np_leb_Num_false a b : np_leb (Num a) (Num b) = false ↔ (b < a)%Qc.
Proof.
  simpl. rewrite bool_decide_eq_false. split.
  - apply Qcnot_le_lt.
  - intros Hlt Hle. by apply Qcle_not_lt in Hle.
Qed.

Lemma foldl_minimum (a : Qc) (qs : list Qc) :
  ∃ m, foldl np_minimum (Num a) (Num <$> qs) = Num m
       ∧ m ∈ a :: qs ∧ ∀ x, x ∈ a :: qs → (m ≤ x)%Qc.
Proof.
  revert a. induction qs as [|q qs IH]; intros a; csimpl.
  - exists a. split; [done|]. split; [set_solver|].
    intros x ->%list_elem_of_singleton. apply Qcle_refl.
  - case_decide as Hle.
    + destruct (IH a) as (m & -> & Hin & Hmin). exists m. split; [done|].
      split; [set_solver|]. intros x Hx.
      apply elem_of_cons in Hx as [->|Hx]; [apply Hmin; set_solver|].
      apply elem_of_cons in Hx as [->|Hx].
      * apply (Qcle_trans _ a); [apply Hmin; set_solver|done].
      * apply Hmin. set_solver.
    + destruct (IH q) as (m & -> & Hin & Hmin). exists m. split; [done|].
      split; [set_solver|]. intros x Hx.
      apply elem_of_cons in Hx as [->|Hx]; [|by apply Hmin].
      apply (Qcle_trans _ q); [apply Hmin; set_solver|].
      apply Qclt_le_weak. by apply Qcnot_le_lt.
Qed.

Lemma foldl_maximum (a : Qc) (qs : list Qc) :
  ∃ m, foldl np_maximum (Num a) (Num <$> qs) = Num m
       ∧ m ∈ a :: qs ∧ ∀ x, x ∈ a :: qs → (x ≤ m)%Qc.
Proof.
  revert a. induction qs as [|q qs IH]; intros a; csimpl.
  - exists a. split; [done|]. split; [set_solver|].
    intros x ->%list_elem_of_singleton. apply Qcle_refl.
  - case_decide as Hle.
    + destruct (IH q) as (m & -> & Hin & Hmax). exists m. split; [done|].
      split; [set_solver|]. intros x Hx.
      apply elem_of_cons in Hx as [->|Hx]; [|by apply Hmax].
      apply (Qcle_trans _ q); [exact Hle|]. apply Hmax. set_solver.
    + destruct (IH a) as (m & -> & Hin & Hmax). exists m. split; [done|].
      split; [set_solver|]. intros x Hx.
      apply elem_of_cons in Hx as [->|Hx]; [apply Hmax; set_solver|].
      apply elem_of_cons in Hx as [->|Hx].
      * apply (Qcle_trans _ a); [|apply Hmax; set_solver].
        apply Qclt_le_weak. by apply Qcnot_le_lt.
      * apply Hmax. set_solver.
Qed.

(** On a non-empty array of numbers [amin] and [amax] return its
    smallest and its largest element. *)
Lemma amin_numbers (qs : list Qc) :
  qs ≠ [] →
  ∃ m, amin (Num <$> qs) = Ok (Num m) ∧ m ∈ qs ∧ ∀ x, x ∈ qs → (m ≤ x)%Qc.
Proof.
  destruct qs as [|a qs]; [done|]. intros _.
  destruct (foldl_minimum a qs) as (m & Hm & Hin & Hle).
  exists m. split; [|done]. csimpl. by rewrite Hm.
Qed.

Lemma amax_numbers (qs : list Qc) :
  qs ≠ [] →
  ∃ m, amax (Num <$> qs) = Ok (Num m) ∧ m ∈ qs ∧ ∀ x, x ∈ qs → (x ≤ m)%Qc.
Proof.
  destruct qs as [|a qs]; [done|]. intros _.
  destruct (foldl_maximum a qs) as (m & Hm & Hin & Hle).
  exists m. split; [|done]. csimpl. by rewrite Hm.
Qed.

Lemma grow_nonneg (x : Qc) : (0 ≤ x)%Qc → (x ≤ x * Q2Qc (11 # 10))%Qc.
Proof.
  intros Hx. rewrite <- (Qcmult_1_r x) at 1.
  by apply Qcmult_le_mono_nonneg_l.
Qed.

Lemma grow_nonpos (x : Qc) : (x ≤ 0)%Qc → (x * Q2Qc (11 # 10) ≤ x)%Qc.
Proof.
  intros Hx. apply Qcopp_le_compat in Hx.
  replace (- 0)%Qc with 0%Qc in Hx by ring.
  apply grow_nonneg in Hx. apply Qcopp_le_compat in Hx.
  rewrite Qcopp_involutive in Hx.
  by replace (- (- x * Q2Qc (11 # 10)))%Qc with (x * Q2Qc (11 # 10))%Qc in Hx by ring.
Qed.

(** ** Axis limits *)

(** X7: [plotbootstrap]: the test of line 233, [array.min() < 0 < array.min()],
    never holds.  So no limits are set exactly when the distribution has
    values on both sides of zero; and when limits are set, they start or
    end at zero and hold every value of the distribution. *)
Theorem plotbootstrap_ylim_limits (qs : list Qc) :
  qs ≠ [] →
  ∃ lims,
    plotbootstrap_ylim (Num <$> qs) = Ok lims
    ∧ (lims = None ↔
       (∃ x, x ∈ qs ∧ (x < 0)%Qc) ∧ (∃ y, y ∈ qs ∧ (0 < y)%Qc))
    ∧ (∀ a b, lims = Some (a, b) →
         (a = zero ∨ b = zero)
         ∧ np_le a zero ∧ np_le zero b
         ∧ ∀ x, x ∈ qs → np_le a (Num x) ∧ np_le (Num x) b).
Proof.
  intros Hqs.
  destruct (amin_numbers qs Hqs) as (lo & Hlo & Hlo_in & Hlo_le).
  destruct (amax_numbers qs Hqs) as (hi & Hhi & Hhi_in & Hhi_ge).
  unfold plotbootstrap_ylim. rewrite Hlo. cbn [and_then]. rewrite Hhi.
  cbn [and_then]. unfold zero, of_int. rewrite Qc_of_Z_0.
  destruct (np_ltb (Num lo) (Num 0%Qc) && np_ltb (Num 0%Qc) (Num lo)) eqn:E0.
  { apply andb_true_iff in E0 as [E1%np_ltb_Num E2%np_ltb_Num].
    exfalso. by eapply Qclt_not_le; [|apply Qclt_le_weak]. }
  clear E0. destruct (np_leb (Num 0%Qc) (Num lo)) eqn:E1.
  - apply np_leb_Num in E1. eexists. split; [done|]. split.
    + split; [done|]. intros [(x & Hx & Hneg) _]. exfalso.
      apply (Qclt_not_le _ _ Hneg). by apply (Qcle_trans _ lo); [|apply Hlo_le].
    + intros a b [= <- <-]. simpl.
      assert (H0hi : (0 ≤ hi)%Qc) by (by apply (Qcle_trans _ lo); [|apply Hlo_le]).
      pose proof (grow_nonneg hi H0hi) as Hg.
      split; [by left|]. split; [apply Qcle_refl|].
      split; [by apply (Qcle_trans _ hi)|]. intros x Hx. split.
      * by apply (Qcle_trans _ lo); [|apply Hlo_le].
      * by apply (Qcle_trans _ hi); [apply Hhi_ge|].
  - apply np_leb_Num_false in E1.
    destruct (np_leb (Num hi) (Num 0%Qc)) eqn:E2.
    + apply np_leb_Num in E2. eexists. split; [done|]. split.
      * split; [done|]. intros [_ (y & Hy & Hpos)]. exfalso.
        apply (Qclt_not_le _ _ Hpos). by apply (Qcle_trans _ hi); [apply Hhi_ge|].
      * intros a b [= <- <-]. simpl.
        pose proof (grow_nonpos lo (Qclt_le_weak _ _ E1)) as Hg.
        split; [by right|].
        split; [by apply (Qcle_trans _ lo); [|apply Qclt_le_weak]|].
        split; [apply Qcle_refl|]. intros x Hx. split.
        -- by apply (Qcle_trans _ lo); [|apply Hlo_le].
        -- by apply (Qcle_trans _ hi); [apply Hhi_ge|].
    + apply np_leb_Num_false in E2. exists None. split; [done|]. split.
      * split; [|done]. intros _. split; eauto.
      * by intros a b [=].
Qed.

(** X8: [plotbootstrap_hubspoke]: limits are set unless zero is the smallest
    or the largest of all values of the panel; when set, they hold zero
    and every value. *)
Theorem hubspoke_ylim_limits (arrays : list (list npfloat)) (qs : list Qc) :
  concat arrays = Num <$> qs → qs ≠ [] →
  ∃ lims,
    hubspoke_ylim arrays = Ok lims
    ∧ (lims = None ↔
       0%Qc ∈ qs ∧ ((∀ x, x ∈ qs → (0 ≤ x)%Qc) ∨ (∀ x, x ∈ qs → (x ≤ 0)%Qc)))
    ∧ (∀ a b, lims = Some (a, b) →
         np_le a zero ∧ np_le zero b
         ∧ ∀ x, x ∈ qs → np_le a (Num x) ∧ np_le (Num x) b).
Proof.
  intros Hcat Hqs.
  destruct (amin_numbers qs Hqs) as (lo & Hlo & Hlo_in & Hlo_le).
  destruct (amax_numbers qs Hqs) as (hi & Hhi & Hhi_in & Hhi_ge).
  assert (Hlohi : (lo ≤ hi)%Qc) by (by apply Hlo_le).
  unfold hubspoke_ylim. rewrite Hcat, Hlo. cbn [and_then]. rewrite Hhi.
  cbn [and_then]. unfold zero, of_int. rewrite Qc_of_Z_0.
  destruct (np_ltb (Num lo) (Num 0%Qc)) eqn:E1.
  - apply np_ltb_Num in E1. destruct (np_ltb (Num hi) (Num 0%Qc)) eqn:E2.
    + apply np_ltb_Num in E2. cbn [andb]. eexists. split; [done|]. split.
      * split; [done|]. intros [H0 _]. exfalso.
        apply (Qclt_not_le _ _ E2). by apply Hhi_ge.
      * intros a b [= <- <-]. simpl. rewrite Qcmult_comm.
        pose proof (grow_nonpos lo (Qclt_le_weak _ _ E1)) as Hg.
        split; [by apply (Qcle_trans _ lo); [|apply Qclt_le_weak]|].
        split; [apply Qcle_refl|]. intros x Hx. split.
        -- by apply (Qcle_trans _ lo); [|apply Hlo_le].
        -- apply (Qcle_trans _ hi); [by apply Hhi_ge|by apply Qclt_le_weak].
    + apply np_ltb_Num_false in E2. cbn [andb].
      replace (np_ltb (Num 0%Qc) (Num lo)) with false.
      2:{ symmetry. apply np_ltb_Num_false. by apply Qclt_le_weak. }
      destruct (np_ltb (Num 0%Qc) (Num hi)) eqn:E3.
      * apply np_ltb_Num in E3. eexists. split; [done|]. split.
        -- split; [done|]. intros [_ [Hall|Hall]]; exfalso.
           ++ apply (Qclt_not_le _ _ E1). by apply Hall.
           ++ apply (Qclt_not_le _ _ E3). by apply Hall.
        -- intros a b [= <- <-]. simpl. rewrite !(Qcmult_comm (Q2Qc (11 # 10))).
           pose proof (grow_nonpos lo (Qclt_le_weak _ _ E1)) as Hg.
           pose proof (grow_nonneg hi E2) as Hg'.
           split; [by apply (Qcle_trans _ lo); [|apply Qclt_le_weak]|].
           split; [by apply (Qcle_trans _ hi)|]. intros x Hx. split.
           ++ by apply (Qcle_trans _ lo); [|apply Hlo_le].
           ++ by apply (Qcle_trans _ hi); [apply Hhi_ge|].
      * apply np_ltb_Num_false in E3. exists None. split; [done|]. split.
        -- split; [|done]. intros _.
           assert (hi = 0%Qc) as -> by (by apply Qcle_antisym).
           split; [done|]. right. apply Hhi_ge.
        -- by intros a b [=].
  - apply np_ltb_Num_false in E1. cbn [andb].
    destruct (np_ltb (Num 0%Qc) (Num lo)) eqn:E2.
    + apply np_ltb_Num in E2. eexists. split; [done|]. split.
      * split; [done|]. intros [H0 _]. exfalso.
        apply (Qclt_not_le _ _ E2). by apply Hlo_le.
      * intros a b [= <- <-]. simpl. rewrite Qcmult_comm.
        assert (H0hi : (0 ≤ hi)%Qc) by (by apply (Qcle_trans _ lo)).
        pose proof (grow_nonneg hi H0hi) as Hg.
        split; [done|]. split; [by apply (Qcle_trans _ hi)|].
        intros x Hx. split.
        -- apply (Qcle_trans _ 0%Qc); [done|].
           by apply (Qcle_trans _ lo); [|apply Hlo_le].
        -- by apply (Qcle_trans _ hi); [apply Hhi_ge|].
    + apply np_ltb_Num_false in E2. exists None. split; [done|]. split.
      * split; [|done]. intros _.
        assert (lo = 0%Qc) as -> by (by apply Qcle_antisym).
        split; [done|]. left. apply Hlo_le.
      * by intros a b [=].
Qed.

(** X9: [contrastplot], lines 647-655: whatever the sign of the effect size,
    both limits of the right axis are the left axis's limits moved down
    by the size of the effect; the height of the axis is kept. *)
Theorem right_ylim_moves_down bound (lo hi s : Qc) :
  s ≠ 0%Qc →
  ∃ a b,
    right_ylim bound (Num lo, Num hi) (Num s) = Ok (Num a, Num b)
    ∧ (b - a = hi - lo)%Qc
    ∧ (a < lo)%Qc ∧ (b < hi)%Qc
    ∧ ((0 < s)%Qc → a = (lo - s)%Qc)
    ∧ ((s < 0)%Qc → a = (lo + s)%Qc).
Proof.
  intros Hs. unfold right_ylim, zero, of_int. rewrite Qc_of_Z_0.
  destruct (np_ltb (Num 0%Qc) (Num s)) eqn:E1.
  - apply np_ltb_Num in E1. exists (lo - s)%Qc, (hi - s)%Qc.
    split; [done|]. split; [ring|].
    assert (Hlt : ∀ x, (x - s < x)%Qc).
    { intros x. apply (proj2 (Qclt_minus_iff (x - s) x)).
      by replace (x + - (x - s))%Qc with s by ring. }
    split; [apply Hlt|]. split; [apply Hlt|]. split; [done|].
    intros Hneg. exfalso. by eapply Qclt_not_le; [|apply Qclt_le_weak].
  - apply np_ltb_Num_false in E1.
    assert (Hneg : (s < 0)%Qc).
    { destruct (Qc_dec s 0%Qc) as [[Hlt|Hgt]|Heq]; [done| |done].
      exfalso. by eapply Qclt_not_le. }
    replace (np_ltb (Num s) (Num 0%Qc)) with true
      by (symmetry; by apply np_ltb_Num).
    exists (lo + s)%Qc, (hi + s)%Qc. split; [done|]. split; [ring|].
    assert (Hlt : ∀ x, (x + s < x)%Qc).
    { intros x. apply (proj2 (Qclt_minus_iff (x + s) x)).
      replace (x + - (x + s))%Qc with (0 + - s)%Qc by ring.
      by apply (proj1 (Qclt_minus_iff s 0%Qc)). }
    split; [apply Hlt|]. split; [apply Hlt|]. split; [|done].
    intros Hpos. exfalso. by eapply Qclt_not_le; [|apply Qclt_le_weak].
Qed.


(** ** Ticks of the floating axis *)

Lemma filter_Num (P : npfloat → bool) (ts : list Qc) :
  filter (λ b, P b) (Num <$> ts) = Num <$> filter (λ t, P (Num t)) ts.
Proof.
  induction ts as [|t ts IH]; [done|]. csimpl.
  rewrite !filter_cons. destruct (decide (P (Num t))); csimpl; by rewrite IH.
Qed.

Lemma getitem_last {A} (l : list A) x : last l = Some x → getitem l (0 - 1) = Ok x.
Proof.
  intros Hl. rewrite last_lookup in Hl.
  assert (Hlen : (0 < length l)%nat) by (destruct l; simpl in *; [done|lia]).
  unfold getitem. destruct (decide (0 - 1 < 0)); [|lia].
  destruct (decide _) as [_|]; [|lia].
  replace (Z.to_nat (Z.of_nat (length l) + (0 - 1))) with (pred (length l)) by lia.
  by rewrite Hl.
Qed.

Lemma getitem_past_end {A} (l : list A) i :
  Z.of_nat (length l) ≤ i →
  getitem l i = Raise (PyExc "IndexError" "index out of range").
Proof.
  intros Hi. unfold getitem. destruct (decide (i < 0)); [lia|].
  destruct (decide _); [lia|done].
Qed.

Lemma where_first_head t0 l k :
  where_first (np_eqb (Num t0)) (Num t0 :: l) k = Ok k.
Proof. simpl. by rewrite bool_decide_eq_true_2. Qed.

Lemma where_first_after ts' tn l k :
  (∀ t, t ∈ ts' → t ≠ tn) →
  where_first (np_eqb (Num tn)) (Num <$> (ts' ++ tn :: l)) k =
    Ok (k + Z.of_nat (length ts')).
Proof.
  revert k. induction ts' as [|t ts' IH]; intros k Hne; csimpl.
  - rewrite bool_decide_eq_true_2 by done. f_equal. lia.
  - rewrite bool_decide_eq_false_2.
    2:{ intros ->. by apply (Hne t); [left|]. }
    rewrite IH by (intros t' Ht'; apply Hne; by right). f_equal. lia.
Qed.

(** The clipped limits [lower] and [upper] of lines 878-886. *)
Lemma clipped_limits (qs : list Qc) :
  qs ≠ [] →
  ∃ l u,
    amin (Num <$> qs) = Ok (Num l) ∧ amax (Num <$> qs) = Ok (Num u)
    ∧ ∃ l' u',
        (if np_ltb zero (Num l) then zero else Num l) = Num l'
        ∧ (if np_ltb (Num u) zero then zero else Num u) = Num u'
        ∧ ∀ t, (l' ≤ t)%Qc ∧ (t ≤ u')%Qc ↔ in_drawn_range qs t.
Proof.
  intros Hqs.
  destruct (amin_numbers qs Hqs) as (l & Hl & Hl_in & Hl_le).
  destruct (amax_numbers qs Hqs) as (u & Hu & Hu_in & Hu_ge).
  exists l, u. split; [done|]. split; [done|].
  unfold zero, of_int. rewrite Qc_of_Z_0.
  assert (Hlow : ∃ l', (if np_ltb (Num 0%Qc) (Num l) then Num 0%Qc else Num l) = Num l'
            ∧ ∀ t, (l' ≤ t)%Qc ↔ ∃ x, x ∈ 0%Qc :: qs ∧ (x ≤ t)%Qc).
  { destruct (np_ltb (Num 0%Qc) (Num l)) eqn:E.
    - apply np_ltb_Num in E. exists 0%Qc. split; [done|]. intros t. split.
      + intros Ht. exists 0%Qc. split; [by left|done].
      + intros (x & [->|Hx]%elem_of_cons & Hxt); [done|].
        apply (Qcle_trans _ x); [|done]. apply Qclt_le_weak.
        apply (Qclt_le_trans _ l); [done|by apply Hl_le].
    - apply np_ltb_Num_false in E. exists l. split; [done|]. intros t. split.
      + intros Ht. exists l. split; [by right|done].
      + intros (x & [->|Hx]%elem_of_cons & Hxt).
        * by apply (Qcle_trans _ 0%Qc).
        * apply (Qcle_trans _ x); [by apply Hl_le|done]. }
  assert (Hup : ∃ u', (if np_ltb (Num u) (Num 0%Qc) then Num 0%Qc else Num u) = Num u'
            ∧ ∀ t, (t ≤ u')%Qc ↔ ∃ y, y ∈ 0%Qc :: qs ∧ (t ≤ y)%Qc).
  { destruct (np_ltb (Num u) (Num 0%Qc)) eqn:E.
    - apply np_ltb_Num in E. exists 0%Qc. split; [done|]. intros t. split.
      + intros Ht. exists 0%Qc. split; [by left|done].
      + intros (y & [->|Hy]%elem_of_cons & Hty); [done|].
        apply (Qcle_trans _ y); [done|]. apply Qclt_le_weak.
        apply (Qcle_lt_trans _ u); [by apply Hu_ge|done].
    - apply np_ltb_Num_false in E. exists u. split; [done|]. intros t. split.
      + intros Ht. exists u. split; [by right|done].
      + intros (y & [->|Hy]%elem_of_cons & Hty).
        * by apply (Qcle_trans _ 0%Qc).
        * apply (Qcle_trans _ y); [done|by apply Hu_ge]. }
  destruct Hlow as (l' & Hl' & Hlow), Hup as (u' & Hu' & Hup).
  exists l', u'. split; [done|]. split; [done|].
  intros t. unfold in_drawn_range. by rewrite Hlow, Hup.
Qed.

(** [float_axis_ticks] on numbers: the ticks kept by the loop of lines
    897-901 are those within the drawn range. *)
Lemma float_axis_ticks_numbers (qs ts : list Qc) meandiff :
  qs ≠ [] →
  ∃ kept,
    (∀ t, t ∈ kept ↔ t ∈ ts ∧ in_drawn_range qs t)
    ∧ float_axis_ticks (Num <$> qs) meandiff (Num <$> ts) =
        let newticks1 := Num <$> ts in
        let newticks2 := Num <$> kept in
        let? top := amax newticks2 in
        let? newticks2 :=
          if np_ltb top meandiff then
            let? ind := where_first (np_eqb top) newticks1 0 in
            let? tick := getitem newticks1 (ind + 1) in
            Ok (newticks2 ++ [tick])
          else
            let? bottom := amin newticks2 in
            if np_ltb meandiff bottom then
              let? ind := where_first (np_eqb bottom) newticks1 0 in
              let? tick := getitem newticks1 (ind - 1) in
              Ok (newticks2 ++ [tick])
            else Ok newticks2 in
        Ok (np_sort newticks2).
Proof.
  intros Hqs.
  destruct (clipped_limits qs Hqs) as (l & u & Hl & Hu & l' & u' & Hl' & Hu' & Hr).
  exists (filter (λ t, np_leb (Num l') (Num t) && np_leb (Num t) (Num u')) ts).
  split.
  - intros t. rewrite list_elem_of_filter, andb_True, <- Hr.
    rewrite !Is_true_true, !np_leb_Num. tauto.
  - unfold float_axis_ticks. rewrite Hl, Hu. cbn [and_then].
    rewrite Hl', Hu'.
    by rewrite (filter_Num (λ b, np_leb (Num l') b && np_leb b (Num u'))).
Qed.

Lemma np_sort_elem_of a x : x ∈ np_sort a ↔ x ∈ a.
Proof. by rewrite np_sort_Permutation. Qed.

(** X11: Lines 897-903: when no proposed tick lies within the drawn range,
    [newticks2] stays empty and [np.max(newticks2)] fails. *)
Theorem float_axis_ticks_none_in_range (qs ts : list Qc) meandiff :
  qs ≠ [] →
  (∀ t, t ∈ ts → ¬ in_drawn_range qs t) →
  float_axis_ticks (Num <$> qs) meandiff (Num <$> ts) =
    Raise (PyExc "ValueError"
      "zero-size array to reduction operation maximum which has no identity").
Proof.
  intros Hqs Hout.
  destruct (float_axis_ticks_numbers qs ts meandiff Hqs) as (kept & Hk & ->).
  destruct kept as [|t kept]; [done|]. exfalso.
  destruct (proj1 (Hk t)) as [Hin Hr]; [by left|]. by apply (Hout t).
Qed.

(** X12: Lines 897-910: when the point estimate lies between two proposed
    ticks of the drawn range, the new ticks are the proposed ticks within
    the drawn range, in non-decreasing order. *)
Theorem float_axis_ticks_within_range (qs ts : list Qc) (m a b : Qc) :
  qs ≠ [] →
  a ∈ ts → in_drawn_range qs a →
  b ∈ ts → in_drawn_range qs b →
  (a ≤ m)%Qc → (m ≤ b)%Qc →
  ∃ ticks,
    float_axis_ticks (Num <$> qs) (Num m) (Num <$> ts) = Ok ticks
    ∧ Sorted np_le ticks
    ∧ ∀ x, x ∈ ticks ↔ ∃ t, x = Num t ∧ t ∈ ts ∧ in_drawn_range qs t.
Proof.
  intros Hqs Ha Hra Hb Hrb Ham Hmb.
  destruct (float_axis_ticks_numbers qs ts (Num m) Hqs) as (kept & Hk & ->).
  assert (Hka : a ∈ kept) by (by apply Hk).
  assert (Hkb : b ∈ kept) by (by apply Hk).
  assert (Hne : kept ≠ []) by (intros ->; by apply elem_of_nil in Hka).
  destruct (amax_numbers kept Hne) as (top & Htop & _ & Htop_ge).
  destruct (amin_numbers kept Hne) as (bottom & Hbot & _ & Hbot_le).
  cbv zeta. rewrite Htop. cbn [and_then].
  replace (np_ltb (Num top) (Num m)) with false.
  2:{ symmetry. apply np_ltb_Num_false.
      by apply (Qcle_trans _ b); [|apply Htop_ge]. }
  rewrite Hbot. cbn [and_then].
  replace (np_ltb (Num m) (Num bottom)) with false.
  2:{ symmetry. apply np_ltb_Num_false.
      by apply (Qcle_trans _ a); [apply Hbot_le|]. }
  cbn [and_then]. eexists. split; [done|]. split; [apply np_sort_Sorted|].
  intros x. rewrite np_sort_elem_of, list_elem_of_fmap.
  split; intros (t & -> & Ht); exists t; (split; [done|]); by apply Hk.
Qed.

(** X13: Lines 906-908: when the smallest proposed tick lies within the drawn
    range and the point estimate is below it, [ind] is 0 and
    [newticks1[ind-1]] is [newticks1[-1]]: the tick that is added is the
    last proposed tick, not one below the point estimate. *)
Theorem float_axis_ticks_wraps_around (qs ts' : list Qc) (m t0 tl : Qc) :
  qs ≠ [] →
  (∀ t, t ∈ ts' → (t0 ≤ t)%Qc) →
  in_drawn_range qs t0 →
  (m < t0)%Qc →
  last (t0 :: ts') = Some tl →
  ∃ ticks,
    float_axis_ticks (Num <$> qs) (Num m) (Num <$> t0 :: ts') = Ok ticks
    ∧ Sorted np_le ticks
    ∧ ∀ x, x ∈ ticks ↔
        (∃ t, x = Num t ∧ t ∈ t0 :: ts' ∧ in_drawn_range qs t) ∨ x = Num tl.
Proof.
  intros Hqs Hts Hr0 Hm Hlast.
  destruct (float_axis_ticks_numbers qs (t0 :: ts') (Num m) Hqs)
    as (kept & Hk & ->).
  assert (Hk0 : t0 ∈ kept) by (apply Hk; split; [by left|done]).
  assert (Hne : kept ≠ []) by (intros ->; by apply elem_of_nil in Hk0).
  destruct (amax_numbers kept Hne) as (top & Htop & _ & Htop_ge).
  destruct (amin_numbers kept Hne) as (bottom & Hbot & Hbot_in & Hbot_le).
  assert (bottom = t0) as ->.
  { apply Qcle_antisym; [by apply Hbot_le|].
    apply Hk in Hbot_in as [[->|Hin]%elem_of_cons _]; [done|by apply Hts]. }
  cbv zeta. rewrite Htop. cbn [and_then].
  replace (np_ltb (Num top) (Num m)) with false.
  2:{ symmetry. apply np_ltb_Num_false. apply Qclt_le_weak.
      by apply (Qclt_le_trans _ t0); [|apply Htop_ge]. }
  rewrite Hbot. cbn [and_then].
  replace (np_ltb (Num m) (Num t0)) with true
    by (symmetry; by apply np_ltb_Num).
  rewrite fmap_cons, where_first_head. cbn [and_then].
  rewrite <- fmap_cons, (getitem_last _ (Num tl)) by (by rewrite fmap_last, Hlast).
  cbn [and_then]. eexists. split; [done|]. split; [apply np_sort_Sorted|].
  intros x. rewrite np_sort_elem_of, elem_of_app, list_elem_of_fmap, list_elem_of_singleton.
  split.
  - intros [(t & -> & Ht)| ->]; [left|by right]. exists t. split; [done|]. by apply Hk.
  - intros [(t & -> & Ht)| ->]; [left|by right]. exists t. split; [done|]. by apply Hk.
Qed.

(** X14: Lines 903-905: when the largest proposed tick lies within the drawn
    range and the point estimate is above it, [newticks1[ind+1]] reads
    past the end of [newticks1]. *)
Theorem float_axis_ticks_past_last_tick (qs ts' : list Qc) (m tn : Qc) :
  qs ≠ [] →
  (∀ t, t ∈ ts' → (t < tn)%Qc) →
  in_drawn_range qs tn →
  (tn < m)%Qc →
  ∃ msg,
    float_axis_ticks (Num <$> qs) (Num m) (Num <$> ts' ++ [tn]) =
      Raise (PyExc "IndexError" msg).
Proof.
  intros Hqs Hts Hrn Hm.
  destruct (float_axis_ticks_numbers qs (ts' ++ [tn]) (Num m) Hqs)
    as (kept & Hk & ->).
  assert (Hkn : tn ∈ kept) by (apply Hk; split; [set_solver|done]).
  assert (Hne : kept ≠ []) by (intros ->; by apply elem_of_nil in Hkn).
  destruct (amax_numbers kept Hne) as (top & Htop & Htop_in & Htop_ge).
  assert (top = tn) as ->.
  { apply Qcle_antisym; [|by apply Htop_ge].
    apply Hk in Htop_in as [[Hin|Hin%list_elem_of_singleton]%elem_of_app _];
      [by apply Qclt_le_weak, Hts|by rewrite Hin]. }
  cbv zeta. rewrite Htop. cbn [and_then].
  replace (np_ltb (Num tn) (Num m)) with true
    by (symmetry; by apply np_ltb_Num).
  rewrite where_first_after.
  2:{ intros t Ht ->. apply Hts in Ht. by apply Qclt_not_eq in Ht. }
  cbn [and_then]. rewrite getitem_past_end; [by eexists|].
  rewrite length_fmap, length_app. simpl. lia.
Qed.

(** * Properties of the plotting routines *)

(** ** Reading [idx] *)

Section ReadingIdx.
Context `{Externals}.



End ReadingIdx.

(** ** [swarmsummary] *)

Lemma unique_from_seen seen seen' col :
  (∀ x, x ∈ seen ↔ x ∈ seen') → unique_from seen col = unique_from seen' col.
Proof.
  revert seen seen'. induction col as [|v col IH]; intros seen seen' Hs; [done|].
  simpl. destruct (decide (v ∈ seen)) as [Hv|Hv].
  - rewrite decide_True by (by apply Hs). by apply IH.
  - rewrite decide_False by (by rewrite <- Hs). f_equal. apply IH.
    intros x. rewrite !elem_of_cons, Hs. done.
Qed.

Lemma unique_from_own seen col :
  unique_from seen (unique_from seen col) = unique_from seen col.
Proof.
  revert seen. induction col as [|v col IH]; intros seen; [done|]. simpl.
  destruct (decide (v ∈ seen)) as [Hv|Hv]; [done|].
  simpl. rewrite decide_False by done. by rewrite IH.
Qed.

Lemma unique_unique col : unique (unique col) = unique col.
Proof. apply unique_from_own. Qed.

Lemma odict_set_keys {V} (d : list (label * V)) key value :
  (Plots.odict_set d key value).*1 =
    if decide (key ∈ d.*1) then d.*1 else d.*1 ++ [key].
Proof.
  induction d as [|[k v] d IH]; [done|]. simpl.
  destruct (decide (k = key)) as [->|Hne]; csimpl.
  - by rewrite decide_True by (by left).
  - rewrite IH. destruct (decide (key ∈ d.*1)) as [Hin|Hin].
    + by rewrite decide_True by (by right).
    + rewrite decide_False; [done|]. intros [?|?]%elem_of_cons; by simplify_eq.
Qed.

Lemma odict_set_elem_of {V} (d : list (label * V)) key value kv :
  kv ∈ Plots.odict_set d key value → kv ∈ d ∨ kv = (key, value).
Proof.
  induction d as [|[k v] d IH]; simpl.
  - intros ->%list_elem_of_singleton. by right.
  - destruct (decide (k = key)) as [->|Hne].
    + intros [->|Hin]%elem_of_cons; [by right|left; by right].
    + intros [->|Hin]%elem_of_cons; [left; by left|].
      destruct (IH Hin) as [?|?]; [left; by right|by right].
Qed.


Section SwarmSummary.
Context `{Externals}.
Context (Hquiet : resampler_quiet) (Hbca : bca_in_range).

(** [bootstrap] on a non-empty sample returns, and leaves the warning
    filters as they were. *)
Lemma bootstrap_runs data statfunction smoothboot (alpha : Qc) reps w :
  let func := default np_mean statfunction in
  data ≠ [] → (0 < alpha)%Qc → (alpha < 1)%Qc → 1 ≤ reps →
  find_action UserWarning (filters w) ≠ Error →
  ∃ r w',
    Boot.bootstrap data statfunction smoothboot (Num alpha) reps w = (Ok r, w')
    ∧ filters w' = filters w
    ∧ Boot.summary r = func data
    ∧ Boot.bootstrap_reps r = reps
    ∧ length (Boot.stat_array r) = Z.to_nat reps
    ∧ Sorted np_le (Boot.stat_array r).
Proof.
  intros func Hd Hpos Hlt Hreps Hw.
  destruct (bootstrap_returns data statfunction smoothboot alpha reps w
              Hd Hpos Hlt Hreps Hquiet Hbca Hw)
    as (boots & w1 & w2 & b & plo & phi & blo & bhi &
        Hsb & Hlen & Hw1 & _ & _ & _ & Hfe & _ & _ & _ & _ & Hrun).
  assert (Hf1 : filters w1 = filters w)
    by (unfold warnings_of in Hw1; congruence).
  destruct (for_each_warn_returns reps
              [pct_low_high reps (two_sided_alphas (Num alpha)); b] w1)
    as (w2' & Hfe' & Hf2); [by rewrite Hf1|].
  rewrite Hfe in Hfe'. injection Hfe' as <-.
  eexists _, w2. split; [exact Hrun|]. simpl. rewrite np_sort_length.
  split; [congruence|]. split; [done|]. split; [done|]. split; [done|].
  apply np_sort_Sorted.
Qed.

Lemma bslist_loop_returns data func smoothboot levs acc w :
  (∀ lev, lev ∈ levs → lev ∈ data.*1) →
  (∀ kv, kv ∈ acc → column_of data func kv) →
  find_action UserWarning (filters w) ≠ Error →
  ∃ res w',
    Plots.bslist_loop data func smoothboot levs acc w = (Ok res, w')
    ∧ filters w' = filters w
    ∧ res.*1 = acc.*1 ++ unique_from acc.*1 levs
    ∧ ∀ kv, kv ∈ res → column_of data func kv.
Proof.
  revert acc w. induction levs as [|lev levs IH]; intros acc w Hlevs Hacc Hw.
  - exists acc, w. simpl. by rewrite app_nil_r.
  - assert (Hrows : rows_of data lev ≠ [])
      by (apply rows_of_nonempty, Hlevs; by left).
    destruct (bootstrap_runs (rows_of data lev) (Some func) smoothboot
                one_twentieth default_reps w Hrows eq_refl eq_refl)
      as (r & w1 & Hrun & Hf1 & Hsum & Hreps & Hlen & Hsorted); [done|done|].
    destruct (IH (Plots.odict_set acc lev r) w1) as (res & w' & Hloop & Hf' & Hkeys & Hcols).
    { intros l Hl. apply Hlevs. by right. }
    { intros kv [Hin| ->]%odict_set_elem_of; [by apply Hacc|]. done. }
    { by rewrite Hf1. }
    exists res, w'. split.
    { cbn [Plots.bslist_loop]. change default_alpha with (Num one_twentieth).
      by rewrite (bind_Ok _ _ _ _ _ Hrun). }
    split; [congruence|]. split; [|done].
    rewrite Hkeys, odict_set_keys. simpl.
    destruct (decide (lev ∈ acc.*1)) as [Hin|Hin]; [done|].
    rewrite <- app_assoc. simpl. do 2 f_equal. apply unique_from_seen.
    intros x. set_solver.
Qed.

(** X17: [swarmsummary], lines 306-320: when every level asked for has rows,
    the frame that is returned has one column per level, in the order in
    which the levels are first named ([idx]) or first appear (no [idx]);
    a level named twice has one column.  Every column holds the
    statistic of that level's rows as ['summary'], [3000] replicates
    and their sorted statistics. *)
Theorem swarmsummary_columns data idx statfunction smoothboot w :
  let func := default np_mean statfunction in
  let levs := default (unique data.*1) idx in
  (∀ lev, lev ∈ levs → lev ∈ data.*1) →
  find_action UserWarning (filters w) ≠ Error →
  ∃ res w',
    Plots.swarmsummary data idx statfunction smoothboot w = (Ok res, w')
    ∧ res.*1 = unique levs
    ∧ ∀ lev r, (lev, r) ∈ res →
        Boot.summary r = func (rows_of data lev)
        ∧ Boot.bootstrap_reps r = 3000
        ∧ length (Boot.stat_array r) = 3000%nat
        ∧ Sorted np_le (Boot.stat_array r).
Proof.
  intros func levs Hlevs Hw.
  destruct (bslist_loop_returns data func smoothboot levs [] w Hlevs)
    as (res & w' & Hloop & _ & Hkeys & Hcols); [by intros kv ?%elem_of_nil|done|].
  exists res, w'. split.
  { unfold Plots.swarmsummary. fold func. by destruct idx. }
  split; [done|]. intros lev r Hin.
  destruct (Hcols _ Hin) as (Hsum & Hreps & Hlen & Hsorted).
  simpl in *. split; [done|]. split; [done|]. split; [|done].
  rewrite Hlen. unfold default_reps. lia.
Qed.




End SwarmSummary.

(** ** [contrastplot] *)

Lemma dropna_rows (data : frame) lev : NaN ∉ rows_of (Plots.dropna data) lev.
Proof.
  unfold rows_of, Plots.dropna, frame. intros Hin.
  apply list_elem_of_fmap in Hin as ([k v] & Hv & Hin). simpl in Hv. subst v.
  apply list_elem_of_filter in Hin as [_ Hin].
  by apply list_elem_of_filter in Hin as [Hne _].
Qed.

Lemma names_as_levels (names : list string) :
  (Plots.SName <$> names) ≫= Plots.group_of = LStr <$> names.
Proof. induction names as [|s names IH]; [done|]. csimpl. by rewrite IH. Qed.

Lemma forallb_is_name names : forallb Plots.is_name (Plots.SName <$> names) = true.
Proof. by induction names. Qed.

Section ContrastPlot.
Context `{Externals}.
Context (Hquiet : resampler_quiet) (Hbca : bca_in_range).

(** [bootstrap_contrast] of two levels of the data returns, and leaves
    the warning filters as they were. *)
Lemma bootstrap_contrast_runs data a b func smoothboot reps w :
  a ∈ data.*1 → b ∈ data.*1 → 1 ≤ reps →
  tests_return data a b →
  find_action UserWarning (filters w) ≠ Error →
  ∃ r w',
    Contrast.bootstrap_contrast data (Some [a; b]) (Some func) smoothboot
      default_alpha reps w = (Ok r, w')
    ∧ filters w' = filters w
    ∧ contrast_of data func reps a b r.
Proof.
  intros Ha Hb Hreps (t & m & Ht & Hm) Hw.
  assert (Hal : arraylist_of data (default [LInt 0; LInt 1] (Some [a; b])) =
                Ok [rows_of data a; rows_of data b]).
  { rewrite arraylist_of_resolve. simpl.
    by rewrite !resolve_level by (by apply unique_elem_of). }
  destruct (bootstrap_contrast_returns data (Some [a; b]) (Some func) smoothboot
              one_twentieth reps w _ _ _ t m Hal (getitem_0 _ _) (getitem_1 _ _ _)
              eq_refl eq_refl Hreps Hquiet Hbca Ht Hm Hw)
    as (rs & es & w1 & w2 & w3 & bi & plo & phi & blo & bhi &
        _ & _ & Hrl & Hel & Hw2 & _ & _ & _ & Hfe & _ & _ & _ & _ & Hrun).
  assert (Hf2 : filters w2 = filters w)
    by (unfold warnings_of in Hw2; congruence).
  destruct (for_each_warn_returns reps
              [pct_low_high reps (two_sided_alphas (Num one_twentieth)); bi] w2)
    as (w3' & Hfe' & Hf3); [by rewrite Hf2|].
  rewrite Hfe in Hfe'. injection Hfe' as <-.
  eexists _, w3. split; [exact Hrun|]. split; [congruence|].
  unfold contrast_of. simpl. rewrite np_sort_length, length_zip_with.
  repeat (split; [done || lia|]). apply np_sort_Sorted.
Qed.

Lemma spokes_returns data func smoothboot reps h names w :
  LStr h ∈ data.*1 → 1 ≤ reps →
  (∀ s, s ∈ names →
     LStr s ∈ data.*1 ∧ tests_return data (LStr h) (LStr s)) →
  find_action UserWarning (filters w) ≠ Error →
  ∃ res w',
    Plots.spokes data func smoothboot reps (LStr h) (LStr <$> names) w =
      (Ok res, w')
    ∧ filters w' = filters w
    ∧ Forall2 (λ s nr, nr.1 = (s +:+ " vs. " +:+ h)
                       ∧ contrast_of data func reps (LStr h) (LStr s) nr.2)
        names res.
Proof.
  intros Hh Hreps. revert w. induction names as [|s names IH]; intros w Hn Hw.
  - exists [], w. by repeat split.
  - destruct (Hn s) as [Hs Ht]; [by left|].
    destruct (bootstrap_contrast_runs data (LStr h) (LStr s) func smoothboot
                reps w Hh Hs Hreps Ht Hw) as (r & w1 & Hrun & Hf1 & Hr).
    destruct (IH w1) as (res & w' & Hloop & Hf' & Hres).
    { intros s' Hs'. apply Hn. by right. }
    { by rewrite Hf1. }
    exists ((s +:+ " vs. " +:+ h, r) :: res), w'. split.
    { rewrite fmap_cons. cbn [Plots.spokes].
      rewrite (bind_Ok _ _ _ _ _ Hrun).
      rewrite (bind_lift_Ok _ _ _ (s +:+ " vs. " +:+ h)) by done.
      by rewrite (bind_Ok _ _ _ _ _ Hloop). }
    split; [congruence|]. by constructor.
Qed.

(** X19: [contrastplot], lines 461-466 and 752-769: for three or more level
    names, every level after the first is contrasted with the first one
    (the hub), in the order of [idx]; the contrast of the level [s] is
    named [s vs. hub], its reference group is the hub's rows and its
    point estimate is [statistic(s) - statistic(hub)]; rows with a
    missing value take no part. *)
Theorem contrastplot_hub_and_spokes data h names statfunction reps
    floatContrast smoothboot w :
  let func := default np_mean statfunction in
  let rows := Plots.dropna data in
  (2 ≤ length names)%nat → 1 ≤ reps →
  LStr h ∈ rows.*1 →
  (∀ s, s ∈ names →
     LStr s ∈ rows.*1 ∧ tests_return rows (LStr h) (LStr s)) →
  find_action UserWarning (filters w) ≠ Error →
  ∃ res w',
    Plots.contrastplot data (Some (Plots.SName <$> h :: names)) statfunction
      reps floatContrast smoothboot w = (Ok res, w')
    ∧ Forall2 (λ s nr, nr.1 = (s +:+ " vs. " +:+ h)
                       ∧ contrast_of rows func reps (LStr h) (LStr s) nr.2
                       ∧ (NaN ∉ Contrast.ref_input nr.2)
                       ∧ (NaN ∉ Contrast.test_input nr.2))
        names res.
Proof.
  intros func rows Hlen Hreps Hh Hn Hw.
  destruct (spokes_returns rows func smoothboot reps h names w Hh Hreps Hn Hw)
    as (res & w' & Hloop & _ & Hres).
  exists res, w'. split.
  - assert (Hread : ∃ lay,
      Plots.read_idx rows (Some (Plots.SName <$> h :: names)) floatContrast =
        Ok lay
      ∧ Plots.levs_tuple lay = [LStr <$> h :: names]).
    { unfold Plots.read_idx. rewrite forallb_is_name, names_as_levels.
      by eexists. }
    destruct Hread as (lay & Hread & Hlay).
    unfold Plots.contrastplot. fold rows func.
    rewrite (bind_lift_Ok _ _ _ _ Hread), Hlay.
    cbn [Plots.contrast_groups].
    destruct names as [|s1 [|s2 names]]; [simpl in Hlen; lia..|].
    rewrite !fmap_cons. cbn [Plots.group_contrasts].
    rewrite !fmap_cons in Hloop. rewrite (bind_Ok _ _ _ _ _ Hloop).
    rewrite (bind_Ok (ret []) _ w' [] w' eq_refl). unfold ret.
    by rewrite app_nil_r.
  - eapply Forall2_impl; [exact Hres|]. intros s [name r] (Hname & Hr).
    split; [done|]. split; [done|]. destruct Hr as (Href & Htest & _).
    simpl in *. rewrite Href, Htest. split; apply dropna_rows.
Qed.


(** X21: [contrastplot], lines 759-769: the name of a hub-and-spoke contrast
    is built with [+] and no [str]; when the hub or the first other
    level is not a string, the call fails with [TypeError] once the
    first contrast has been computed. *)
Theorem contrastplot_hub_not_a_string data hub l1 l2 rest statfunction reps
    floatContrast smoothboot w :
  let rows := Plots.dropna data in
  unique rows.*1 = hub :: l1 :: l2 :: rest →
  (∃ z, hub = LInt z) ∨ (∃ z, l1 = LInt z) →
  1 ≤ reps → tests_return rows hub l1 →
  find_action UserWarning (filters w) ≠ Error →
  ∃ msg w',
    Plots.contrastplot data None statfunction reps floatContrast smoothboot w =
    (Raise (PyExc "TypeError" msg), w').
Proof.
  intros rows Hlevels Hint Hreps Ht Hw.
  assert (Hhub : hub ∈ rows.*1) by (apply unique_elem_of; rewrite Hlevels; set_solver).
  assert (Hl1 : l1 ∈ rows.*1) by (apply unique_elem_of; rewrite Hlevels; set_solver).
  destruct (bootstrap_contrast_runs rows hub l1 (default np_mean statfunction)
              smoothboot reps w Hhub Hl1 Hreps Ht Hw) as (r & w1 & Hrun & _ & _).
  eexists _, w1. unfold Plots.contrastplot, Plots.read_idx. fold rows.
  rewrite (bind_lift_Ok _ _ _ _ eq_refl). cbn [Plots.levs_tuple].
  rewrite Hlevels. cbn [Plots.contrast_groups Plots.group_contrasts Plots.spokes].
  apply bind_Raise. rewrite (bind_Ok _ _ _ _ _ Hrun).
  apply bind_lift_Raise.
  destruct Hint as [[z ->]|[z ->]]; [by destruct l1|done].
Qed.

End ContrastPlot.

(** ** [pairedcontrast] with several pairs *)

Section PairedPlot.
Context `{Externals}.
Context (Hquiet : resampler_quiet) (Hbca : bca_in_range).



End PairedPlot.

(** * Instances of the further properties *)



Lemma bootstrap_few_reps_warns_witness :
  ∃ msg w', Boot.bootstrap (H := plain_externals) three_values None false
              (Num one_twentieth) 10 warnings_as_errors =
            (Raise (PyExc "UserWarning" msg), w').
Proof.
  destruct (bootstrap_few_reps_warns (H := plain_externals) three_values
              None false one_twentieth 10 warnings_as_errors)
    as [Herr _];
    [discriminate | reflexivity | reflexivity | lia | lia
    | apply plain_resampler_quiet | apply plain_bca_in_range | ].
  destruct Herr as (msg & w' & Hrun & _); [reflexivity|].
  exists msg, w'. exact Hrun.
Defined.

Lemma contrast_first_two_selectors_witness :
  Contrast.bootstrap_contrast (H := plain_externals) two_groups
    (Some [LStr "zzz"; LStr "a"; LInt 1; LStr "b"]) None false
    (Num one_twentieth) 4 (imported counting) =
  Contrast.bootstrap_contrast (H := plain_externals) two_groups
    (Some [LStr "a"; LStr "b"]) None false
    (Num one_twentieth) 4 (imported counting).
Proof.
  destruct (contrast_first_two_selectors (H := plain_externals) two_groups
              [LStr "zzz"; LStr "a"; LInt 1; LStr "b"] None false
              (Num one_twentieth) 4 (imported counting)
              (LStr "a") (LStr "b") [LStr "b"])
    as (_ & _ & Heq); [vm_compute; reflexivity|exact Heq].
Defined.

Lemma contrast_positions_as_levels_witness :
  Contrast.bootstrap_contrast (H := plain_externals) two_groups
    (Some [LInt 0; LInt 1]) None false (Num one_twentieth) 4
    (imported counting) =
  Contrast.bootstrap_contrast (H := plain_externals) two_groups
    (Some [LStr "a"; LStr "b"]) None false (Num one_twentieth) 4
    (imported counting).
Proof.
  apply (contrast_positions_as_levels (H := plain_externals) two_groups None
           false (Num one_twentieth) 4 (imported counting) 0%nat 1%nat
           (LStr "a") (LStr "b"));
    [reflexivity | reflexivity | by_computation | by_computation].
Defined.

Lemma bootstrap_nan_alpha_witness :
  ∃ r w', Boot.bootstrap (H := plain_externals) three_values None false NaN 4
            (imported counting) = (Ok r, w')
          ∧ Boot.pct_low_high_indices r = (0, 0)
          ∧ Boot.pct_ci_low r = Boot.pct_ci_high r.
Proof.
  destruct (bootstrap_nan_alpha (H := plain_externals) three_values None
              false 4 (imported counting))
    as (r & w' & Hrun & Hind & Heq & _);
    [discriminate | lia | apply plain_resampler_quiet
    | intros statarray _; apply plain_bca_any_alpha; lia | discriminate | ].
  exists r, w'. auto.
Defined.

Lemma plotbootstrap_ylim_limits_witness :
  ∃ lims, plotbootstrap_ylim three_values = Ok lims
          ∧ ∀ a b, lims = Some (a, b) → np_le a zero ∧ np_le zero b.
Proof.
  destruct (plotbootstrap_ylim_limits [Qc_of_Z 1; Qc_of_Z 2; Qc_of_Z 3])
    as (lims & Hrun & _ & Hb); [discriminate|].
  exists lims. split; [exact Hrun|]. intros a b Hl.
  destruct (Hb a b Hl) as (_ & Ha & Hb' & _). auto.
Defined.

Lemma hubspoke_ylim_limits_witness :
  ∃ lims, hubspoke_ylim [three_values; three_values] = Ok lims
          ∧ ∀ a b, lims = Some (a, b) → np_le a zero ∧ np_le zero b.
Proof.
  destruct (hubspoke_ylim_limits [three_values; three_values]
              [Qc_of_Z 1; Qc_of_Z 2; Qc_of_Z 3;
               Qc_of_Z 1; Qc_of_Z 2; Qc_of_Z 3])
    as (lims & Hrun & _ & Hb); [reflexivity|discriminate|].
  exists lims. split; [exact Hrun|]. intros a b Hl.
  destruct (Hb a b Hl) as (Ha & Hb' & _). auto.
Defined.

Lemma right_ylim_moves_down_witness :
  ∃ a b, right_ylim None (of_int 0, of_int 10) (of_int 2) = Ok (Num a, Num b)
         ∧ (b - a = Qc_of_Z 10 - Qc_of_Z 0)%Qc.
Proof.
  destruct (right_ylim_moves_down None (Qc_of_Z 0) (Qc_of_Z 10) (Qc_of_Z 2))
    as (a & b & Hrun & Hw & _); [intros E; by apply (f_equal this) in E|].
  exists a, b. auto.
Defined.


Lemma float_axis_ticks_none_in_range_witness :
  float_axis_ticks (Num <$> up_to_four) (of_int 3) [of_int 6] =
    Raise (PyExc "ValueError"
      "zero-size array to reduction operation maximum which has no identity").
Proof.
  apply (float_axis_ticks_none_in_range up_to_four [Qc_of_Z 6] (of_int 3));
    [discriminate|].
  intros t Ht [_ (y & Hy & Hle)]. each_element Ht; each_element Hy;
    apply Hle; reflexivity.
Defined.

Lemma float_axis_ticks_within_range_witness :
  ∃ ticks, float_axis_ticks (Num <$> up_to_four) (of_int 3)
             (Num <$> even_ticks) = Ok ticks
           ∧ Sorted np_le ticks.
Proof.
  destruct (float_axis_ticks_within_range up_to_four even_ticks
              (Qc_of_Z 3) (Qc_of_Z 2) (Qc_of_Z 4))
    as (ticks & Hrun & Hs & _).
  - discriminate.
  - by_computation.
  - split; [exists 0%Qc|exists (Qc_of_Z 4)]; (split; [by_computation|discriminate]).
  - by_computation.
  - split; [exists 0%Qc|exists (Qc_of_Z 4)]; (split; [by_computation|discriminate]).
  - discriminate.
  - discriminate.
  - exists ticks. auto.
Defined.

Lemma float_axis_ticks_wraps_around_witness :
  ∃ ticks, float_axis_ticks (Num <$> up_to_four) (of_int 1)
             [of_int 2; of_int 4; of_int 6] = Ok ticks
           ∧ of_int 6 ∈ ticks.
Proof.
  destruct (float_axis_ticks_wraps_around up_to_four [Qc_of_Z 4; Qc_of_Z 6]
              (Qc_of_Z 1) (Qc_of_Z 2) (Qc_of_Z 6))
    as (ticks & Hrun & _ & Hin).
  - discriminate.
  - intros t Ht. each_element Ht; discriminate.
  - split; [exists 0%Qc|exists (Qc_of_Z 4)]; (split; [by_computation|discriminate]).
  - reflexivity.
  - reflexivity.
  - exists ticks. split; [exact Hrun|]. apply Hin. right. reflexivity.
Defined.

Lemma float_axis_ticks_past_last_tick_witness :
  ∃ msg, float_axis_ticks (Num <$> up_to_four) (of_int 5)
           [of_int 0; of_int 2; of_int 4] = Raise (PyExc "IndexError" msg).
Proof.
  apply (float_axis_ticks_past_last_tick up_to_four [Qc_of_Z 0; Qc_of_Z 2]
           (Qc_of_Z 5) (Qc_of_Z 4)).
  - discriminate.
  - intros t Ht. each_element Ht; reflexivity.
  - split; [exists 0%Qc|exists (Qc_of_Z 4)]; (split; [by_computation|discriminate]).
  - reflexivity.
Defined.



Lemma swarmsummary_columns_witness :
  ∃ res w', Plots.swarmsummary (H := plain_externals) two_groups
              (Some [LStr "b"; LStr "a"; LStr "b"]) None false
              (imported counting) = (Ok res, w')
            ∧ res.*1 = [LStr "b"; LStr "a"].
Proof.
  destruct (swarmsummary_columns (H := plain_externals)
              plain_resampler_quiet plain_bca_in_range two_groups
              (Some [LStr "b"; LStr "a"; LStr "b"]) None false
              (imported counting))
    as (res & w' & Hrun & Hkeys & _).
  - intros lev Hlev. simpl in Hlev. each_element Hlev; by_computation.
  - discriminate.
  - exists res, w'. split; [exact Hrun|]. rewrite Hkeys. reflexivity.
Defined.


Lemma contrastplot_hub_and_spokes_witness :
  ∃ res w', Plots.contrastplot (H := plain_externals) three_groups
              (Some (Plots.SName <$> ["a"; "b"; "c"])) None 4 true false
              (imported counting) = (Ok res, w')
            ∧ Forall2 (λ s nr, nr.1 = (s +:+ " vs. a")) ["b"; "c"] res.
Proof.
  destruct (contrastplot_hub_and_spokes (H := plain_externals)
              plain_resampler_quiet plain_bca_in_range three_groups
              "a" ["b"; "c"] None 4 true false (imported counting))
    as (res & w' & Hrun & Hres).
  - simpl. lia.
  - lia.
  - by_computation.
  - intros s Hs. each_element Hs;
      (split; [by_computation|by eexists _, _]).
  - discriminate.
  - exists res, w'. split; [exact Hrun|].
    eapply Forall2_impl; [exact Hres|]. by intros s nr (Hname & _).
Defined.


Lemma contrastplot_hub_not_a_string_witness :
  ∃ msg w', Plots.contrastplot (H := plain_externals) three_integer_levels
              None None 4 false false (imported counting) =
            (Raise (PyExc "TypeError" msg), w').
Proof.
  apply (contrastplot_hub_not_a_string (H := plain_externals)
           plain_resampler_quiet plain_bca_in_range three_integer_levels
           (LInt 1) (LInt 0) (LInt 2) [] None 4 false false
           (imported counting)).
  - vm_compute. reflexivity.
  - left. by exists 1.
  - lia.
  - by eexists _, _.
  - discriminate.
Defined.

